(** * RIB extractor: a shallow embedding of the extraction and validation core

    Part I follows the Python sources file by file:

    - [Py]            the fragment of Python's [str] and [int] the code relies on;
    - [Re]            the fragment of Python's [re] the code relies on, as a
                      backtracking matcher over a small pattern syntax;
    - [iban_lib]      the IBAN library the sources import (python-stdnum);
    - [Utils]         src/utils.py;
    - [RibExtractor]  src/rib_extractor.py;
    - [AppWithOcr]    src/app_with_ocr.py (OCR path);
    - [App]           src/app.py (vision-model path);
    - [Enonces]       the vocabulary of the statements.

    Part II proves the properties: the arithmetic of the RIB key and of the
    IBAN check digits, soundness and completeness of the matcher, and what
    the extractors and the three main loops return.

    Text is a list of 8-bit characters.  Codes below 128 are ASCII and behave
    as in Python; codes from 128 upwards stand for caseless symbols that are
    neither letters, digits nor blanks (accented letters are outside the
    model). *)

From Stdlib Require Import String Ascii ZArith Lia Bool Arith PeanoNat List.
Import ListNotations.

Set Implicit Arguments.

(* ===================================================================== *)
(** * Part I. Definitions                                                 *)
(* ===================================================================== *)

(** ** Python strings *)

Module Py.

Definition str := list ascii.

(** A string literal of the source. *)
Definition lit (s : string) : str := list_ascii_of_string s.

Definition code (c : ascii) : nat := nat_of_ascii c.

Definition between (lo hi : nat) (c : ascii) : bool :=
  (lo <=? code c) && (code c <=? hi).

Definition is_digit : ascii -> bool := between 48 57.
Definition is_upper : ascii -> bool := between 65 90.
Definition is_lower : ascii -> bool := between 97 122.
Definition is_alpha (c : ascii) : bool := is_upper c || is_lower c.
Definition is_alnum (c : ascii) : bool := is_alpha c || is_digit c.

(** [\w] of [re] on ASCII text. *)
Definition is_word (c : ascii) : bool := is_alnum c || Ascii.eqb c "_".

(** [str.isspace] and [\s]: TAB, LF, VT, FF, CR, the separators 28..31, SPACE. *)
Definition is_space (c : ascii) : bool := between 9 13 c || between 28 32 c.

Definition to_upper (c : ascii) : ascii :=
  if is_lower c then ascii_of_nat (code c - 32) else c.

Definition to_lower (c : ascii) : ascii :=
  if is_upper c then ascii_of_nat (code c + 32) else c.

(** [s.upper()] *)
Definition upper (s : str) : str := map to_upper s.

(** [bool(s)]: a string is true when it is not empty. *)
Definition truthy (s : str) : bool :=
  match s with [] => false | _ => true end.

(** [s.isdigit()], [s.isalpha()]: every character, and at least one. *)
Definition isdigit (s : str) : bool := truthy s && forallb is_digit s.
Definition isalpha (s : str) : bool := truthy s && forallb is_alpha s.

(** [s[a:b]], [s[:n]], [s[n:]] for non-negative bounds. *)
Definition slice (a b : nat) (s : str) : str := firstn (b - a) (skipn a s).

Definition str_eqb (a b : str) : bool :=
  if list_eq_dec ascii_dec a b then true else false.

(** [s.startswith(p)] *)
Fixpoint startswith (p s : str) : bool :=
  match p, s with
  | [], _ => true
  | a :: p', b :: s' => Ascii.eqb a b && startswith p' s'
  | _ :: _, [] => false
  end.

(** [s.lstrip()], [s.rstrip()], [s.strip()] *)
Fixpoint lstrip (s : str) : str :=
  match s with
  | c :: s' => if is_space c then lstrip s' else s
  | [] => []
  end.

Definition rstrip (s : str) : str := rev (lstrip (rev s)).
Definition strip (s : str) : str := rstrip (lstrip s).

(** [a or b] on strings. *)
Definition ou (a b : str) : str := if truthy a then a else b.

(** [sep.join(parts)] *)
Fixpoint join (sep : str) (parts : list str) : str :=
  match parts with
  | [] => []
  | [p] => p
  | p :: ps => p ++ sep ++ join sep ps
  end.

(** [s.split("\n")] *)
Fixpoint split_nl_aux (acc : str) (s : str) : list str :=
  match s with
  | [] => [rev acc]
  | c :: s' =>
      if Ascii.eqb c "010" then rev acc :: split_nl_aux [] s'
      else split_nl_aux (c :: acc) s'
  end.

Definition split_nl (s : str) : list str := split_nl_aux [] s.

(** [s.splitlines()]: breaks at LF, VT, FF, CR, CR LF and the separators
    28..30; no empty last line. *)
Definition is_linebreak (c : ascii) : bool := between 10 13 c || between 28 30 c.

Fixpoint splitlines_aux (acc : str) (s : str) : list str :=
  match s with
  | [] => match acc with [] => [] | _ => [rev acc] end
  | c :: s' =>
      if is_linebreak c then
        rev acc ::
          (if Ascii.eqb c "013" then
             match s' with
             | d :: s'' =>
                 if Ascii.eqb d "010" then splitlines_aux [] s''
                 else splitlines_aux [] s'
             | [] => splitlines_aux [] s'
             end
           else splitlines_aux [] s')
      else splitlines_aux (c :: acc) s'
  end.

Definition splitlines (s : str) : list str := splitlines_aux [] s.

(** [s.replace(c, "")] for a single character [c]. *)
Definition remove_char (c : ascii) (s : str) : str :=
  filter (fun x => negb (Ascii.eqb x c)) s.

(** [int(s)] for a string of decimal digits. *)
Definition digit_val (c : ascii) : Z := Z.of_nat (code c - 48).

Definition int_of (s : str) : Z :=
  fold_left (fun acc c => (acc * 10 + digit_val c)%Z) s 0%Z.

(** [str(n)] for [0 <= n], most significant digit first. *)
Definition digit_chr (d : Z) : ascii := ascii_of_nat (48 + Z.to_nat d).

Fixpoint str_of_pos_aux (fuel : nat) (n : Z) (acc : str) : str :=
  match fuel with
  | O => acc
  | S f =>
      if (n <? 10)%Z then digit_chr n :: acc
      else str_of_pos_aux f (n / 10)%Z (digit_chr (n mod 10)%Z :: acc)
  end.

Definition str_of_Z (n : Z) : str :=
  str_of_pos_aux (S (Z.to_nat (Z.log2 n))) n [].

(** [f"{n:02d}"] for [0 <= n]: at least two digits, padded with zeros. *)
Definition format_02d (n : Z) : str :=
  let s := str_of_Z n in
  if length s <? 2 then repeat "0"%char (2 - length s) ++ s else s.

End Py.


Import Py.

(* --------------------------------------------------------------------- *)
(** ** Python regular expressions

    The patterns of the sources use literals, character classes, sequence,
    alternation, optional groups, greedy and lazy repetition of a character
    class, bounded repetition of a character class, the word boundary and
    capturing groups.  [exec] is the backtracking matcher of [re]: choices
    are tried in the order of the pattern and the first success wins. *)

Module Re.

Inductive regex : Type :=
| Eps                                        (* empty pattern *)
| Chr (p : ascii -> bool)                    (* one character of a class *)
| Seq (r1 r2 : regex)                        (* r1 r2 *)
| Alt (r1 r2 : regex)                        (* r1|r2 *)
| Opt (r : regex)                            (* (?:r)? *)
| Star (p : ascii -> bool)                   (* [p]* *)
| StarLazy (p : ascii -> bool)               (* [p]*? *)
| Rep (p : ascii -> bool) (lo hi : nat)      (* [p]{lo,hi} *)
| WordB                                      (* \b *)
| Group (n : nat) (r : regex).               (* ( r ), group number n *)

(** Captured groups, most recent first. *)
Definition caps := list (nat * str).

Fixpoint group (n : nat) (cs : caps) : str :=
  match cs with
  | [] => []
  | (m, s) :: cs' => if Nat.eqb m n then s else group n cs'
  end.

(** Character classes. *)
Definition one (c : ascii) : ascii -> bool := fun x => Ascii.eqb x c.
Definition any_of (s : str) : ascii -> bool := fun x => existsb (Ascii.eqb x) s.
Definition any_char : ascii -> bool := fun _ => true.
Definition non (p : ascii -> bool) : ascii -> bool := fun x => negb (p x).
Definition either (p q : ascii -> bool) : ascii -> bool := fun x => p x || q x.

(** A class under the flag [(?i)]. *)
Definition icase (p : ascii -> bool) : ascii -> bool :=
  fun x => p x || p (to_upper x) || p (to_lower x).

(** A literal word, and the same under [(?i)]. *)
Fixpoint Lit (s : str) : regex :=
  match s with
  | [] => Eps
  | c :: s' => Seq (Chr (one c)) (Lit s')
  end.

Fixpoint LitI (s : str) : regex :=
  match s with
  | [] => Eps
  | c :: s' => Seq (Chr (icase (one c))) (LitI s')
  end.

(** [r1 r2 ... rn] *)
Fixpoint Cat (rs : list regex) : regex :=
  match rs with
  | [] => Eps
  | [r] => r
  | r :: rs' => Seq r (Cat rs')
  end.

(** [\b] holds between a word character and a non-word character or an
    end of the text. *)
Definition word_before (prev : option ascii) : bool :=
  match prev with Some c => is_word c | None => false end.

Definition word_after (s : str) : bool :=
  match s with c :: _ => is_word c | [] => false end.

Definition word_boundary (prev : option ascii) (s : str) : bool :=
  xorb (word_before prev) (word_after s).

Section Matcher.

Variable A : Type.

(** Greedy star: as many characters as possible, giving back one at a time. *)
Fixpoint star_greedy (p : ascii -> bool) (prev : option ascii) (s : str)
    (k : option ascii -> str -> option A) : option A :=
  match s with
  | c :: s' =>
      if p c then
        match star_greedy p (Some c) s' k with
        | Some x => Some x
        | None => k prev s
        end
      else k prev s
  | [] => k prev s
  end.

(** Lazy star: as few characters as possible, taking one more at a time. *)
Fixpoint star_lazy (p : ascii -> bool) (prev : option ascii) (s : str)
    (k : option ascii -> str -> option A) : option A :=
  match k prev s with
  | Some x => Some x
  | None =>
      match s with
      | c :: s' => if p c then star_lazy p (Some c) s' k else None
      | [] => None
      end
  end.

(** Greedy bounded repetition [{lo,hi}]. *)
Fixpoint rep_greedy (p : ascii -> bool) (lo hi : nat) (prev : option ascii)
    (s : str) (k : option ascii -> str -> option A) {struct s} : option A :=
  let stop := if Nat.eqb lo 0 then k prev s else None in
  match hi with
  | O => stop
  | S hi' =>
      match s with
      | c :: s' =>
          if p c then
            match rep_greedy p (pred lo) hi' (Some c) s' k with
            | Some x => Some x
            | None => stop
            end
          else stop
      | [] => stop
      end
  end.

(** The matcher, in continuation-passing style: [k] receives the character
    before the position reached, the text that remains and the groups. *)
Fixpoint exec (r : regex) (prev : option ascii) (s : str) (cs : caps)
    (k : option ascii -> str -> caps -> option A) : option A :=
  match r with
  | Eps => k prev s cs
  | Chr p =>
      match s with
      | c :: s' => if p c then k (Some c) s' cs else None
      | [] => None
      end
  | Seq r1 r2 => exec r1 prev s cs (fun pv s' cs' => exec r2 pv s' cs' k)
  | Alt r1 r2 =>
      match exec r1 prev s cs k with
      | Some x => Some x
      | None => exec r2 prev s cs k
      end
  | Opt r1 =>
      match exec r1 prev s cs k with
      | Some x => Some x
      | None => k prev s cs
      end
  | Star p => star_greedy p prev s (fun pv s' => k pv s' cs)
  | StarLazy p => star_lazy p prev s (fun pv s' => k pv s' cs)
  | Rep p lo hi => rep_greedy p lo hi prev s (fun pv s' => k pv s' cs)
  | WordB => if word_boundary prev s then k prev s cs else None
  | Group n r1 =>
      exec r1 prev s cs
        (fun pv s' cs' => k pv s' ((n, firstn (length s - length s') s) :: cs'))
  end.

End Matcher.

(** A match: the matched text (group 0) and the groups. *)
Definition found := (str * caps)%type.

Definition accept (s : str) : option ascii -> str -> caps -> option found :=
  fun _ s' cs => Some (firstn (length s - length s') s, cs).

(** A match of [r] that starts at the head of [s]; [prev] is the character
    before it. *)
Definition match_here (r : regex) (prev : option ascii) (s : str) : option found :=
  exec r prev s [] (accept s).

(** [re.search]: the match at the leftmost position that has one. *)
Fixpoint search_from (r : regex) (prev : option ascii) (s : str) : option found :=
  match match_here r prev s with
  | Some m => Some m
  | None =>
      match s with
      | [] => None
      | c :: s' => search_from r (Some c) s'
      end
  end.

Definition search (r : regex) (s : str) : option found := search_from r None s.

(** [re.finditer]: the matches from left to right, without overlap; after a
    match the scan resumes where it ended, after an empty match one
    character further. [skip] counts the characters of the last match that
    are still to be passed. *)
Fixpoint finditer_from (r : regex) (prev : option ascii) (s : str) (skip : nat)
    : list found :=
  match skip with
  | S n =>
      match s with
      | [] => []
      | c :: s' => finditer_from r (Some c) s' n
      end
  | O =>
      match match_here r prev s with
      | Some m =>
          m :: match s with
               | [] => []
               | c :: s' => finditer_from r (Some c) s' (pred (length (fst m)))
               end
      | None =>
          match s with
          | [] => []
          | c :: s' => finditer_from r (Some c) s' 0
          end
      end
  end.

Definition finditer (r : regex) (s : str) : list found := finditer_from r None s 0.

(** [re.findall] for a pattern without capturing group: the matched texts. *)
Definition findall (r : regex) (s : str) : list str := map fst (finditer r s).

(** What a match is, apart from the order of the choices and from the
    context [\b] looks at: [sem r m cs cs'] says that the text [m] has the
    shape of [r] and that matching it turns the groups [cs] into [cs']. *)
Fixpoint sem (r : regex) (m : str) (cs cs' : caps) : Prop :=
  match r with
  | Eps => m = [] /\ cs' = cs
  | Chr p => exists c, m = [c] /\ p c = true /\ cs' = cs
  | Seq r1 r2 =>
      exists m1 m2 c1, m = m1 ++ m2 /\ sem r1 m1 cs c1 /\ sem r2 m2 c1 cs'
  | Alt r1 r2 => sem r1 m cs cs' \/ sem r2 m cs cs'
  | Opt r1 => sem r1 m cs cs' \/ (m = [] /\ cs' = cs)
  | Star p => forallb p m = true /\ cs' = cs
  | StarLazy p => forallb p m = true /\ cs' = cs
  | Rep p lo hi => forallb p m = true /\ lo <= length m <= hi /\ cs' = cs
  | WordB => m = [] /\ cs' = cs
  | Group n r1 => exists c1, sem r1 m cs c1 /\ cs' = (n, m) :: c1
  end.

(** Patterns without [\b]: their matches do not depend on the context. *)
Fixpoint sans_frontiere (r : regex) : bool :=
  match r with
  | Eps | Chr _ | Star _ | StarLazy _ | Rep _ _ _ => true
  | Seq r1 r2 | Alt r1 r2 => sans_frontiere r1 && sans_frontiere r2
  | Opt r1 | Group _ r1 => sans_frontiere r1
  | WordB => false
  end.

End Re.

Import Re.

(* --------------------------------------------------------------------- *)
(** ** The IBAN library

    The sources import [stdnum.iban] as [iban_lib]; the library is not part
    of the repository. *)

Module iban_lib.

(** Modelled from the spec: [iban_lib.compact], the step that brings an
    IBAN written in blocks back to one block.  The library removes the
    separators of IBAN presentation (space, hyphen, period), strips the
    surrounding blanks and puts the text in upper case. *)
Definition compact (number : str) : str :=
  upper (strip (filter (non (any_of (lit " -."))) number)).

(** Value of a character as a base-36 digit: 0..9, then A=10 .. Z=35. *)
Definition base36 (c : ascii) : option Z :=
  if is_digit c then Some (digit_val c)
  else if is_upper c then Some (Z.of_nat (code c) - 55)%Z
  else if is_lower c then Some (Z.of_nat (code c) - 87)%Z
  else None.

(** Letters converted to digits, A=10 .. Z=35; [None] on any other
    character. *)
Fixpoint to_base10 (s : str) : option str :=
  match s with
  | [] => Some []
  | c :: s' =>
      match base36 c, to_base10 s' with
      | Some v, Some t => Some (str_of_Z v ++ t)
      | _, _ => None
      end
  end.

(** Modelled from the spec: [iban_lib.is_valid], the mod-97 checksum of
    section 4.2: move the 4 leading characters to the end, convert letters
    to digits A=10..Z=35, the resulting decimal number mod 97 must equal 1. *)
Definition is_valid (number : str) : bool :=
  let n := compact number in
  match to_base10 (skipn 4 n ++ firstn 4 n) with
  | Some d => truthy d && (int_of d mod 97 =? 1)%Z
  | None => false
  end.

(** One space before every fifth character. *)
Fixpoint group4 (k : nat) (s : str) : str :=
  match s with
  | [] => []
  | c :: s' =>
      match k with
      | O => " "%char :: c :: group4 3 s'
      | S k' => c :: group4 k' s'
      end
  end.

(** Modelled from the spec: [iban_lib.format], the compact number in
    4-character groups separated by single spaces. *)
Definition format (number : str) : str := group4 4 (compact number).

(** Modelled from the spec: [iban_lib.from_bban], the standard
    IBAN-from-BBAN algorithm of section 4.2: form country code + "00" + BBAN,
    compute the check digits by mod-97 over the rearranged numeral (98 minus
    the remainder, on two digits) and put them in positions 3-4.  [None]
    stands for the exception raised on a BBAN that is not alphanumeric. *)
Definition from_bban (cc bban : str) : option str :=
  match to_base10 (bban ++ cc ++ lit "00") with
  | Some d => Some (cc ++ format_02d (98 - int_of d mod 97)%Z ++ bban)
  | None => None
  end.

End iban_lib.

(* --------------------------------------------------------------------- *)
(** ** src/utils.py *)

Module Utils.

Definition upper_or_digit : ascii -> bool := either is_upper is_digit.

(** [(?i)\b(code\s*banque|banque|code\s*bq)\b\D*([0-9]{5})] *)
Definition PAT_CODE_BANQUE : regex :=
  Cat [ WordB;
        Group 1 (Alt (Cat [LitI (lit "code"); Star is_space; LitI (lit "banque")])
                (Alt (LitI (lit "banque"))
                     (Cat [LitI (lit "code"); Star is_space; LitI (lit "bq")])));
        WordB; Star (non is_digit); Group 2 (Rep is_digit 5 5) ].

(** [(?i)\b(code\s*guichet|guichet)\b\D*([0-9]{5})] *)
Definition PAT_CODE_GUICHET : regex :=
  Cat [ WordB;
        Group 1 (Alt (Cat [LitI (lit "code"); Star is_space; LitI (lit "guichet")])
                     (LitI (lit "guichet")));
        WordB; Star (non is_digit); Group 2 (Rep is_digit 5 5) ].

(** [(?i)\b(num(?:[ée]ro)?\s*de\s*compte|n[°\s]*compte|compte)\b\D*([A-Z0-9]{5,34})];
    of the classes [[ée]] and [[°\s]] the ASCII members are kept. *)
Definition PAT_NUM_COMPTE : regex :=
  Cat [ WordB;
        Group 1
          (Alt (Cat [LitI (lit "num");
                     Opt (Cat [Chr (icase (one "e")); LitI (lit "ro")]);
                     Star is_space; LitI (lit "de"); Star is_space;
                     LitI (lit "compte")])
          (Alt (Cat [LitI (lit "n"); Star is_space; LitI (lit "compte")])
               (LitI (lit "compte"))));
        WordB; Star (non is_digit);
        Group 2 (Rep (icase upper_or_digit) 5 34) ].

(** [(?i)\b(cl[ée]\s*rib|cl[ée])\b\D*([0-9]{2})] *)
Definition PAT_CLE_RIB : regex :=
  Cat [ WordB;
        Group 1 (Alt (Cat [LitI (lit "cl"); Chr (icase (one "e")); Star is_space;
                           LitI (lit "rib")])
                     (Cat [LitI (lit "cl"); Chr (icase (one "e"))]));
        WordB; Star (non is_digit); Group 2 (Rep is_digit 2 2) ].

(** [FR\d{2}[A-Z0-9]{23}] *)
Definition PAT_IBAN_FR_COMPACT : regex :=
  Cat [ Lit (lit "FR"); Rep is_digit 2 2; Rep upper_or_digit 23 23 ].

(** Noise tolerated between the letters of a label: [[\.\s]*]. *)
Definition dots : regex := Star (either (one ".") is_space).

(** [S[\.\s]*W[\.\s]*I[\.\s]*F[\.\s]*T] under [(?i)] *)
Definition SWIFT_spaced : regex :=
  Cat [ LitI (lit "S"); dots; LitI (lit "W"); dots; LitI (lit "I"); dots;
        LitI (lit "F"); dots; LitI (lit "T") ].

(** [B[\.\s]*I[\.\s]*C] under [(?i)] *)
Definition BIC_spaced : regex :=
  Cat [ LitI (lit "B"); dots; LitI (lit "I"); dots; LitI (lit "C") ].

(** [(?:\s*CODE)?] under [(?i)] *)
Definition opt_CODE : regex := Opt (Seq (Star is_space) (LitI (lit "CODE"))).

(** The label pattern, compiled with [re.VERBOSE]:
    [(?i)\b( B[\.\s]*I[\.\s]*C(?:[\s\./:-]*S..W..I..F..T(?:\s*CODE)?)?
           | S..W..I..F..T(?:\s*CODE)? | CODE\s*B..I..C | ADRESSE\s*S..W..I..F..T )\b] *)
Definition PAT_BIC : regex :=
  Cat [ WordB;
        Group 1
          (Alt (Cat [BIC_spaced;
                     Opt (Cat [Star (either is_space (any_of (lit "./:-")));
                               SWIFT_spaced; opt_CODE])])
          (Alt (Cat [SWIFT_spaced; opt_CODE])
          (Alt (Cat [LitI (lit "CODE"); Star is_space; BIC_spaced])
               (Cat [LitI (lit "ADRESSE"); Star is_space; SWIFT_spaced]))));
        WordB ].

(** The binding of [PAT_BIC_CODE] in force when the functions run (the second
    assignment of the module): [\b[A-Z]{4}[A-Z]{2}[A-Z0-9]{2}(?:[A-Z0-9]{3})?\b] *)
Definition PAT_BIC_CODE : regex :=
  Cat [ WordB; Rep is_upper 4 4; Rep is_upper 2 2; Rep upper_or_digit 2 2;
        Opt (Rep upper_or_digit 3 3); WordB ].

(** [re.sub(r'[ \t]+', ' ', texte)]: [blank] tells that the previous
    character belonged to a run already replaced. *)
Fixpoint collapse_blanks (blank : bool) (s : str) : str :=
  match s with
  | [] => []
  | c :: s' =>
      if either (one " ") (one "009") c
      then (if blank then collapse_blanks true s'
            else " "%char :: collapse_blanks true s')
      else c :: collapse_blanks false s'
  end.

Definition nettoyer (texte : str) : str :=
  collapse_blanks false (remove_char "013" texte).

(** [re.sub(r'[^A-Za-z0-9]', '', texte)] *)
Definition compacter (texte : str) : str := filter is_alnum texte.

(** Iteration over [set(l)]: the order of a Python set of strings follows
    the hash of the process, which is any function [h]. *)
Fixpoint insert_by (h : str -> nat) (x : str) (l : list str) : list str :=
  match l with
  | [] => [x]
  | y :: l' => if h x <=? h y then x :: l else y :: insert_by h x l'
  end.

Definition set_iter (h : str -> nat) (l : list str) : list str :=
  fold_right (insert_by h) [] (nodup (list_eq_dec ascii_dec) l).

(** [(?i)\bIBAN\b\s*[:\-]?\s*([A-Z0-9 ]{8,50})] *)
Definition PAT_IBAN_LABEL : regex :=
  Cat [ WordB; LitI (lit "IBAN"); WordB; Star is_space;
        Opt (Chr (any_of (lit ":-"))); Star is_space;
        Group 1 (Rep (icase (either upper_or_digit (one " "))) 8 50) ].

(** The second loop of [extraire_iban_valide], over the labelled matches. *)
Fixpoint iban_par_label (ms : list found) : str :=
  match ms with
  | [] => []
  | m :: ms' =>
      let extrait := upper (compacter (group 1 (snd m))) in
      if startswith (lit "FR") extrait && (27 <=? length extrait) then
        let extrait := firstn 27 extrait in
        if iban_lib.is_valid extrait then iban_lib.format extrait
        else iban_par_label ms'
      else iban_par_label ms'
  end.

Definition extraire_iban_valide (h : str -> nat) (t : str) : str :=
  let compact := upper (compacter t) in
  match find iban_lib.is_valid (set_iter h (findall PAT_IBAN_FR_COMPACT compact)) with
  | Some cand => iban_lib.format cand
  | None => iban_par_label (finditer PAT_IBAN_LABEL t)
  end.

Definition absent4 : str * str * str * str := ([], [], [], []).

Definition decomposer_iban_fr (iban : str) : str * str * str * str :=
  if negb (truthy iban) then absent4
  else
    let c := upper (iban_lib.compact iban) in
    if negb (startswith (lit "FR") c && iban_lib.is_valid c) then absent4
    else
      let bban := skipn 4 c in
      (firstn 5 bban, slice 5 10 bban, slice 10 21 bban, slice 21 23 bban).

Definition lettres_vers_nombres (s : str) : str :=
  flat_map
    (fun ch =>
       if is_digit ch then [ch]
       else if is_upper ch then str_of_Z (10 + Z.of_nat (code ch) - 65)%Z
       else [])
    (upper s).

(** The [try] around [int(base)] guards the conversion.  On ASCII digits
    it can only fail where the interpreter limits the length of a numeral
    (4300 digits by default in recent versions), and the code then returns
    the empty string.  This limit is not modelled: the statements that
    promise a key bound the length of [base]. *)
Definition calculer_cle_rib (cb cg nc : str) : str :=
  if negb (truthy cb && truthy cg && truthy nc) then []
  else
    let base := cb ++ cg ++ lettres_vers_nombres nc in
    if negb (isdigit base) then []
    else
      let cle := (97 - int_of base mod 97)%Z in
      format_02d cle.

Definition construire_iban_fr (cb cg nc cle : str) : str :=
  if negb (forallb truthy [cb; cg; nc; cle]) then []
  else
    let bban := cb ++ cg ++ nc ++ cle in
    match iban_lib.from_bban (lit "FR") bban with
    | Some iban => if iban_lib.is_valid iban then iban_lib.format iban else []
    | None => []
    end.

(** [bic_lib] is the optional validator loaded at import time
    ([stdnum.swiftbic], [stdnum.bic] or nothing); an exception of its
    [is_valid] counts as a refusal. *)
Definition valider_normaliser_bic (bic_lib : option (str -> bool)) (raw : str) : str :=
  if negb (truthy raw) then []
  else
    let bic := filter is_alnum (upper raw) in
    if negb ((length bic =? 8) || (length bic =? 11)) then []
    else if negb (isalpha (firstn 4 bic) && isalpha (slice 4 6 bic)) then []
    else if negb (str_eqb (slice 4 6 bic) (lit "FR")) then []
    else
      match bic_lib with
      | Some lib_is_valid => if lib_is_valid bic then bic else []
      | None => bic
      end.

(** [for cand in candidats: bic = valider_normaliser_bic(cand); if bic: return bic];
    the empty result means that the loop ended without a return. *)
Fixpoint premier_valide (bic_lib : option (str -> bool)) (candidats : list str) : str :=
  match candidats with
  | [] => []
  | cand :: rest =>
      let bic := valider_normaliser_bic bic_lib cand in
      if truthy bic then bic else premier_valide bic_lib rest
  end.

(** The loop over the lines; [lignes] is [lignes[i:]] of the source. *)
Fixpoint bic_par_label (bic_lib : option (str -> bool)) (lignes : list str) : str :=
  match lignes with
  | [] => []
  | ligne :: suite =>
      match search PAT_BIC ligne with
      | Some _ =>
          let fenetre := upper (join ["010"%char] (firstn 6 lignes)) in
          let compact := filter upper_or_digit fenetre in
          let bic := premier_valide bic_lib (findall PAT_BIC_CODE compact) in
          if truthy bic then bic
          else
            let bic := premier_valide bic_lib (findall PAT_BIC_CODE fenetre) in
            if truthy bic then bic else bic_par_label bic_lib suite
      | None => bic_par_label bic_lib suite
      end
  end.

Definition extraire_bic_valide (bic_lib : option (str -> bool)) (texte : str) : str :=
  let lignes := splitlines texte in
  let bic := bic_par_label bic_lib lignes in
  if truthy bic then bic
  else
    let texte_up := upper texte in
    let compact_global := filter upper_or_digit texte_up in
    premier_valide bic_lib (findall PAT_BIC_CODE compact_global).

(** The four coded fields of [extraire_par_libelles]. *)
Definition champ (pat : regex) (t : str) : str :=
  match search pat t with
  | Some m => group 2 (snd m)
  | None => []
  end.

Record libelles : Type := {
  lb_cb : str; lb_cg : str; lb_nc : str; lb_cle : str;
  lb_tit : str; lb_dom : str
}.

Section Libelles.

(** [extraire_titulaire] and [extraire_domiciliation] search accented
    labels and free text, which the ASCII model of text does not cover.
    Nothing below depends on what they return: they are parameters. *)
Variables extraire_titulaire extraire_domiciliation : str -> str.

Definition extraire_par_libelles (t : str) : libelles :=
  let cb := champ PAT_CODE_BANQUE t in
  let cg := champ PAT_CODE_GUICHET t in
  let nc := remove_char " " (champ PAT_NUM_COMPTE t) in
  let cle := champ PAT_CLE_RIB t in
  let tit := extraire_titulaire t in
  let dom := extraire_domiciliation t in
  let nc := filter upper_or_digit (upper nc) in
  {| lb_cb := cb; lb_cg := cg; lb_nc := nc; lb_cle := cle;
     lb_tit := tit; lb_dom := dom |}.

End Libelles.

(** [nettoyer_bic_ocr] of this module: a cleaned text shorter than 8
    characters is returned as it is. *)
Definition nettoyer_bic_ocr (chunk : str) : str :=
  if negb (truthy chunk) then []
  else
    let bic := upper (filter is_alnum chunk) in
    if 11 <=? length bic then firstn 11 bic
    else if 8 <=? length bic then firstn 8 bic
    else bic.

(** The class of the holder's name,
    [[A-ZÉÈÊÀÂÎÏÔÙÜÇa-z0-9\.\'\-\s]], of which the ASCII members are kept. *)
Definition classe_nom : ascii -> bool :=
  either is_alnum (either (any_of (lit ".'-")) is_space).

(** [\s+] *)
Definition blancs1 : regex := Seq (Chr is_space) (Star is_space).

(** [(?i)\b(titulaire(?:\s*du\s*compte)?|nom\s+du\s+titul(?:aire)?|b[ée]n[ée]ficiaire|au\s*nom\s*de)\b\s*[:\-]?\s*([A-ZÉÈÊÀÂÎÏÔÙÜÇa-z0-9\.\'\-\s]+)] *)
Definition PAT_TITULAIRE : regex :=
  Cat [ WordB;
        Group 1
          (Alt (Cat [LitI (lit "titulaire");
                     Opt (Cat [Star is_space; LitI (lit "du"); Star is_space;
                               LitI (lit "compte")])])
          (Alt (Cat [LitI (lit "nom"); blancs1; LitI (lit "du"); blancs1;
                     LitI (lit "titul"); Opt (LitI (lit "aire"))])
          (Alt (Cat [LitI (lit "b"); Chr (icase (one "e")); LitI (lit "n");
                     Chr (icase (one "e")); LitI (lit "ficiaire")])
               (Cat [LitI (lit "au"); Star is_space; LitI (lit "nom");
                     Star is_space; LitI (lit "de")]))));
        WordB; Star is_space; Opt (Chr (any_of (lit ":-"))); Star is_space;
        Group 2 (Seq (Chr (icase classe_nom)) (Star (icase classe_nom))) ].

(** [\b(BIC|IBAN|DOMICILIATION)\b] with [re.I] *)
Definition PAT_MOT_RUBRIQUE : regex :=
  Cat [ WordB;
        Group 1 (Alt (LitI (lit "BIC"))
                (Alt (LitI (lit "IBAN")) (LitI (lit "DOMICILIATION"))));
        WordB ].

(** [\b(M\.|MME|MONSIEUR|MADAME|SARL|SAS|SA|EURL|SOCIETE)\b] with [re.I] *)
Definition PAT_CIVILITE : regex :=
  Cat [ WordB;
        Group 1 (Alt (LitI (lit "M."))
                (Alt (LitI (lit "MME"))
                (Alt (LitI (lit "MONSIEUR"))
                (Alt (LitI (lit "MADAME"))
                (Alt (LitI (lit "SARL"))
                (Alt (LitI (lit "SAS"))
                (Alt (LitI (lit "SA"))
                (Alt (LitI (lit "EURL")) (LitI (lit "SOCIETE"))))))))));
        WordB ].

(** The second loop of [extraire_titulaire]: the first line with a civility
    or a legal form. *)
Fixpoint titulaire_par_civilite (lignes : list str) : str :=
  match lignes with
  | [] => []
  | l :: suite =>
      match search PAT_CIVILITE l with
      | Some _ => strip l
      | None => titulaire_par_civilite suite
      end
  end.

Definition extraire_titulaire (t : str) : str :=
  let repli := titulaire_par_civilite (split_nl t) in
  match search PAT_TITULAIRE t with
  | Some m =>
      let val := strip (hd [] (split_nl (strip (group 2 (snd m))))) in
      if (3 <? length val)
         && negb (match search PAT_MOT_RUBRIQUE val with Some _ => true | None => false end)
      then val
      else repli
  | None => repli
  end.

(** [(?i)\b(domiciliation|agence|adresse)\b], and the same followed by
    [[:\-\s]*] and a group that takes the rest of the line. *)
Definition mot_domiciliation : regex :=
  Group 1 (Alt (LitI (lit "domiciliation"))
          (Alt (LitI (lit "agence")) (LitI (lit "adresse")))).

Definition PAT_DOMICILIATION_MOT : regex := Cat [ WordB; mot_domiciliation; WordB ].

Definition PAT_DOMICILIATION_SUITE : regex :=
  Cat [ WordB; mot_domiciliation; WordB;
        Star (either (any_of (lit ":-")) is_space);
        Group 2 (Star (non (one "010"))) ].

(** [(?i)\b(BIC|IBAN|TITULAIRE|COMPTE|CODE BANQUE|CLE RIB|CLÉ RIB|RIB)\b];
    the accented alternative cannot match ASCII text. *)
Definition PAT_RUBRIQUE : regex :=
  Cat [ WordB;
        Group 1 (Alt (LitI (lit "BIC"))
                (Alt (LitI (lit "IBAN"))
                (Alt (LitI (lit "TITULAIRE"))
                (Alt (LitI (lit "COMPTE"))
                (Alt (LitI (lit "CODE BANQUE"))
                (Alt (LitI (lit "CLE RIB")) (LitI (lit "RIB"))))))));
        WordB ].

(** The inner loop of [extraire_domiciliation]: the lines that follow, up
    to a line with a field label or a line of less than 3 characters. *)
Fixpoint suite_domiciliation (lignes : list str) : list str :=
  match lignes with
  | [] => []
  | nextline :: suite =>
      match search PAT_RUBRIQUE nextline with
      | Some _ => []
      | None =>
          if length nextline <? 3 then []
          else nextline :: suite_domiciliation suite
      end
  end.

(** The outer loop; [lignes] is [lignes[i:]] of the source. *)
Fixpoint domiciliation_depuis (lignes : list str) : str :=
  match lignes with
  | [] => []
  | l :: suite =>
      match search PAT_DOMICILIATION_MOT l with
      | Some _ =>
          let after :=
            match search PAT_DOMICILIATION_SUITE l with
            | Some m => strip (group 2 (snd m))
            | None => []
            end in
          let contenu :=
            (if truthy after then [after] else []) ++ suite_domiciliation suite in
          strip (join [" "%char] contenu)
      | None => domiciliation_depuis suite
      end
  end.

(** [extraire_domiciliation] of this module (src/rib_extractor.py has a
    longer one). *)
Definition extraire_domiciliation (t : str) : str :=
  let lignes := map strip (filter (fun l => truthy (strip l)) (split_nl t)) in
  domiciliation_depuis lignes.

End Utils.

(** The values of the variables [cb], [cg], [nc], [cle], [iban] of a main
    loop (src/rib_extractor.py, src/app_with_ocr.py) once the merge and the
    gap filling are done. *)
Record reconcilie : Type := {
  r_cb : str; r_cg : str; r_nc : str; r_cle : str; r_iban : str
}.

(* --------------------------------------------------------------------- *)
(** ** src/rib_extractor.py

    [nettoyer], [compacter], [extraire_iban_valide], [decomposer_iban_fr],
    [lettres_vers_nombres], [calculer_cle_rib], [construire_iban_fr],
    [extraire_par_libelles] and the patterns of the coded fields have the
    same text as in src/utils.py and are taken from [Utils]. *)

Module RibExtractor.

Import Utils.

(** The label pattern of this module has no word boundary and spells SWIFT
    without noise in its second branch:
    [(?i) B[\.\s]*I[\.\s]*C(?:[\s\./:-]*S..W..I..F..T(?:\s*CODE)?)?
        | SWIFT(?:\s*CODE)? | CODE\s*B..I..C | ADRESSE\s*S..W..I..F..T] *)
Definition PAT_BIC : regex :=
  Alt (Cat [BIC_spaced;
            Opt (Cat [Star (either is_space (any_of (lit "./:-")));
                      SWIFT_spaced; opt_CODE])])
 (Alt (Cat [LitI (lit "SWIFT"); opt_CODE])
 (Alt (Cat [LitI (lit "CODE"); Star is_space; BIC_spaced])
      (Cat [LitI (lit "ADRESSE"); Star is_space; SWIFT_spaced]))).

(** [\b[A-Z]{4}[A-Z]{2}[A-Z0-9]{2}(?:[A-Z0-9]{3})?\b] *)
Definition PAT_BIC_CODE : regex := Utils.PAT_BIC_CODE.

(** [len(bic) in (8, 11) and bic[:4].isalpha() and bic[4:6].isalpha()] *)
Definition structure_ok (bic : str) : bool :=
  ((length bic =? 8) || (length bic =? 11))
  && isalpha (firstn 4 bic) && isalpha (slice 4 6 bic).

(** [bic in ["PARIS", "BOULOGNE", "FRANCE"]] *)
Definition mot_adresse (bic : str) : bool :=
  existsb (str_eqb bic) [lit "PARIS"; lit "BOULOGNE"; lit "FRANCE"].

(** The loop over the candidates of one line.  Whatever the optional
    validator answers, the statement after it returns the candidate. *)
Fixpoint bic_dans_candidats (bic_lib : option (str -> bool)) (candidats : list str)
    : option str :=
  match candidats with
  | [] => None
  | bic :: rest =>
      if structure_ok bic then
        if mot_adresse bic then bic_dans_candidats bic_lib rest
        else
          match bic_lib with
          | Some lib_is_valid => if lib_is_valid bic then Some bic else Some bic
          | None => Some bic
          end
      else bic_dans_candidats bic_lib rest
  end.

(** [for j in range(idx, min(idx + 6, total))] over [lignes[j].upper()]. *)
Fixpoint bic_dans_fenetre (bic_lib : option (str -> bool)) (fenetre : list str)
    : option str :=
  match fenetre with
  | [] => None
  | l :: rest =>
      match bic_dans_candidats bic_lib (findall PAT_BIC_CODE (upper l)) with
      | Some bic => Some bic
      | None => bic_dans_fenetre bic_lib rest
      end
  end.

(** The loop over the lines; [lignes] is [lignes[idx:]] of the source. *)
Fixpoint bic_par_label (bic_lib : option (str -> bool)) (lignes : list str)
    : option str :=
  match lignes with
  | [] => None
  | ligne :: suite =>
      match search PAT_BIC ligne with
      | Some _ =>
          match bic_dans_fenetre bic_lib (firstn 6 lignes) with
          | Some bic => Some bic
          | None => bic_par_label bic_lib suite
          end
      | None => bic_par_label bic_lib suite
      end
  end.

(** [for bic in candidats: if len(bic) in (8, 11): return bic] *)
Definition bic_brut (candidats : list str) : str :=
  match find (fun bic => (length bic =? 8) || (length bic =? 11)) candidats with
  | Some bic => bic
  | None => []
  end.

Definition extraire_bic_valide (bic_lib : option (str -> bool)) (texte : str) : str :=
  let lignes := split_nl texte in
  match bic_par_label bic_lib lignes with
  | Some bic => bic
  | None => bic_brut (findall PAT_BIC_CODE (upper texte))
  end.

Definition MANQUANT : str := lit "MANQUANT".

(** [def nz(v): return v if v else "MANQUANT"] *)
Definition nz (v : str) : str := if truthy v then v else MANQUANT.

(** One row of the CSV file. *)
Record ligne_csv : Type := {
  Fichier : str;
  Titulaire_du_compte : str;
  Code_Banque : str;
  Code_Guichet : str;
  No_de_compte : str;
  Cle_RIB : str;
  BIC_SWIFT : str;
  IBAN : str;
  Domiciliation : str
}.

Section Boucle.

Variable h : str -> nat.
Variable bic_lib : option (str -> bool).
Variables extraire_titulaire extraire_domiciliation : str -> str.

(** The body of the main loop from [iban = extraire_iban_valide(tclean)] to
    the reconstruction of the key and of the IBAN. *)
Definition reconcilier (tclean : str) : reconcilie :=
  let iban := extraire_iban_valide h tclean in
  let '(cb, cg, nc, cle) :=
    if truthy iban then decomposer_iban_fr iban else absent4 in
  let lb := extraire_par_libelles extraire_titulaire extraire_domiciliation tclean in
  let cb := ou cb (lb_cb lb) in
  let cg := ou cg (lb_cg lb) in
  let nc := ou nc (lb_nc lb) in
  let cle := ou cle (lb_cle lb) in
  let cle :=
    if negb (truthy cle) && forallb truthy [cb; cg; nc]
    then calculer_cle_rib cb cg nc else cle in
  let iban :=
    if negb (truthy iban) && forallb truthy [cb; cg; nc; cle]
    then construire_iban_fr cb cg nc cle else iban in
  {| r_cb := cb; r_cg := cg; r_nc := nc; r_cle := cle; r_iban := iban |}.

(** One turn of the main loop: [texte] is the text returned by the OCR. *)
Definition traiter (fichier texte : str) : ligne_csv :=
  let tclean := nettoyer texte in
  let r := reconcilier tclean in
  let lb := extraire_par_libelles extraire_titulaire extraire_domiciliation tclean in
  let tit := ou (lb_tit lb) (extraire_titulaire texte) in
  let dom := ou (lb_dom lb) (extraire_domiciliation texte) in
  let bic := extraire_bic_valide bic_lib tclean in
  let quote (v : str) : str := "'"%char :: nz v in
  {| Fichier := fichier;
     Titulaire_du_compte := nz tit;
     Code_Banque := quote (r_cb r);
     Code_Guichet := quote (r_cg r);
     No_de_compte := quote (r_nc r);
     Cle_RIB := quote (r_cle r);
     BIC_SWIFT := nz bic;
     IBAN := nz (r_iban r);
     Domiciliation := nz dom |}.

End Boucle.

(** [nettoyer_bic_ocr] of this module: a cleaned text shorter than 8
    characters gives the empty string. *)
Definition nettoyer_bic_ocr (chunk : str) : str :=
  if negb (truthy chunk) then []
  else
    let bic := upper (filter is_alnum chunk) in
    if 11 <=? length bic then firstn 11 bic
    else if 8 <=? length bic then firstn 8 bic
    else [].

End RibExtractor.

(* --------------------------------------------------------------------- *)
(** ** src/app_with_ocr.py *)

Module AppWithOcr.

Import Utils.

Definition MANQUANT : str := lit "MANQUANT".

(** [nz(v)]: [v] unless it is blank. *)
Definition nz (v : str) : str :=
  if truthy (strip v) then v else MANQUANT.

Record ligne : Type := {
  Fichier : str;
  Statut : str;
  Titulaire_du_compte : str;
  Code_Banque : str;
  Code_Guichet : str;
  No_de_compte : str;
  Cle_RIB : str;
  BIC_SWIFT : str;
  IBAN : str;
  Domiciliation : str
}.

Section Boucle.

Variable h : str -> nat.
Variable bic_lib : option (str -> bool).
Variables extraire_titulaire extraire_domiciliation : str -> str.

(** Step 3 and step 4 of the loop body: the values of [cb], [cg], [nc],
    [cle], [iban] after the merge and the gap filling. *)
Definition reconcilier (tclean : str) : reconcilie :=
  let iban := extraire_iban_valide h tclean in
  let '(cb, cg, nc, cle) :=
    if truthy iban then decomposer_iban_fr iban else absent4 in
  let lb := extraire_par_libelles extraire_titulaire extraire_domiciliation tclean in
  let cb := ou cb (lb_cb lb) in
  let cg := ou cg (lb_cg lb) in
  let nc := ou nc (lb_nc lb) in
  let cle := ou cle (lb_cle lb) in
  let cle :=
    if negb (truthy cle) && forallb truthy [cb; cg; nc]
    then calculer_cle_rib cb cg nc else cle in
  let iban :=
    if negb (truthy iban) && forallb truthy [cb; cg; nc; cle]
    then construire_iban_fr cb cg nc cle else iban in
  {| r_cb := cb; r_cg := cg; r_nc := nc;
     r_cle := cle; r_iban := iban |}.

(** The row appended by the [except] branch. *)
Definition ligne_erreur (fichier message : str) : ligne :=
  {| Fichier := fichier;
     Statut := lit "ERREUR: " ++ message;
     Titulaire_du_compte := MANQUANT;
     Code_Banque := MANQUANT;
     Code_Guichet := MANQUANT;
     No_de_compte := MANQUANT;
     Cle_RIB := MANQUANT;
     BIC_SWIFT := MANQUANT;
     IBAN := MANQUANT;
     Domiciliation := MANQUANT |}.

(** One turn of the loop: [texte] is the text returned by the OCR. *)
Definition traiter (fichier texte : str) : ligne :=
  let tclean := nettoyer texte in
  if negb (truthy (strip tclean))
  then ligne_erreur fichier (lit "OCR vide (aucun texte exploitable)")
  else
    let r := reconcilier tclean in
    let lb := extraire_par_libelles extraire_titulaire extraire_domiciliation tclean in
    let tit := lb_tit lb in
    let dom := lb_dom lb in
    let bic := extraire_bic_valide bic_lib tclean in
    {| Fichier := fichier;
       Statut := lit "OK";
       Titulaire_du_compte := nz tit;
       Code_Banque := nz (r_cb r);
       Code_Guichet := nz (r_cg r);
       No_de_compte := nz (r_nc r);
       Cle_RIB := nz (r_cle r);
       BIC_SWIFT := nz bic;
       IBAN := nz (r_iban r);
       Domiciliation := nz dom |}.

End Boucle.

End AppWithOcr.

(* --------------------------------------------------------------------- *)
(** ** src/app.py *)

Module App.

(** The fenced body [(\{.*?\})] and the open body [(\{.*\})], with
    [re.DOTALL]. *)
Definition corps_paresseux : regex :=
  Group 1 (Cat [Chr (one "{"); StarLazy any_char; Chr (one "}")]).

Definition corps_glouton : regex :=
  Group 1 (Cat [Chr (one "{"); Star any_char; Chr (one "}")]).

(** [```json\s*(\{.*?\})\s*```] *)
Definition PAT_FENCE_JSON : regex :=
  Cat [ Lit (lit "```json"); Star is_space; corps_paresseux; Star is_space;
        Lit (lit "```") ].

(** [```\s*(\{.*?\})\s*```] *)
Definition PAT_FENCE : regex :=
  Cat [ Lit (lit "```"); Star is_space; corps_paresseux; Star is_space;
        Lit (lit "```") ].

Definition nettoyer_reponse_json (texte : str) : str :=
  if negb (truthy texte) then texte
  else
    match search PAT_FENCE_JSON texte with
    | Some m => group 1 (snd m)
    | None =>
        match search PAT_FENCE texte with
        | Some m => group 1 (snd m)
        | None =>
            match search corps_glouton texte with
            | Some m => group 1 (snd m)
            | None => texte
            end
        end
    end.

(** The values [json.loads] can return (numbers are integers here). *)
#[warnings="-register-all"]
Inductive json : Type :=
| JNull
| JBool (b : bool)
| JInt (n : Z)
| JStr (s : str)
| JArr (l : list json)
| JObj (d : list (str * json)).

(** [not v] *)
Definition falsy (v : json) : bool :=
  match v with
  | JNull => true
  | JBool b => negb b
  | JInt n => (n =? 0)%Z
  | JStr s => negb (truthy s)
  | JArr l => match l with [] => true | _ => false end
  | JObj d => match d with [] => true | _ => false end
  end.

(** [data.get(key, "")] on a dictionary. *)
Fixpoint get (d : list (str * json)) (key : str) : json :=
  match d with
  | [] => JStr []
  | (k, v) :: d' => if str_eqb k key then v else get d' key
  end.

(** The cleaning functions return [None] where Python raises: a value that
    is true and is not a string has no [replace] or [split] and is refused
    by [re.sub]. *)
Definition nettoyer_bic (bic : json) : option str :=
  if falsy bic then Some []
  else
    match bic with
    | JStr s =>
        let b := upper (filter is_alnum s) in
        Some (if 11 <=? length b then firstn 11 b else firstn 8 b)
    | _ => None
    end.

Definition nettoyer_iban (iban : json) : option str :=
  if falsy iban then Some []
  else
    match iban with
    | JStr s => Some (iban_lib.group4 4 (upper (remove_char " " s)))
    | _ => None
    end.

Definition nettoyer_domiciliation (dom : json) : option str :=
  if falsy dom then Some []
  else
    match dom with
    | JStr s =>
        Some (join ["010"%char]
                (map strip (filter (fun l => truthy (strip l)) (split_nl s))))
    | _ => None
    end.

(** One row of the result table. *)
Record ligne : Type := {
  Fichier : str;
  Titulaire_du_compte : json;
  Code_Banque : json;
  Code_Guichet : json;
  No_de_compte : json;
  Cle_RIB : json;
  IBAN : str;
  BIC_SWIFT : str;
  Domiciliation : str;
  Erreur : str
}.

Definition ligne_vide (fichier erreur : str) : ligne :=
  {| Fichier := fichier;
     Titulaire_du_compte := JStr [];
     Code_Banque := JStr [];
     Code_Guichet := JStr [];
     No_de_compte := JStr [];
     Cle_RIB := JStr [];
     IBAN := [];
     BIC_SWIFT := [];
     Domiciliation := [];
     Erreur := erreur |}.

(** What one turn of the loop does: it appends a row, or an exception
    leaves the loop. *)
Inductive issue : Type :=
| Ajoute (l : ligne)
| Exception_.

(** The three prefixes [analyser_rib] puts before an error report. *)
Definition ERROR_API : str := lit "__ERROR_API__".
Definition ERROR_NO_CANDIDATE : str := lit "__ERROR_NO_CANDIDATE__".
Definition ERROR_EXCEPTION : str := lit "__ERROR_EXCEPTION__".

Definition NON_JSON : str := lit "Réponse IA non JSON".

Section Boucle.

(** [json.loads]; [None] when it raises. *)
Variable json_loads : str -> option json.

(** One turn of the loop: [raw_response] is the value of [analyser_rib(f)]. *)
Definition traiter (fichier raw_response : str) : issue :=
  if startswith (lit "__ERROR__") raw_response
  then Ajoute (ligne_vide fichier raw_response)
  else
    let json_clean := nettoyer_reponse_json raw_response in
    match json_loads json_clean with
    | None => Ajoute (ligne_vide fichier NON_JSON)
    | Some (JObj data) =>
        match nettoyer_iban (get data (lit "iban")),
              nettoyer_bic (get data (lit "bic")),
              nettoyer_domiciliation (get data (lit "domiciliation")) with
        | Some iban, Some bic, Some dom =>
            Ajoute {| Fichier := fichier;
                      Titulaire_du_compte := get data (lit "titulaire");
                      Code_Banque := get data (lit "code_banque");
                      Code_Guichet := get data (lit "code_guichet");
                      No_de_compte := get data (lit "numero_compte");
                      Cle_RIB := get data (lit "cle_rib");
                      IBAN := iban;
                      BIC_SWIFT := bic;
                      Domiciliation := dom;
                      Erreur := [] |}
        | _, _, _ => Exception_
        end
    | Some _ => Exception_
    end.

End Boucle.

(** The column [IBAN (compact)] that src/src/app/app.py adds to the row:
    [iban_normal.replace(" ", "") if iban_normal else ""], where
    [iban_normal] is [nettoyer_iban(data.get("iban", ""))]. *)
Definition iban_compact (iban_normal : str) : str :=
  if truthy iban_normal then remove_char " " iban_normal else [].

End App.

(* --------------------------------------------------------------------- *)
(** ** Vocabulary of the statements *)

Module Enonces.

Import Utils iban_lib App.

Definition all_ascii : list ascii := map ascii_of_nat (seq 0 256).

Definition two_digit_ok (n : nat) : bool :=
  let s := format_02d (Z.of_nat n) in
  (length s =? 2) && (int_of s =? Z.of_nat n)%Z && forallb is_digit s.

(** The candidate the validator works on: non-alphanumerics stripped,
    upper case. *)
Definition candidat_bic (raw : str) : str := upper (filter is_alnum raw).

(** What the validator accepts: 8 or 11 characters, the first four and the
    next two alphabetic, the country code FR. *)
Definition bic_fr (bic : str) : Prop :=
  (length bic = 8 \/ length bic = 11)
  /\ forallb is_alpha (firstn 4 bic) = true
  /\ forallb is_alpha (slice 4 6 bic) = true
  /\ slice 4 6 bic = lit "FR".

(** The check digits computed by [from_bban]. *)
Definition cle_iban (bban : str) : str :=
  match to_base10 (bban ++ lit "FR" ++ lit "00") with
  | Some d => format_02d (98 - int_of d mod 97)%Z
  | None => []
  end.

(** The canonical text of the IBAN built on a BBAN: upper case, in one
    block. *)
Definition iban_de (bban : str) : str := lit "FR" ++ cle_iban bban ++ upper bban.

(** A bank or branch code of 5 digits, an account number of 11
    alphanumeric characters. *)
Definition cinq_chiffres (s : str) : Prop :=
  length s = 5 /\ forallb is_digit s = true.

Definition compte_valide (nc : str) : Prop :=
  length nc = 11 /\ forallb is_alnum nc = true.

(** The French form: FR, two check digits, a BBAN of 23 capitals or digits. *)
Definition forme_iban_fr (c : str) : bool :=
  (length c =? 27) && startswith (lit "FR") c
  && forallb is_digit (slice 2 4 c) && forallb upper_or_digit (skipn 4 c).

(** A valid French IBAN, in any presentation (blocks, lower case): its
    compact upper-case text has the French form and passes the checksum. *)
Definition iban_fr_valide (i : str) : Prop :=
  forme_iban_fr (upper (compact i)) = true /\ is_valid (upper (compact i)) = true.

(** A block of 27 capitals or digits that begins with FR, lies in the
    compact upper-case text and passes the checksum. *)
Definition bloc_fr27 (t x : str) : Prop :=
  (exists pre post, upper (compacter t) = pre ++ x ++ post)
  /\ length x = 27 /\ startswith (lit "FR") x = true
  /\ forallb upper_or_digit x = true /\ is_valid x = true.

(** The compact upper-case text has no block of 27 characters that begins
    with FR. *)
Definition sans_fr27 (c : str) : Prop :=
  forall pre x post,
    c = pre ++ x ++ post -> length x = 27 -> startswith (lit "FR") x = false.

(** The French shape [FR\d{2}[A-Z0-9]{23}] somewhere in a text. *)
Fixpoint contient_forme_fr (c : str) : bool :=
  forme_iban_fr (firstn 27 c)
  || match c with [] => false | _ :: c' => contient_forme_fr c' end.

(** The structural shape of a BIC: 8 or 11 characters, the first six
    alphabetic. *)
Definition bic_forme (b : str) : Prop :=
  (length b = 8 \/ length b = 11) /\ forallb is_alpha (firstn 6 b) = true.

(** The values derived from the IBAN, as both OCR loops compute them. *)
Definition issu_iban (h : str -> nat) (tclean : str) : str * str * str * str :=
  let iban := extraire_iban_valide h tclean in
  if truthy iban then decomposer_iban_fr iban else absent4.

Definition fence : str := lit "```".

Definition fence_json : str := lit "```json".

(** [bloc] is a brace-delimited block of [texte] that follows [ouverture]
    and blanks, and is followed by blanks and a closing fence. *)
Definition bloc_clos (ouverture texte bloc : str) : Prop :=
  exists avant w1 corps w2 apres,
    texte = avant ++ ouverture ++ w1 ++ bloc ++ w2 ++ fence ++ apres
    /\ bloc = "{"%char :: corps ++ ["}"%char]
    /\ forallb is_space w1 = true /\ forallb is_space w2 = true.

Definition contient_bloc (ouverture texte : str) : Prop :=
  exists bloc, bloc_clos ouverture texte bloc.

(** The pattern of a fenced block, for either opening. *)
Definition cloture (ouverture : str) : regex :=
  Cat [ Lit ouverture; Star is_space; corps_paresseux; Star is_space; Lit fence ].

(** From the words of the specification: the first brace-balanced span of a
    text, from an opening brace to the closing brace that matches it.
    [equilibre depth s] reads [s] after an opening brace, [depth] braces
    being open besides. *)
Fixpoint equilibre (depth : nat) (s : str) : option str :=
  match s with
  | [] => None
  | c :: s' =>
      if Ascii.eqb c "{" then option_map (cons c) (equilibre (S depth) s')
      else if Ascii.eqb c "}" then
        match depth with
        | O => Some [c]
        | S d => option_map (cons c) (equilibre d s')
        end
      else option_map (cons c) (equilibre depth s')
  end.

Fixpoint premier_bloc_equilibre (s : str) : option str :=
  match s with
  | [] => None
  | c :: s' =>
      if Ascii.eqb c "{" then
        match equilibre 0 s' with
        | Some b => Some (c :: b)
        | None => premier_bloc_equilibre s'
        end
      else premier_bloc_equilibre s'
  end.

(** The first group of a match. *)
Definition groupe1 (x : found) : str := group 1 (snd x).

(** From the words of the specification: the first block fenced by
    [ouverture] in a text.  [fin_de_bloc s] reads [s] after an opening
    brace, up to the first closing brace that blanks and a closing fence
    follow; [bloc_ici] is the block opened by a fence at the head of the
    text: the fence, blanks, then the braces; [premier_bloc_clos] is the
    block of the leftmost fence that opens one. *)
Fixpoint fin_de_bloc (s : str) : option str :=
  match s with
  | [] => None
  | c :: s' =>
      if Ascii.eqb c "}" && startswith fence (lstrip s') then Some [c]
      else option_map (cons c) (fin_de_bloc s')
  end.

Definition bloc_ici (ouverture s : str) : option str :=
  if startswith ouverture s then
    match lstrip (skipn (length ouverture) s) with
    | c :: r => if Ascii.eqb c "{" then option_map (cons c) (fin_de_bloc r) else None
    | [] => None
    end
  else None.

Fixpoint premier_bloc_clos (ouverture s : str) : option str :=
  match bloc_ici ouverture s with
  | Some b => Some b
  | None =>
      match s with
      | [] => None
      | _ :: s' => premier_bloc_clos ouverture s'
      end
  end.

(** An answer that begins with one of the three error prefixes. *)
Definition reponse_erreur (raw : str) : Prop :=
  startswith ERROR_API raw = true
  \/ startswith ERROR_NO_CANDIDATE raw = true
  \/ startswith ERROR_EXCEPTION raw = true.

Definition guillemet : ascii := "034"%char.

(** What [analyser_rib] returns when the API answers with the error object
    [{"code": 400}]: the prefix, a space, and the object as [json.dumps]
    writes it with [indent=2]. *)
Definition objet_api : str :=
  lit "{" ++ ["010"%char] ++ lit "  " ++ [guillemet] ++ lit "code" ++ [guillemet]
  ++ lit ": 400" ++ ["010"%char] ++ lit "}".

Definition reponse_api : str := lit "__ERROR_API__ " ++ objet_api.

Definition loads_api (s : str) : option json :=
  if str_eqb s objet_api then Some (JObj [(lit "code", JInt 400)]) else None.

(** The leftmost block of the French shape [FR\d{2}[A-Z0-9]{23}] of a text. *)
Fixpoint premiere_forme_fr (u : str) : option str :=
  if forme_iban_fr (firstn 27 u) then Some (firstn 27 u)
  else match u with [] => None | _ :: u' => premiere_forme_fr u' end.

(** A merged row is coherent when it has no IBAN, or when its IBAN passes
    the checksum, its four components are present and they are, in order,
    what follows the first four characters of the compact IBAN. *)
Definition coherent (r : reconcilie) : Prop :=
  r_iban r = []
  \/ (is_valid (r_iban r) = true
      /\ r_cb r <> [] /\ r_cg r <> [] /\ r_nc r <> [] /\ r_cle r <> []
      /\ skipn 4 (compacter (r_iban r)) = r_cb r ++ r_cg r ++ r_nc r ++ r_cle r).

(** A text without line feed. *)
Definition sans_saut (s : str) : bool := forallb (non (one "010")) s.

(** A JSON value the cleaning functions of src/app.py can take: a string,
    or a value that counts as false. *)
Definition chaine_ou_vide (v : json) : bool :=
  falsy v || match v with JStr _ => true | _ => false end.

(** A parser that answers with the object [{"iban": 123}]. *)
Definition loads_iban_nombre (_ : str) : option json :=
  Some (JObj [(lit "iban", JInt 123)]).

(** A text with two valid French IBANs, and a hash that orders strings by
    their third character. *)
Definition deux_ibans : str :=
  lit "FR76 3000 6000 0112 3456 7890 189 / FR58 1234 5678 9000 0000 0000 100".

Definition hash_troisieme (s : str) : nat := code (nth 2 s "0"%char).

(** The class [[ \t]] that [nettoyer] replaces. *)
Definition blanc : ascii -> bool := either (one " ") (one "009").

(** No two spaces side by side. *)
Fixpoint pas_deux_espaces (s : str) : bool :=
  match s with
  | [] => true
  | a :: t =>
      match t with
      | b :: _ => negb (Ascii.eqb a " " && Ascii.eqb b " ")
      | [] => true
      end
      && pas_deux_espaces t
  end.

(** A text as [nettoyer] leaves it: no carriage return, no tabulation, no
    two spaces side by side. *)
Definition texte_net (s : str) : bool :=
  forallb (non (any_of ["013"%char; "009"%char])) s && pas_deux_espaces s.

End Enonces.

(* ===================================================================== *)
(** * Part II. Properties                                                 *)
(* ===================================================================== *)

(** ** Characters *)

Import Enonces.

Module PyFacts.

(** A boolean property of characters holds of all of them as soon as it
    holds of the 256 codes. *)
Lemma ascii_forall (P : ascii -> bool) :
  forallb P all_ascii = true -> forall c, P c = true.
Proof.
  intros H c. rewrite forallb_forall in H. apply H.
  unfold all_ascii. rewrite <- (ascii_nat_embedding c).
  apply in_map, in_seq. pose proof (nat_ascii_bounded c). lia.
Qed.

Ltac by_ascii_table c :=
  pattern c;
  match goal with
  | |- (fun x => @?P x = true) c => apply (ascii_forall P); vm_compute; reflexivity
  | |- (fun x => ?a = ?b) c => fail "not a boolean statement"
  end.

Lemma digit_is_alnum c : is_digit c = true -> is_alnum c = true.
Proof. unfold is_alnum. intros ->. apply orb_true_r. Qed.

Lemma upper_is_alpha c : is_upper c = true -> is_alpha c = true.
Proof. unfold is_alpha. intros ->. reflexivity. Qed.

Lemma to_upper_idem c : to_upper (to_upper c) = to_upper c.
Proof.
  assert (H : Ascii.eqb (to_upper (to_upper c)) (to_upper c) = true)
    by (by_ascii_table c).
  now apply Ascii.eqb_eq.
Qed.

Lemma to_upper_alnum c : is_alnum (to_upper c) = is_alnum c.
Proof.
  assert (H : Bool.eqb (is_alnum (to_upper c)) (is_alnum c) = true)
    by (by_ascii_table c).
  now apply Bool.eqb_prop.
Qed.

(** After [upper], an alphanumeric character is a capital or a digit. *)
Lemma to_upper_alnum_cap c :
  is_alnum c = true -> Utils.upper_or_digit (to_upper c) = true.
Proof.
  assert (H : implb (is_alnum c) (Utils.upper_or_digit (to_upper c)) = true)
    by (by_ascii_table c).
  intros E. now rewrite E in H.
Qed.

Lemma cap_is_alnum c : Utils.upper_or_digit c = true -> is_alnum c = true.
Proof.
  assert (H : implb (Utils.upper_or_digit c) (is_alnum c) = true)
    by (by_ascii_table c).
  intros E. now rewrite E in H.
Qed.

Lemma cap_to_upper c : Utils.upper_or_digit c = true -> to_upper c = c.
Proof.
  assert (H : implb (Utils.upper_or_digit c) (Ascii.eqb (to_upper c) c) = true)
    by (by_ascii_table c).
  intros E. rewrite E in H. now apply Ascii.eqb_eq.
Qed.

Lemma alnum_not_space c : is_alnum c = true -> is_space c = false.
Proof.
  assert (H : implb (is_alnum c) (negb (is_space c)) = true)
    by (by_ascii_table c).
  intros E. rewrite E in H. simpl in H. now apply negb_true_iff.
Qed.

Lemma alnum_not_separator c :
  is_alnum c = true -> non (any_of (lit " -.")) c = true.
Proof.
  assert (H : implb (is_alnum c) (non (any_of (lit " -.")) c) = true)
    by (by_ascii_table c).
  intros E. now rewrite E in H.
Qed.

(** ** Strings *)

Lemma upper_idem s : upper (upper s) = upper s.
Proof.
  unfold upper. rewrite map_map. apply map_ext. intros; apply to_upper_idem.
Qed.

Lemma upper_app a b : upper (a ++ b) = upper a ++ upper b.
Proof. apply map_app. Qed.

Lemma upper_length s : length (upper s) = length s.
Proof. apply length_map. Qed.

Lemma upper_caps s : forallb Utils.upper_or_digit s = true -> upper s = s.
Proof.
  induction s as [|c s IH]; simpl; [reflexivity|].
  intros H. apply andb_true_iff in H as [Hc Hs].
  now rewrite (cap_to_upper _ Hc), IH.
Qed.

Lemma upper_alnum_caps s :
  forallb is_alnum s = true -> forallb Utils.upper_or_digit (upper s) = true.
Proof.
  induction s as [|c s IH]; simpl; [reflexivity|].
  intros H. apply andb_true_iff in H as [Hc Hs].
  now rewrite (to_upper_alnum_cap _ Hc), IH.
Qed.

Lemma caps_alnum s :
  forallb Utils.upper_or_digit s = true -> forallb is_alnum s = true.
Proof.
  induction s as [|c s IH]; simpl; [reflexivity|].
  intros H. apply andb_true_iff in H as [Hc Hs].
  now rewrite (cap_is_alnum _ Hc), IH.
Qed.

Lemma forallb_firstn (A : Type) (p : A -> bool) n (l : list A) :
  forallb p l = true -> forallb p (firstn n l) = true.
Proof.
  revert l; induction n as [|n IH]; intros [|x l]; simpl; auto.
  intros H. apply andb_true_iff in H as [Hx Hl]. now rewrite Hx, IH.
Qed.

Lemma forallb_skipn (A : Type) (p : A -> bool) n (l : list A) :
  forallb p l = true -> forallb p (skipn n l) = true.
Proof.
  revert l; induction n as [|n IH]; intros [|x l]; simpl; auto.
  intros H. apply andb_true_iff in H as [Hx Hl]. now apply IH.
Qed.

Lemma forallb_slice (p : ascii -> bool) a b s :
  forallb p s = true -> forallb p (slice a b s) = true.
Proof. intros H. unfold slice. now apply forallb_firstn, forallb_skipn. Qed.

Lemma truthy_nonempty s : truthy s = true <-> s <> [].
Proof. destruct s; simpl; split; intros; try congruence; auto. Qed.

Lemma str_eqb_eq a b : str_eqb a b = true <-> a = b.
Proof. unfold str_eqb. destruct (list_eq_dec ascii_dec a b); split; congruence. Qed.

(** ** Decimal numerals *)

Lemma int_of_app a b :
  int_of (a ++ b) = (int_of a * 10 ^ Z.of_nat (length b) + int_of b)%Z.
Proof.
  unfold int_of. rewrite fold_left_app.
  generalize (fold_left (fun acc c => (acc * 10 + digit_val c)%Z) a 0%Z) as x.
  induction b as [|c b IH]; intros x.
  - simpl. lia.
  - cbn [fold_left length]. rewrite IH, (IH (0 * 10 + digit_val c)%Z).
    rewrite Nat2Z.inj_succ, Z.pow_succ_r by lia. ring.
Qed.

(** On 0..99 the format [02d] writes exactly two digits, which read back as
    the number. *)
Lemma format_02d_two_digits n :
  (0 <= n <= 99)%Z ->
  length (format_02d n) = 2 /\ int_of (format_02d n) = n
  /\ forallb is_digit (format_02d n) = true.
Proof.
  intros Hn.
  assert (T : forallb two_digit_ok (seq 0 100) = true) by (vm_compute; reflexivity).
  rewrite forallb_forall in T.
  specialize (T (Z.to_nat n)). rewrite in_seq in T.
  assert (Hin : 0 <= Z.to_nat n < 0 + 100) by lia.
  specialize (T Hin). unfold two_digit_ok in T. rewrite Z2Nat.id in T by lia.
  apply andb_true_iff in T as [T T3]. apply andb_true_iff in T as [T1 T2].
  apply Nat.eqb_eq in T1. apply Z.eqb_eq in T2. auto.
Qed.

End PyFacts.

(** ** src/utils.py: the RIB key and the BIC validator *)

Module UtilsFacts.

Import PyFacts Utils.

Lemma filter_upper_alnum s :
  filter is_alnum (upper s) = upper (filter is_alnum s).
Proof.
  induction s as [|c s IH]; simpl; [reflexivity|].
  rewrite to_upper_alnum. destruct (is_alnum c); simpl; now rewrite IH.
Qed.

Lemma valider_normaliser_bic_cases bic_lib raw :
  valider_normaliser_bic bic_lib raw = []
  \/ (valider_normaliser_bic bic_lib raw = candidat_bic raw
      /\ bic_fr (candidat_bic raw)).
Proof.
  unfold valider_normaliser_bic, candidat_bic, bic_fr.
  rewrite filter_upper_alnum.
  set (bic := upper (filter is_alnum raw)).
  destruct (truthy raw); cbn [negb]; [|now left].
  destruct ((length bic =? 8) || (length bic =? 11)) eqn:Hlen; cbn [negb];
    [|now left].
  destruct (isalpha (firstn 4 bic) && isalpha (slice 4 6 bic)) eqn:Ha; cbn [negb];
    [|now left].
  destruct (str_eqb (slice 4 6 bic) (lit "FR")) eqn:Hfr; cbn [negb]; [|now left].
  apply andb_true_iff in Ha as [Ha1 Ha2].
  unfold isalpha in Ha1, Ha2.
  apply andb_true_iff in Ha1 as [_ Ha1]. apply andb_true_iff in Ha2 as [_ Ha2].
  apply str_eqb_eq in Hfr.
  assert (Hl : length bic = 8 \/ length bic = 11).
  { apply orb_true_iff in Hlen as [H|H]; apply Nat.eqb_eq in H; auto. }
  destruct bic_lib as [v|]; [destruct (v bic)|];
    solve [now left | right; repeat split; assumption].
Qed.

(** C6, as the code has it. [valider_normaliser_bic] returns a value only if
    the candidate (the input with non-alphanumerics stripped, in upper
    case) has exactly 8 or 11 characters, its first four and next two
    characters alphabetic, and characters 5-6 equal to FR, and the value is
    then that candidate; so it rejects every input whose characters 5-6 are
    not FR, city name such as BOULOGNE or code of another country, whatever
    the optional validator says. *)
Theorem valider_normaliser_bic_requires_fr (bic_lib : option (str -> bool)) (raw : str) :
  (valider_normaliser_bic bic_lib raw <> [] ->
     valider_normaliser_bic bic_lib raw = candidat_bic raw
     /\ bic_fr (candidat_bic raw))
  /\ valider_normaliser_bic bic_lib (lit "BOULOGNE") = []
  /\ (slice 4 6 (candidat_bic raw) <> lit "FR" ->
      valider_normaliser_bic bic_lib raw = []).
Proof.
  split; [|split].
  - intros Hne. destruct (valider_normaliser_bic_cases bic_lib raw) as [H|H];
      [contradiction|exact H].
  - destruct (valider_normaliser_bic_cases bic_lib (lit "BOULOGNE")) as [H|[_ H]];
      [exact H|].
    destruct H as (_ & _ & _ & H). vm_compute in H. discriminate.
  - intros Hfr. destruct (valider_normaliser_bic_cases bic_lib raw) as [H|[_ H]];
      [exact H|].
    destruct H as (_ & _ & _ & H). contradiction.
Qed.

(** An accepted code, and two refused ones: a city name and a German BIC. *)
Lemma valider_normaliser_bic_requires_fr_witness :
  valider_normaliser_bic None (lit "bous frpp xxx") = lit "BOUSFRPPXXX"
  /\ bic_fr (lit "BOUSFRPPXXX")
  /\ valider_normaliser_bic None (lit "TOULOUSE") = []
  /\ valider_normaliser_bic None (lit "DEUTDEFF") = [].
Proof.
  pose proof (valider_normaliser_bic_requires_fr None (lit "bous frpp xxx")) as [H1 _].
  pose proof (valider_normaliser_bic_requires_fr None (lit "TOULOUSE")) as (_ & _ & H2).
  pose proof (valider_normaliser_bic_requires_fr None (lit "DEUTDEFF")) as (_ & _ & H3).
  assert (N : valider_normaliser_bic None (lit "bous frpp xxx") <> [])
    by (vm_compute; discriminate).
  destruct (H1 N) as [E B].
  split; [exact E|]. split; [exact B|].
  split; [apply H2|apply H3]; vm_compute; discriminate.
Defined.

(** C6 as stated fails: the test on the country is the only filter, and
    MONTFRIN, a city name of 8 letters whose characters 5-6 are FR, is
    returned. *)
Lemma valider_normaliser_bic_ville_fr :
  forallb is_alpha (lit "MONTFRIN") = true
  /\ length (lit "MONTFRIN") = 8
  /\ valider_normaliser_bic None (lit "MONTFRIN") = lit "MONTFRIN".
Proof. repeat split; vm_compute; reflexivity. Qed.

Lemma lettres_vers_nombres_digits s :
  forallb is_digit (lettres_vers_nombres s) = true.
Proof.
  unfold lettres_vers_nombres.
  induction (upper s) as [|c u IH]; cbn [flat_map]; [reflexivity|].
  rewrite forallb_app, IH, andb_true_r.
  by_ascii_table c.
Qed.



End UtilsFacts.

(** ** The mod-97 arithmetic of the IBAN library *)

Module IbanFacts.

Import PyFacts Utils iban_lib.

Lemma base36_to_upper c : base36 (to_upper c) = base36 c.
Proof.
  assert (H : match base36 (to_upper c), base36 c with
              | Some a, Some b => (a =? b)%Z
              | None, None => true
              | _, _ => false
              end = true) by (by_ascii_table c).
  destruct (base36 (to_upper c)), (base36 c); try discriminate; auto.
  apply Z.eqb_eq in H. now subst.
Qed.

Lemma base36_alnum c : is_alnum c = true -> exists v, base36 c = Some v.
Proof.
  assert (H : implb (is_alnum c)
                (match base36 c with Some _ => true | None => false end) = true)
    by (by_ascii_table c).
  intros E. rewrite E in H. destruct (base36 c) as [v|]; [now exists v|discriminate].
Qed.

Lemma base36_digit c :
  is_digit c = true -> option_map str_of_Z (base36 c) = Some [c].
Proof.
  assert (H : implb (is_digit c)
                (match option_map str_of_Z (base36 c) with
                 | Some s => str_eqb s [c]
                 | None => false
                 end) = true) by (by_ascii_table c).
  intros E. rewrite E in H. destruct (option_map str_of_Z (base36 c)); [|discriminate].
  apply str_eqb_eq in H. now subst.
Qed.

Lemma to_base10_app a b :
  to_base10 (a ++ b) =
  match to_base10 a, to_base10 b with
  | Some x, Some y => Some (x ++ y)
  | _, _ => None
  end.
Proof.
  induction a as [|c a IH]; simpl.
  - now destruct (to_base10 b).
  - rewrite IH. destruct (base36 c); [|reflexivity].
    destruct (to_base10 a); [|reflexivity].
    destruct (to_base10 b); [|reflexivity].
    now rewrite app_assoc.
Qed.

Lemma to_base10_upper s : to_base10 (upper s) = to_base10 s.
Proof.
  induction s as [|c s IH]; simpl; [reflexivity|].
  now rewrite base36_to_upper, IH.
Qed.

Lemma to_base10_alnum s :
  forallb is_alnum s = true -> exists d, to_base10 s = Some d.
Proof.
  induction s as [|c s IH]; simpl; [now exists []|].
  intros H. apply andb_true_iff in H as [Hc Hs].
  destruct (base36_alnum _ Hc) as [v ->]. destruct (IH Hs) as [d ->]. eauto.
Qed.

Lemma to_base10_digits s : forallb is_digit s = true -> to_base10 s = Some s.
Proof.
  induction s as [|c s IH]; simpl; [reflexivity|].
  intros H. apply andb_true_iff in H as [Hc Hs].
  pose proof (base36_digit _ Hc) as E. rewrite (IH Hs).
  destruct (base36 c); simpl in E; [|discriminate].
  injection E as ->. reflexivity.
Qed.

(** ** [compact] and [format] on alphanumeric text *)

Lemma lstrip_no_space s :
  forallb (non is_space) s = true -> lstrip s = s.
Proof.
  destruct s as [|c s]; simpl; [reflexivity|].
  unfold non at 1. intros H. apply andb_true_iff in H as [Hc _].
  apply negb_true_iff in Hc. now rewrite Hc.
Qed.

Lemma strip_no_space s :
  forallb (non is_space) s = true -> strip s = s.
Proof.
  intros H. unfold strip, rstrip. rewrite (lstrip_no_space _ H).
  rewrite lstrip_no_space; [apply rev_involutive|].
  rewrite forallb_forall in *. intros x Hx. apply H. now apply in_rev.
Qed.

Lemma alnum_no_space s :
  forallb is_alnum s = true -> forallb (non is_space) s = true.
Proof.
  rewrite !forallb_forall. intros H x Hx. unfold non.
  now rewrite (alnum_not_space _ (H x Hx)).
Qed.

Lemma filter_all (A : Type) (p : A -> bool) (l : list A) :
  forallb p l = true -> filter p l = l.
Proof.
  induction l as [|x l IH]; simpl; [reflexivity|].
  intros H. apply andb_true_iff in H as [Hx Hl]. now rewrite Hx, IH.
Qed.

Lemma compact_alnum s : forallb is_alnum s = true -> compact s = upper s.
Proof.
  intros H. unfold compact. rewrite filter_all.
  - now rewrite strip_no_space by (now apply alnum_no_space).
  - rewrite forallb_forall in *. intros x Hx. now apply alnum_not_separator, H.
Qed.

Lemma compact_caps s : forallb upper_or_digit s = true -> compact s = s.
Proof.
  intros H. rewrite compact_alnum by (now apply caps_alnum). now apply upper_caps.
Qed.

(** The spaces [format] inserts are the ones [compact] and [compacter] remove. *)
Lemma filter_group4 (p : ascii -> bool) k s :
  p " "%char = false -> forallb p s = true -> filter p (group4 k s) = s.
Proof.
  intros Hsp. revert k; induction s as [|c s IH]; intros k; simpl; [reflexivity|].
  intros H. apply andb_true_iff in H as [Hc Hs].
  destruct k; simpl; rewrite ?Hsp, Hc, IH; auto.
Qed.

Lemma compact_group4 s :
  forallb upper_or_digit s = true -> compact (group4 4 s) = s.
Proof.
  intros H. unfold compact. rewrite filter_group4; [| reflexivity |].
  - rewrite strip_no_space by (now apply alnum_no_space, caps_alnum).
    now apply upper_caps.
  - rewrite forallb_forall in *. intros x Hx.
    now apply alnum_not_separator, cap_is_alnum, H.
Qed.

Lemma compacter_group4 s :
  forallb upper_or_digit s = true -> compacter (group4 4 s) = s.
Proof.
  intros H. unfold compacter. apply filter_group4; [reflexivity|].
  now apply caps_alnum.
Qed.

Lemma format_caps s : forallb upper_or_digit s = true -> format s = group4 4 s.
Proof. intros H. unfold format. now rewrite compact_caps. Qed.

Lemma group4_nonempty k s : s <> [] -> group4 k s <> [].
Proof. destruct s, k; simpl; congruence. Qed.

(** ** The check digits make the checksum 1 *)

Lemma mod97_check (x : Z) :
  ((x * 100 + (98 - (x * 100 + 0) mod 97)) mod 97 = 1)%Z.
Proof.
  rewrite Z.add_0_r.
  pose proof (Z.div_mod (x * 100) 97 ltac:(lia)) as E.
  replace (x * 100 + (98 - (x * 100) mod 97))%Z
    with (1 + (x * 100 / 97 + 1) * 97)%Z by lia.
  rewrite Z.mod_add by lia. reflexivity.
Qed.

Lemma cle_iban_digits bban :
  forallb is_alnum bban = true ->
  length (cle_iban bban) = 2 /\ forallb is_digit (cle_iban bban) = true.
Proof.
  intros H. unfold cle_iban.
  destruct (to_base10_alnum (bban ++ lit "FR" ++ lit "00")) as [d ->].
  { rewrite forallb_app, H. reflexivity. }
  pose proof (Z.mod_pos_bound (int_of d) 97 ltac:(lia)) as Hm.
  assert (Hr : (0 <= 98 - int_of d mod 97 <= 99)%Z) by lia.
  destruct (format_02d_two_digits Hr) as (Hl & _ & Hd). auto.
Qed.

Lemma from_bban_fr bban :
  forallb is_alnum bban = true ->
  from_bban (lit "FR") bban = Some (lit "FR" ++ cle_iban bban ++ bban).
Proof.
  intros H. unfold from_bban, cle_iban.
  destruct (to_base10_alnum (bban ++ lit "FR" ++ lit "00")) as [d ->];
    [|reflexivity].
  rewrite forallb_app, H. reflexivity.
Qed.

(** Whatever the alphanumeric BBAN, the IBAN built on it passes the mod-97
    checksum, in lower or upper case. *)
Lemma is_valid_built bban :
  forallb is_alnum bban = true ->
  is_valid (lit "FR" ++ cle_iban bban ++ bban) = true
  /\ is_valid (lit "FR" ++ cle_iban bban ++ upper bban) = true.
Proof.
  intros H.
  destruct (cle_iban_digits bban H) as [Hl Hd].
  destruct (to_base10_alnum bban H) as [B HB].
  assert (Hn : forall b, upper b = upper bban ->
               forallb is_alnum b = true ->
               is_valid (lit "FR" ++ cle_iban bban ++ b) = true).
  { intros b Hb Hab. unfold is_valid.
    rewrite compact_alnum.
    2:{ rewrite !forallb_app, Hab, andb_true_r. simpl.
        rewrite forallb_forall in *. intros x Hx. now apply digit_is_alnum, Hd. }
    rewrite !upper_app, Hb.
    replace (upper (cle_iban bban)) with (cle_iban bban).
    2:{ symmetry. apply upper_caps. rewrite forallb_forall in *. intros x Hx.
        unfold upper_or_digit, either. now rewrite (Hd x Hx), orb_true_r. }
    destruct (cle_iban bban) as [|k1 [|k2 [|? ?]]] eqn:Ek; try discriminate.
    cbn [lit list_ascii_of_string upper map app skipn firstn].
    change (to_upper "F") with "F"%char. change (to_upper "R") with "R"%char.
    rewrite to_base10_app, to_base10_upper, HB.
    assert (Hk : to_base10 [k1; k2] = Some [k1; k2]) by (now apply to_base10_digits).
    change (to_base10 ["F"%char; "R"%char; k1; k2])
      with (to_base10 (lit "FR" ++ [k1; k2])).
    rewrite to_base10_app, Hk.
    change (to_base10 (lit "FR")) with (Some (lit "1527")).
    assert (Hne : truthy (B ++ lit "1527" ++ [k1; k2]) = true)
      by (destruct B; reflexivity).
    cbv beta iota. rewrite Hne. cbn [andb]. apply Z.eqb_eq.
    (* the value of the two check digits *)
    unfold cle_iban in Ek.
    rewrite !to_base10_app, HB in Ek.
    change (to_base10 (lit "FR")) with (Some (lit "1527")) in Ek.
    change (to_base10 (lit "00")) with (Some (lit "00")) in Ek.
    cbv beta iota in Ek.
    pose proof (Z.mod_pos_bound (int_of (B ++ lit "1527" ++ lit "00")) 97 ltac:(lia)) as Hm.
    assert (Hr : (0 <= 98 - int_of (B ++ lit "1527" ++ lit "00") mod 97 <= 99)%Z) by lia.
    destruct (format_02d_two_digits Hr) as (_ & Hv & _).
    rewrite Ek in Hv.
    rewrite !app_assoc in *. rewrite int_of_app in *.
    change (Z.of_nat (length [k1; k2])) with 2%Z.
    change (Z.of_nat (length (lit "00"))) with 2%Z in Hv.
    change (int_of (lit "00")) with 0%Z in Hv.
    change (10 ^ 2)%Z with 100%Z in *.
    rewrite Hv. apply mod97_check. }
  split.
  - apply Hn; auto.
  - apply Hn; [apply upper_idem|]. now apply caps_alnum, upper_alnum_caps.
Qed.

End IbanFacts.

(** ** src/utils.py: building and decomposing French IBANs *)

Module RibFacts.

Import PyFacts IbanFacts UtilsFacts Utils iban_lib.

Lemma is_valid_compact a b : compact a = compact b -> is_valid a = is_valid b.
Proof. unfold is_valid. now intros ->. Qed.

Lemma iban_de_caps bban :
  forallb is_alnum bban = true -> forallb upper_or_digit (iban_de bban) = true.
Proof.
  intros H. unfold iban_de. rewrite !forallb_app.
  rewrite (upper_alnum_caps _ H), andb_true_r.
  destruct (cle_iban_digits bban H) as [_ Hd].
  replace (forallb upper_or_digit (cle_iban bban)) with true; [reflexivity|].
  symmetry. rewrite forallb_forall in *. intros x Hx.
  unfold upper_or_digit, either. now rewrite (Hd x Hx), orb_true_r.
Qed.

Lemma digits_alnum s : forallb is_digit s = true -> forallb is_alnum s = true.
Proof.
  rewrite !forallb_forall. intros H x Hx. now apply digit_is_alnum, H.
Qed.

Lemma construire_iban_fr_alnum cb cg nc cle :
  cb <> [] -> cg <> [] -> nc <> [] -> cle <> [] ->
  forallb is_alnum (cb ++ cg ++ nc ++ cle) = true ->
  construire_iban_fr cb cg nc cle = group4 4 (iban_de (cb ++ cg ++ nc ++ cle)).
Proof.
  intros H1 H2 H3 H4 Ha. unfold construire_iban_fr.
  apply truthy_nonempty in H1, H2, H3, H4.
  cbn [forallb]. rewrite H1, H2, H3, H4. cbn [andb negb].
  rewrite (from_bban_fr _ Ha).
  destruct (is_valid_built _ Ha) as [-> _].
  unfold format. f_equal.
  rewrite compact_alnum.
  - unfold iban_de. rewrite !upper_app. f_equal. f_equal.
    apply upper_caps. destruct (cle_iban_digits _ Ha) as [_ Hd].
    rewrite forallb_forall in *. intros x Hx.
    unfold upper_or_digit, either. now rewrite (Hd x Hx), orb_true_r.
  - destruct (cle_iban_digits _ Ha) as [_ Hd].
    rewrite (forallb_app _ (lit "FR")), (forallb_app _ (cle_iban _)).
    now rewrite Ha, (digits_alnum _ Hd).
Qed.

Lemma is_valid_group4_iban_de bban :
  forallb is_alnum bban = true -> is_valid (group4 4 (iban_de bban)) = true.
Proof.
  intros H. rewrite (@is_valid_compact _ (iban_de bban)).
  - destruct (is_valid_built _ H) as [_ E]. exact E.
  - rewrite compact_group4, compact_caps; auto using iban_de_caps.
Qed.

Lemma nonempty_of_length (s : str) n : length s = S n -> s <> [].
Proof. destruct s; simpl; congruence. Qed.

(** C1. For a 5-digit bank code, a 5-digit branch code and an account
    number of 11 alphanumeric characters, [calculer_cle_rib] returns a key,
    and [construire_iban_fr] on the three components and that key returns an
    IBAN, not the absent marker, which passes the mod-97 checksum. *)
Theorem cle_rib_then_iban_valid (cb cg nc : str) :
  cinq_chiffres cb -> cinq_chiffres cg -> compte_valide nc ->
  let k := calculer_cle_rib cb cg nc in
  k <> []
  /\ construire_iban_fr cb cg nc k <> []
  /\ is_valid (construire_iban_fr cb cg nc k) = true.
Proof.
  intros [Lb Db] [Lg Dg] [Ln An] k.
  pose proof (nonempty_of_length Lb) as Nb.
  pose proof (nonempty_of_length Lg) as Ng.
  pose proof (nonempty_of_length Ln) as Nn.
  assert (Hk : length k = 2 /\ forallb is_digit k = true).
  { subst k. unfold calculer_cle_rib.
    apply truthy_nonempty in Nb, Ng, Nn. rewrite Nb, Ng, Nn. cbn [andb negb].
    set (base := cb ++ cg ++ lettres_vers_nombres nc).
    assert (Hd : isdigit base = true).
    { unfold isdigit, base. rewrite !forallb_app, Db, Dg, lettres_vers_nombres_digits.
      destruct cb; [discriminate|reflexivity]. }
    rewrite Hd. cbn [negb].
    pose proof (Z.mod_pos_bound (int_of base) 97 ltac:(lia)) as Hm.
    assert (Hr : (0 <= 97 - int_of base mod 97 <= 99)%Z) by lia.
    destruct (format_02d_two_digits Hr) as (Hl & _ & Hdg). auto. }
  destruct Hk as [Lk Dk].
  pose proof (nonempty_of_length Lk) as Nk.
  assert (Ha : forallb is_alnum (cb ++ cg ++ nc ++ k) = true).
  { rewrite !forallb_app, An. now rewrite !digits_alnum. }
  rewrite (construire_iban_fr_alnum Nb Ng Nn Nk Ha).
  split; [exact Nk|]. split.
  - apply group4_nonempty. discriminate.
  - now apply is_valid_group4_iban_de.
Qed.

(** Bank 30006, branch 00001, account 12345678901. *)
Lemma cle_rib_then_iban_valid_witness :
  cinq_chiffres (lit "30006") /\ cinq_chiffres (lit "00001")
  /\ compte_valide (lit "12345678901")
  /\ calculer_cle_rib (lit "30006") (lit "00001") (lit "12345678901") <> []
  /\ construire_iban_fr (lit "30006") (lit "00001") (lit "12345678901")
       (calculer_cle_rib (lit "30006") (lit "00001") (lit "12345678901")) <> []
  /\ is_valid
       (construire_iban_fr (lit "30006") (lit "00001") (lit "12345678901")
          (calculer_cle_rib (lit "30006") (lit "00001") (lit "12345678901"))) = true.
Proof.
  assert (B : cinq_chiffres (lit "30006")) by (split; reflexivity).
  assert (G : cinq_chiffres (lit "00001")) by (split; reflexivity).
  assert (N : compte_valide (lit "12345678901")) by (split; reflexivity).
  split; [exact B|]. split; [exact G|]. split; [exact N|].
  exact (cle_rib_then_iban_valid B G N).
Defined.

(** Decomposing a checked text in blocks gives the four slices of what
    follows its first four characters. *)
Lemma decomposer_caps c :
  c <> [] -> forallb upper_or_digit c = true ->
  startswith (lit "FR") c = true -> is_valid c = true ->
  decomposer_iban_fr (group4 4 c) =
  (let bban := skipn 4 c in
   (firstn 5 bban, slice 5 10 bban, slice 10 21 bban, slice 21 23 bban)).
Proof.
  intros N Hc Hs V. unfold decomposer_iban_fr.
  rewrite (proj2 (truthy_nonempty _)) by (now apply group4_nonempty).
  cbn [negb]. rewrite (compact_group4 _ Hc), (upper_caps _ Hc), Hs, V.
  reflexivity.
Qed.

Lemma forme_iban_fr_caps c :
  forme_iban_fr c = true ->
  c <> [] /\ forallb upper_or_digit c = true /\ startswith (lit "FR") c = true.
Proof.
  intros F. unfold forme_iban_fr in F.
  apply andb_true_iff in F as [F Hb]. apply andb_true_iff in F as [F Hd].
  apply andb_true_iff in F as [Hl Hs]. apply Nat.eqb_eq in Hl.
  destruct c as [|f [|r [|d1 [|d2 bban]]]]; try discriminate.
  cbn [skipn] in *. split; [discriminate|]. split; [|exact Hs].
  cbn [startswith lit list_ascii_of_string] in Hs.
  apply andb_true_iff in Hs as [Hf Hs']. apply andb_true_iff in Hs' as [Hr _].
  apply Ascii.eqb_eq in Hf, Hr. subst f r.
  cbn [slice skipn firstn Nat.sub forallb] in Hd.
  apply andb_true_iff in Hd as [H1 Hd]. apply andb_true_iff in Hd as [H2 _].
  cbn [forallb]. unfold upper_or_digit at 3 4, either. rewrite H1, H2, Hb, !orb_true_r.
  reflexivity.
Qed.

Lemma decomposer_canonique c :
  forme_iban_fr c = true -> is_valid c = true ->
  decomposer_iban_fr (group4 4 c) =
  (let bban := skipn 4 c in
   (firstn 5 bban, slice 5 10 bban, slice 10 21 bban, slice 21 23 bban)).
Proof.
  intros F V. destruct (forme_iban_fr_caps _ F) as (N & C & S).
  now apply decomposer_caps.
Qed.

Lemma decomposer_presentation i :
  iban_fr_valide i ->
  decomposer_iban_fr i = decomposer_iban_fr (group4 4 (upper (compact i))).
Proof.
  intros [F V]. rewrite (decomposer_canonique _ F V).
  unfold decomposer_iban_fr.
  destruct i as [|x i]; [discriminate F|].
  cbn [truthy negb].
  unfold forme_iban_fr in F.
  apply andb_true_iff in F as [F _]. apply andb_true_iff in F as [F _].
  apply andb_true_iff in F as [_ Hs].
  rewrite Hs, V. reflexivity.
Qed.

(** The four slices of a BBAN of 23 characters put back together. *)
Lemma slices_bban (b : str) :
  length b = 23 ->
  firstn 5 b ++ slice 5 10 b ++ slice 10 21 b ++ slice 21 23 b = b
  /\ firstn 5 b <> [] /\ slice 5 10 b <> [] /\ slice 10 21 b <> []
  /\ slice 21 23 b <> [].
Proof.
  intros H.
  do 23 (destruct b as [|? b]; [discriminate H|]).
  destruct b; [|discriminate H].
  repeat split; discriminate.
Qed.

(** C2. For every valid French IBAN, decomposing it, rebuilding an IBAN
    from the four components with [construire_iban_fr] and decomposing the
    result again gives the same four components as decomposing it
    directly. *)
Theorem decomposer_construire_stable (i : str) :
  iban_fr_valide i ->
  decomposer_iban_fr
    (let '(cb, cg, nc, cle) := decomposer_iban_fr i in
     construire_iban_fr cb cg nc cle)
  = decomposer_iban_fr i.
Proof.
  intros Hi. pose proof Hi as [F V].
  rewrite (decomposer_presentation Hi), (decomposer_canonique _ F V).
  set (c := upper (compact i)) in *. cbv zeta.
  set (bban := skipn 4 c).
  assert (Hb : forallb upper_or_digit bban = true).
  { unfold forme_iban_fr in F. now apply andb_true_iff in F as [_ F]. }
  assert (Lb : length bban = 23).
  { unfold forme_iban_fr in F.
    apply andb_true_iff in F as [F _]. apply andb_true_iff in F as [F _].
    apply andb_true_iff in F as [F _]. apply Nat.eqb_eq in F.
    unfold bban. rewrite length_skipn. lia. }
  destruct (slices_bban _ Lb) as (E & N1 & N2 & N3 & N4).
  assert (Ha : forallb is_alnum bban = true) by (now apply caps_alnum).
  rewrite (construire_iban_fr_alnum N1 N2 N3 N4) by (now rewrite E).
  rewrite E.
  assert (Fi : forme_iban_fr (iban_de bban) = true).
  { unfold iban_de. destruct (cle_iban_digits _ Ha) as [Lk Dk].
    destruct (cle_iban bban) as [|k1 [|k2 [|? ?]]]; try discriminate.
    unfold forme_iban_fr.
    cbn [lit list_ascii_of_string app skipn slice firstn Nat.sub startswith length].
    rewrite upper_length, Lb, (upper_caps _ Hb), Hb, Dk. reflexivity. }
  assert (Vi : is_valid (iban_de bban) = true).
  { destruct (is_valid_built _ Ha) as [_ Vu]. exact Vu. }
  rewrite (decomposer_canonique _ Fi Vi). cbv zeta.
  replace (skipn 4 (iban_de bban)) with bban; [reflexivity|].
  unfold iban_de. destruct (cle_iban_digits _ Ha) as [Lk _].
  destruct (cle_iban bban) as [|k1 [|k2 [|? ?]]]; try discriminate.
  cbn [lit list_ascii_of_string app skipn]. symmetry. now apply upper_caps.
Qed.

(** The IBAN FR76 3000 6000 0112 3456 7890 189, in blocks and in lower
    case. *)
Lemma decomposer_construire_stable_witness :
  iban_fr_valide (lit "fr76 3000 6000 0112 3456 7890 189")
  /\ decomposer_iban_fr
       (let '(cb, cg, nc, cle) :=
          decomposer_iban_fr (lit "fr76 3000 6000 0112 3456 7890 189") in
        construire_iban_fr cb cg nc cle)
     = decomposer_iban_fr (lit "fr76 3000 6000 0112 3456 7890 189").
Proof.
  assert (V : iban_fr_valide (lit "fr76 3000 6000 0112 3456 7890 189"))
    by (split; vm_compute; reflexivity).
  split; [exact V|]. exact (decomposer_construire_stable V).
Defined.

End RibFacts.

(** ** The matcher finds matches, and finds one whenever there is one *)

Module ReFacts.

Import PyFacts.

Section Sound.

Variable A : Type.

Lemma star_greedy_sound p (k : option ascii -> str -> option A) :
  forall s prev x,
    star_greedy p prev s k = Some x ->
    exists m s' pv, s = m ++ s' /\ forallb p m = true /\ k pv s' = Some x.
Proof.
  induction s as [|c s IH]; intros prev x; cbn [star_greedy].
  - intros H. now exists [], [], prev.
  - destruct (p c) eqn:Hc.
    + destruct (star_greedy p (Some c) s k) as [y|] eqn:Hs.
      * intros E. injection E as <-.
        destruct (IH _ _ Hs) as (m & s' & pv & -> & Hm & Hk).
        exists (c :: m), s', pv. cbn [forallb app]. now rewrite Hc, Hm.
      * intros H. now exists [], (c :: s), prev.
    + intros H. now exists [], (c :: s), prev.
Qed.

Lemma star_lazy_sound p (k : option ascii -> str -> option A) :
  forall s prev x,
    star_lazy p prev s k = Some x ->
    exists m s' pv, s = m ++ s' /\ forallb p m = true /\ k pv s' = Some x.
Proof.
  induction s as [|c s IH]; intros prev x; cbn [star_lazy].
  - destruct (k prev []) as [y|] eqn:Hk; [|discriminate].
    intros E. injection E as <-. now exists [], [], prev.
  - destruct (k prev (c :: s)) as [y|] eqn:Hk.
    + intros E. injection E as <-. now exists [], (c :: s), prev.
    + destruct (p c) eqn:Hc; [|discriminate].
      intros Hs. destruct (IH _ _ Hs) as (m & s' & pv & -> & Hm & Hk').
      exists (c :: m), s', pv. cbn [forallb app]. now rewrite Hc, Hm.
Qed.

Lemma rep_greedy_sound p (k : option ascii -> str -> option A) :
  forall s lo hi prev x,
    rep_greedy p lo hi prev s k = Some x ->
    exists m s' pv,
      s = m ++ s' /\ forallb p m = true /\ lo <= length m <= hi
      /\ k pv s' = Some x.
Proof.
  assert (Stop : forall (s : str) lo hi prev x,
             (if Nat.eqb lo 0 then k prev s else None) = Some x ->
             exists m s' pv,
               s = m ++ s' /\ forallb p m = true /\ lo <= length m <= hi
               /\ k pv s' = Some x).
  { intros s lo hi prev x. destruct (Nat.eqb_spec lo 0) as [->|]; [|discriminate].
    intros H. exists [], s, prev. cbn. repeat split; auto; lia. }
  induction s as [|c s IH]; intros lo hi prev x.
  - destruct hi; cbn [rep_greedy]; apply Stop.
  - destruct hi as [|hi]; cbn [rep_greedy]; [apply Stop|].
    destruct (p c) eqn:Hc; [|apply Stop].
    destruct (rep_greedy p (pred lo) hi (Some c) s k) as [y|] eqn:Hs; [|apply Stop].
    intros E. injection E as <-.
    destruct (IH _ _ _ _ Hs) as (m & s' & pv & -> & Hm & Hl & Hk).
    exists (c :: m), s', pv. cbn [forallb app length]. rewrite Hc, Hm.
    repeat split; auto; lia.
Qed.

(** Soundness: a result of [exec] comes from a text of the shape of the
    pattern at the head of the input, and from the continuation on the
    rest. *)
Lemma exec_sound (r : regex) :
  forall prev s cs (k : option ascii -> str -> caps -> option A) x,
    exec r prev s cs k = Some x ->
    exists m s' pv cs',
      s = m ++ s' /\ sem r m cs cs' /\ k pv s' cs' = Some x.
Proof.
  induction r as [ | p | r1 IH1 r2 IH2 | r1 IH1 r2 IH2 | r1 IH1 | p | p | p lo hi
                 | | n r1 IH1 ]; intros prev s cs k x; cbn [exec sem].
  - intros H. now exists [], s, prev, cs.
  - destruct s as [|c s]; [discriminate|]. destruct (p c) eqn:Hc; [|discriminate].
    intros H. exists [c], s, (Some c), cs. repeat split; eauto.
  - intros H. destruct (IH1 _ _ _ _ _ H) as (m1 & s1 & pv1 & c1 & -> & S1 & H1).
    destruct (IH2 _ _ _ _ _ H1) as (m2 & s2 & pv2 & c2 & -> & S2 & H2).
    exists (m1 ++ m2), s2, pv2, c2. rewrite app_assoc. repeat split; eauto.
    now exists m1, m2, c1.
  - destruct (exec r1 prev s cs k) as [y|] eqn:E1.
    + intros E. injection E as <-.
      destruct (IH1 _ _ _ _ _ E1) as (m & s' & pv & cs' & -> & S1 & H1).
      exists m, s', pv, cs'. auto.
    + intros E2. destruct (IH2 _ _ _ _ _ E2) as (m & s' & pv & cs' & -> & S2 & H2).
      exists m, s', pv, cs'. auto.
  - destruct (exec r1 prev s cs k) as [y|] eqn:E1.
    + intros E. injection E as <-.
      destruct (IH1 _ _ _ _ _ E1) as (m & s' & pv & cs' & -> & S1 & H1).
      exists m, s', pv, cs'. auto.
    + intros H. exists [], s, prev, cs. auto.
  - intros H. destruct (star_greedy_sound _ _ _ _ H) as (m & s' & pv & -> & Hm & Hk).
    exists m, s', pv, cs. auto.
  - intros H. destruct (star_lazy_sound _ _ _ _ H) as (m & s' & pv & -> & Hm & Hk).
    exists m, s', pv, cs. auto.
  - intros H.
    destruct (rep_greedy_sound _ _ _ _ _ _ H) as (m & s' & pv & -> & Hm & Hl & Hk).
    exists m, s', pv, cs. auto.
  - destruct (word_boundary prev s); [|discriminate].
    intros H. now exists [], s, prev, cs.
  - intros H. destruct (IH1 _ _ _ _ _ H) as (m & s' & pv & cs' & -> & S1 & H1).
    rewrite length_app, Nat.add_sub, firstn_app, firstn_all, Nat.sub_diag in H1.
    cbn [firstn] in H1. rewrite app_nil_r in H1.
    exists m, s', pv, ((n, m) :: cs'). repeat split; eauto.
Qed.

End Sound.

Lemma match_here_sound r prev s m cs :
  match_here r prev s = Some (m, cs) ->
  exists s', s = m ++ s' /\ sem r m [] cs.
Proof.
  unfold match_here, accept. intros H.
  destruct (exec_sound _ _ _ _ _ H) as (m' & s' & pv & cs' & -> & S & E).
  injection E as <- <-.
  rewrite length_app, Nat.add_sub, firstn_app, firstn_all, Nat.sub_diag.
  cbn [firstn]. rewrite app_nil_r. now exists s'.
Qed.

Lemma search_from_sound r :
  forall s prev m cs,
    search_from r prev s = Some (m, cs) ->
    exists pre post, s = pre ++ m ++ post /\ sem r m [] cs.
Proof.
  induction s as [|c s IH]; intros prev m cs; cbn [search_from].
  - destruct (match_here r prev []) as [[m' cs']|] eqn:E; [|discriminate].
    intros H. injection H as <- <-.
    destruct (match_here_sound _ _ _ E) as (s' & -> & S). now exists [], s'.
  - destruct (match_here r prev (c :: s)) as [[m' cs']|] eqn:E.
    + intros H. injection H as <- <-.
      destruct (match_here_sound _ _ _ E) as (s' & -> & S). now exists [], s'.
    + intros H. destruct (IH _ _ _ H) as (pre & post & -> & S).
      now exists (c :: pre), post.
Qed.

Lemma search_sound r s m cs :
  search r s = Some (m, cs) ->
  exists pre post, s = pre ++ m ++ post /\ sem r m [] cs.
Proof. apply search_from_sound. Qed.

Lemma finditer_from_sound r :
  forall s prev skip m cs,
    In (m, cs) (finditer_from r prev s skip) ->
    exists pre post, s = pre ++ m ++ post /\ sem r m [] cs.
Proof.
  induction s as [|c s IH]; intros prev skip m cs.
  - destruct skip; cbn [finditer_from]; [|intros []].
    destruct (match_here r prev []) as [[m' cs']|] eqn:E; [|intros []].
    intros [H|[]]. injection H as <- <-.
    destruct (match_here_sound _ _ _ E) as (s' & -> & S). now exists [], s'.
  - assert (Tail : forall pv k,
               In (m, cs) (finditer_from r pv s k) ->
               exists pre post, c :: s = pre ++ m ++ post /\ sem r m [] cs).
    { intros pv k H. destruct (IH _ _ _ _ H) as (pre & post & -> & S).
      now exists (c :: pre), post. }
    destruct skip; cbn [finditer_from]; [|apply Tail].
    destruct (match_here r prev (c :: s)) as [[m' cs']|] eqn:E; [|apply Tail].
    intros [H|H]; [|now apply Tail in H].
    injection H as <- <-.
    destruct (match_here_sound _ _ _ E) as (s' & -> & S). now exists [], s'.
Qed.

Lemma finditer_sound r s m cs :
  In (m, cs) (finditer r s) ->
  exists pre post, s = pre ++ m ++ post /\ sem r m [] cs.
Proof. apply finditer_from_sound. Qed.

Lemma findall_sound r s m :
  In m (findall r s) ->
  exists pre post cs, s = pre ++ m ++ post /\ sem r m [] cs.
Proof.
  unfold findall. rewrite in_map_iff. intros [[m' cs] [<- H]].
  destruct (finditer_sound _ _ _ _ H) as (pre & post & -> & S).
  now exists pre, post, cs.
Qed.

Section Complete.

Variable A : Type.

Lemma star_greedy_complete p (k : option ascii -> str -> option A) s' :
  (forall pv, k pv s' <> None) ->
  forall m prev, forallb p m = true -> star_greedy p prev (m ++ s') k <> None.
Proof.
  intros K. induction m as [|c m IH]; intros prev Hm.
  - cbn [app]. destruct s' as [|c s'']; cbn [star_greedy]; [apply K|].
    destruct (p c); [|apply K].
    destruct (star_greedy p (Some c) s'' k); [discriminate|apply K].
  - cbn [forallb] in Hm. apply andb_true_iff in Hm as [Hc Hm].
    cbn [app star_greedy]. rewrite Hc.
    specialize (IH (Some c) Hm).
    destruct (star_greedy p (Some c) (m ++ s') k); [discriminate|contradiction].
Qed.

Lemma star_lazy_complete p (k : option ascii -> str -> option A) s' :
  (forall pv, k pv s' <> None) ->
  forall m prev, forallb p m = true -> star_lazy p prev (m ++ s') k <> None.
Proof.
  intros K. induction m as [|c m IH]; intros prev Hm.
  - cbn [app]. specialize (K prev).
    destruct s'; cbn [star_lazy]; destruct (k prev _); congruence.
  - cbn [forallb] in Hm. apply andb_true_iff in Hm as [Hc Hm].
    cbn [app star_lazy]. rewrite Hc.
    destruct (k prev (c :: m ++ s')); [discriminate|]. now apply IH.
Qed.

Lemma rep_greedy_complete p (k : option ascii -> str -> option A) s' :
  (forall pv, k pv s' <> None) ->
  forall m lo hi prev,
    forallb p m = true -> lo <= length m <= hi ->
    rep_greedy p lo hi prev (m ++ s') k <> None.
Proof.
  intros K. induction m as [|c m IH]; intros lo hi prev Hm Hl.
  - cbn [length] in Hl. assert (lo = 0) as -> by lia.
    cbn [app]. destruct hi, s' as [|c s'']; cbn [rep_greedy Nat.eqb]; try apply K.
    destruct (p c); [|apply K].
    destruct (rep_greedy p (pred 0) hi (Some c) s'' k); [discriminate|apply K].
  - cbn [forallb] in Hm. apply andb_true_iff in Hm as [Hc Hm].
    cbn [length] in Hl. destruct hi as [|hi]; [lia|].
    cbn [app rep_greedy]. rewrite Hc.
    assert (IH' := IH (pred lo) hi (Some c) Hm ltac:(lia)).
    destruct (rep_greedy p (pred lo) hi (Some c) (m ++ s') k);
      [discriminate|contradiction].
Qed.

(** Completeness: when a text of the shape of a pattern without [\b] stands
    at the head of the input and the continuation accepts what follows, the
    matcher succeeds. *)
Lemma exec_complete (r : regex) :
  sans_frontiere r = true ->
  forall m s' cs cs' prev (k : option ascii -> str -> caps -> option A),
    sem r m cs cs' ->
    (forall pv, k pv s' cs' <> None) ->
    exec r prev (m ++ s') cs k <> None.
Proof.
  induction r as [ | p | r1 IH1 r2 IH2 | r1 IH1 r2 IH2 | r1 IH1 | p | p | p lo hi
                 | | n r1 IH1 ]; cbn [sans_frontiere]; intros F m s' cs cs' prev k;
    cbn [sem exec].
  - intros [-> ->] K. apply K.
  - intros (c & -> & Hc & ->) K. cbn [app]. rewrite Hc. apply K.
  - apply andb_true_iff in F as [F1 F2].
    intros (m1 & m2 & c1 & -> & S1 & S2) K. rewrite <- app_assoc.
    apply (IH1 F1 _ _ _ _ _ _ S1). intros pv. now apply (IH2 F2 _ _ _ _ _ _ S2).
  - apply andb_true_iff in F as [F1 F2].
    intros [S|S] K.
    + specialize (IH1 F1 _ _ _ _ prev _ S K).
      destruct (exec r1 prev (m ++ s') cs k); [discriminate|contradiction].
    + destruct (exec r1 prev (m ++ s') cs k); [discriminate|].
      now apply (IH2 F2 _ _ _ _ _ _ S).
  - intros [S|[-> ->]] K.
    + specialize (IH1 F _ _ _ _ prev _ S K).
      destruct (exec r1 prev (m ++ s') cs k); [discriminate|contradiction].
    + cbn [app]. destruct (exec r1 prev s' cs k); [discriminate|apply K].
  - intros [Hm ->] K. now apply star_greedy_complete.
  - intros [Hm ->] K. now apply star_lazy_complete.
  - intros (Hm & Hl & ->) K. now apply rep_greedy_complete.
  - discriminate.
  - intros (c1 & S & ->) K. apply (IH1 F _ _ _ _ _ _ S). intros pv.
    rewrite length_app, Nat.add_sub, firstn_app, firstn_all, Nat.sub_diag.
    cbn [firstn]. rewrite app_nil_r. apply K.
Qed.

End Complete.

Lemma search_complete r pre m post cs :
  sans_frontiere r = true -> sem r m [] cs ->
  search r (pre ++ m ++ post) <> None.
Proof.
  intros F S. unfold search. generalize (@None ascii) as prev.
  induction pre as [|c pre IH]; intros prev.
  - cbn [app]. assert (H : match_here r prev (m ++ post) <> None).
    { unfold match_here. eapply exec_complete; eauto. intros pv. discriminate. }
    destruct post, m; cbn [app search_from] in *;
      destruct (match_here r prev _); congruence.
  - cbn [app search_from].
    destruct (match_here r prev (c :: pre ++ m ++ post)); [discriminate|apply IH].
Qed.

Lemma sem_Lit s m cs cs' : sem (Lit s) m cs cs' <-> m = s /\ cs' = cs.
Proof.
  revert m cs cs'; induction s as [|c s IH]; intros m cs cs'; cbn [Lit sem].
  - tauto.
  - split.
    + intros (m1 & m2 & c1 & -> & (x & -> & Hx & ->) & S).
      apply IH in S as [-> ->]. unfold one in Hx. apply Ascii.eqb_eq in Hx.
      now subst x.
    + intros [-> ->]. exists [c], s, cs. split; [reflexivity|]. split.
      * exists c. unfold one. now rewrite Ascii.eqb_refl.
      * now apply IH.
Qed.

Lemma sans_frontiere_Lit s : sans_frontiere (Lit s) = true.
Proof. induction s as [|c s IH]; cbn [Lit sans_frontiere andb]; auto. Qed.

(** Without [\b] the matcher does not look at the character before the
    position: only the text that remains counts. *)
Section Insensible.

Variable A : Type.

Lemma star_greedy_prev p (k1 k2 : option ascii -> str -> option A) :
  (forall pv1 pv2 s, k1 pv1 s = k2 pv2 s) ->
  forall s p1 p2, star_greedy p p1 s k1 = star_greedy p p2 s k2.
Proof.
  intros H. induction s as [|c s IH]; intros p1 p2; cbn [star_greedy]; [apply H|].
  destruct (p c); [|apply H].
  now rewrite (IH (Some c) (Some c)), (H p1 p2).
Qed.

Lemma star_lazy_prev p (k1 k2 : option ascii -> str -> option A) :
  (forall pv1 pv2 s, k1 pv1 s = k2 pv2 s) ->
  forall s p1 p2, star_lazy p p1 s k1 = star_lazy p p2 s k2.
Proof.
  intros H. induction s as [|c s IH]; intros p1 p2; cbn [star_lazy];
    rewrite (H p1 p2); [reflexivity|].
  destruct (k2 p2 (c :: s)); [reflexivity|].
  destruct (p c); [apply IH|reflexivity].
Qed.

Lemma rep_greedy_prev p (k1 k2 : option ascii -> str -> option A) :
  (forall pv1 pv2 s, k1 pv1 s = k2 pv2 s) ->
  forall s lo hi p1 p2, rep_greedy p lo hi p1 s k1 = rep_greedy p lo hi p2 s k2.
Proof.
  intros H. induction s as [|c s IH]; intros lo hi p1 p2;
    destruct hi as [|hi]; cbn [rep_greedy]; rewrite ?(H p1 p2); try reflexivity.
  destruct (p c); [|reflexivity].
  now rewrite (IH (pred lo) hi (Some c) (Some c)).
Qed.

Lemma exec_prev (r : regex) :
  sans_frontiere r = true ->
  forall k1 k2 : option ascii -> str -> caps -> option A,
    (forall pv1 pv2 s cs, k1 pv1 s cs = k2 pv2 s cs) ->
    forall p1 p2 s cs, exec r p1 s cs k1 = exec r p2 s cs k2.
Proof.
  induction r as [ | p | r1 IH1 r2 IH2 | r1 IH1 r2 IH2 | r1 IH1 | p | p | p lo hi
                 | | n r1 IH1 ]; cbn [sans_frontiere]; intros F k1 k2 H p1 p2 s cs;
    cbn [exec].
  - apply H.
  - destruct s as [|c s]; [reflexivity|]. destruct (p c); [apply H|reflexivity].
  - apply andb_true_iff in F as [F1 F2]. apply (IH1 F1).
    intros pv1 pv2 s' cs'. now apply (IH2 F2).
  - apply andb_true_iff in F as [F1 F2].
    now rewrite (IH1 F1 k1 k2 H p1 p2), (IH2 F2 k1 k2 H p1 p2).
  - now rewrite (IH1 F k1 k2 H p1 p2), (H p1 p2).
  - apply star_greedy_prev. intros; apply H.
  - apply star_lazy_prev. intros; apply H.
  - apply rep_greedy_prev. intros; apply H.
  - discriminate F.
  - apply (IH1 F). intros; apply H.
Qed.

(** A literal is the test [startswith]. *)
Lemma exec_Lit o (k : option ascii -> str -> caps -> option A) :
  (forall pv1 pv2 s cs, k pv1 s cs = k pv2 s cs) ->
  forall prev s cs,
    exec (Lit o) prev s cs k =
    if startswith o s then k None (skipn (length o) s) cs else None.
Proof.
  intros H. induction o as [|c o IH]; intros prev s cs.
  - cbn [Lit exec startswith length skipn]. apply H.
  - cbn [Lit exec]. destruct s as [|x s]; [reflexivity|].
    cbn [startswith length skipn]. unfold one. rewrite (Ascii.eqb_sym x c).
    destruct (Ascii.eqb c x); cbn [andb]; [apply IH|reflexivity].
Qed.

(** Blanks before something that is not a blank: all of them are passed. *)
Lemma star_greedy_lstrip (k : option ascii -> str -> option A) :
  (forall pv1 pv2 s, k pv1 s = k pv2 s) ->
  (forall pv c s, is_space c = true -> k pv (c :: s) = None) ->
  forall s prev, star_greedy is_space prev s k = k None (lstrip s).
Proof.
  intros H N. induction s as [|c s IH]; intros prev; cbn [star_greedy lstrip].
  - apply H.
  - destruct (is_space c) eqn:E; [|apply H].
    rewrite IH, (N prev c s E). now destruct (k None (lstrip s)).
Qed.

End Insensible.

End ReFacts.

(** ** src/utils.py: the IBAN search *)

Module IbanSearchFacts.

Import PyFacts IbanFacts ReFacts Utils iban_lib.

Lemma insert_by_in h x y l : In x (insert_by h y l) -> x = y \/ In x l.
Proof.
  induction l as [|z l IH]; cbn [insert_by].
  - intros [H|[]]; auto.
  - destruct (h y <=? h z).
    + intros [H|H]; auto.
    + intros [H|H]; [right; now left|].
      destruct (IH H); [now left|right; now right].
Qed.

(** Whatever the hash, the iteration over a set only yields its elements. *)
Lemma set_iter_in h l x : In x (set_iter h l) -> In x l.
Proof.
  unfold set_iter. rewrite <- (nodup_In (list_eq_dec ascii_dec) l x).
  induction (nodup (list_eq_dec ascii_dec) l) as [|y n IH]; cbn [fold_right].
  - intros [].
  - intros H. destruct (insert_by_in _ _ _ _ H) as [->|H']; [now left|right; auto].
Qed.

(** A text of the shape [FR\d{2}[A-Z0-9]{23}]. *)
Lemma sem_PAT_IBAN_FR_COMPACT m cs cs' :
  sem PAT_IBAN_FR_COMPACT m cs cs' ->
  length m = 27 /\ startswith (lit "FR") m = true
  /\ forallb upper_or_digit m = true.
Proof.
  unfold PAT_IBAN_FR_COMPACT.
  cbn [Cat Lit lit list_ascii_of_string sem].
  intros (m1 & m2 & c1 & -> & S1 & m3 & m4 & c2 & -> & S3 & S4).
  destruct S1 as (f & x & c3 & -> & (cf & -> & Hf & _) & r & y & c4 & -> &
                    (cr & -> & Hr & _) & -> & _).
  destruct S3 as (Hd & Ld & _). destruct S4 as (Hb & Lb & _).
  unfold one in Hf, Hr. apply Ascii.eqb_eq in Hf, Hr. subst cf cr.
  cbn [app length startswith Ascii.eqb Bool.eqb andb].
  rewrite length_app. split; [lia|]. split; [reflexivity|].
  cbn [forallb]. rewrite forallb_app, Hb, andb_true_r.
  replace (forallb upper_or_digit m3) with true; [reflexivity|].
  symmetry. rewrite forallb_forall in *. intros c Hc.
  unfold upper_or_digit, either. now rewrite (Hd c Hc), orb_true_r.
Qed.

(** The group of a labelled match is the end of the match. *)
Lemma sem_PAT_IBAN_LABEL m cs :
  sem PAT_IBAN_LABEL m [] cs -> exists a, m = a ++ group 1 cs.
Proof.
  unfold PAT_IBAN_LABEL.
  cbn [Cat LitI lit list_ascii_of_string sem].
  intros (m1 & m2 & c1 & -> & [-> ->] & S).
  destruct S as (m3 & m4 & c2 & -> & S3 & S).
  destruct S as (m5 & m6 & c3 & -> & [-> ->] & S).
  destruct S as (m7 & m8 & c4 & -> & [_ ->] & S).
  destruct S as (m9 & m10 & c5 & -> & S9 & S).
  destruct S as (m11 & m12 & c6 & -> & [_ ->] & S).
  destruct S as (c7 & [_ [_ ->]] & ->).
  cbn [group Nat.eqb].
  exists ([] ++ m3 ++ [] ++ m7 ++ m9 ++ m11). now rewrite <- !app_assoc.
Qed.

Lemma startswith_firstn p n s :
  length p <= n -> startswith p (firstn n s) = startswith p s.
Proof.
  revert n s; induction p as [|a p IH]; intros n s H; [reflexivity|].
  destruct n; [cbn in H; lia|]. destruct s as [|b s]; [reflexivity|].
  cbn [firstn startswith]. rewrite IH; [reflexivity|cbn in H; lia].
Qed.

Lemma compacter_app a b : compacter (a ++ b) = compacter a ++ compacter b.
Proof. apply filter_app. Qed.

Lemma compacter_alnum s : forallb is_alnum (compacter s) = true.
Proof.
  unfold compacter. apply forallb_forall. intros x Hx.
  now apply filter_In in Hx.
Qed.

Lemma iban_par_label_cases t ms :
  (forall m cs, In (m, cs) ms ->
     exists pre post, t = pre ++ group 1 cs ++ post) ->
  iban_par_label ms = []
  \/ exists x, bloc_fr27 t x /\ iban_par_label ms = group4 4 x.
Proof.
  induction ms as [|[m cs] ms IH]; intros Hms; cbn [iban_par_label]; [now left|].
  assert (IH' := IH (fun m' cs' H => Hms m' cs' (or_intror H))).
  cbn [snd].
  set (e := upper (compacter (group 1 cs))).
  destruct (startswith (lit "FR") e && (27 <=? length e)) eqn:C; [|exact IH'].
  destruct (is_valid (firstn 27 e)) eqn:V; [|exact IH'].
  right. exists (firstn 27 e).
  apply andb_true_iff in C as [Cs Cl]. apply Nat.leb_le in Cl.
  assert (Ce : forallb upper_or_digit e = true)
    by (apply upper_alnum_caps, compacter_alnum).
  assert (Cf : forallb upper_or_digit (firstn 27 e) = true)
    by (now apply forallb_firstn).
  split; [|now apply format_caps].
  split; [|split; [|split; [|split]]]; auto.
  - destruct (Hms m cs (or_introl eq_refl)) as (pre & post & ->).
    rewrite !compacter_app, !upper_app. fold e.
    exists (upper (compacter pre)), (skipn 27 e ++ upper (compacter post)).
    now rewrite (app_assoc (firstn 27 e)), firstn_skipn.
  - rewrite length_firstn. lia.
  - rewrite startswith_firstn; [exact Cs|cbn; lia].
Qed.

Lemma extraire_iban_valide_cases h t :
  extraire_iban_valide h t = []
  \/ exists x, bloc_fr27 t x /\ extraire_iban_valide h t = group4 4 x.
Proof.
  unfold extraire_iban_valide.
  destruct (find is_valid (set_iter h (findall PAT_IBAN_FR_COMPACT (upper (compacter t)))))
    as [cand|] eqn:F.
  - right. exists cand. apply find_some in F as [Hin V].
    apply set_iter_in, findall_sound in Hin as (pre & post & cs & E & S).
    apply sem_PAT_IBAN_FR_COMPACT in S as (L & St & C).
    split; [|now apply format_caps].
    split; [now exists pre, post|auto].
  - apply iban_par_label_cases. intros m cs Hin.
    apply finditer_sound in Hin as (pre & post & -> & S).
    apply sem_PAT_IBAN_LABEL in S as (a & ->).
    exists (pre ++ a), post. now rewrite <- !app_assoc.
Qed.

(** C5, as the code has it. [extraire_iban_valide] returns the absent marker
    or a string whose compacted form passes the mod-97 checksum; and it
    returns absent for every text whose compacted upper-case form contains
    no block of 27 characters beginning with FR (FR followed by 25
    alphanumerics: the labelled search does not ask characters 3-4 to be
    digits). *)
Theorem extraire_iban_valide_checked (h : str -> nat) (t : str) :
  (extraire_iban_valide h t = []
   \/ is_valid (compacter (extraire_iban_valide h t)) = true)
  /\ (sans_fr27 (upper (compacter t)) -> extraire_iban_valide h t = []).
Proof.
  destruct (extraire_iban_valide_cases h t) as [E|(x & B & E)].
  - split; [now left|auto].
  - destruct B as ((pre & post & Hx) & L & S & C & V). split.
    + right. rewrite E, compacter_group4; auto.
    + intros N. rewrite (N _ _ _ Hx L) in S. discriminate.
Qed.

(** A labelled IBAN and a text without IBAN. *)
Lemma extraire_iban_valide_checked_witness :
  is_valid
    (compacter
       (extraire_iban_valide (fun _ => 0)
          (lit "IBAN: FR76 3000 6000 0112 3456 7890 189"))) = true
  /\ sans_fr27 (upper (compacter (lit "RIB sans IBAN")))
  /\ extraire_iban_valide (fun _ => 0) (lit "RIB sans IBAN") = [].
Proof.
  assert (N : sans_fr27 (upper (compacter (lit "RIB sans IBAN")))).
  { intros pre x post E L. apply (f_equal (@length ascii)) in E.
    rewrite !length_app, L in E.
    match type of E with
    | ?a = _ => let v := eval vm_compute in a in change a with v in E
    end.
    lia. }
  split; [reflexivity|]. split; [exact N|].
  exact (proj2 (extraire_iban_valide_checked (fun _ => 0) (lit "RIB sans IBAN")) N).
Defined.

(** C5 as stated fails on the labelled search: the text below has no
    FR + 2 digits + 23 alphanumerics in its compacted form (characters 3-4
    are G9), yet its 27 characters pass the mod-97 checksum and are
    returned. *)
Lemma extraire_iban_valide_sans_forme_fr :
  contient_forme_fr
    (upper (compacter (lit "IBAN FRG9 3000 6000 0112 3456 7890 189"))) = false
  /\ extraire_iban_valide (fun _ => 0)
       (lit "IBAN FRG9 3000 6000 0112 3456 7890 189")
     = lit "FRG9 3000 6000 0112 3456 7890 189".
Proof. split; vm_compute; reflexivity. Qed.

End IbanSearchFacts.

(** ** The BIC extractors of src/utils.py and src/rib_extractor.py *)

Module BicFacts.

Import PyFacts ReFacts UtilsFacts.

Lemma bic_fr_forme b : bic_fr b -> bic_forme b /\ slice 4 6 b = lit "FR".
Proof.
  intros (L & A4 & A2 & F). split; [split|]; auto.
  assert (6 <= length b) by (destruct L; lia).
  do 6 (destruct b as [|? b]; [cbn in *; lia|]).
  cbn [firstn slice skipn Nat.sub forallb] in *.
  rewrite !andb_true_iff in *. tauto.
Qed.

Lemma premier_valide_cases bic_lib cands :
  Utils.premier_valide bic_lib cands = []
  \/ bic_fr (Utils.premier_valide bic_lib cands).
Proof.
  induction cands as [|c cs IH]; cbn [Utils.premier_valide]; [now left|].
  destruct (truthy (Utils.valider_normaliser_bic bic_lib c)) eqn:T; [|exact IH].
  destruct (valider_normaliser_bic_cases bic_lib c) as [E|[E B]].
  - rewrite E in T. discriminate.
  - right. now rewrite E.
Qed.

Lemma utils_bic_par_label_cases bic_lib lignes :
  Utils.bic_par_label bic_lib lignes = []
  \/ bic_fr (Utils.bic_par_label bic_lib lignes).
Proof.
  induction lignes as [|l ls IH]; cbn [Utils.bic_par_label]; [now left|].
  destruct (search Utils.PAT_BIC l); [|exact IH].
  match goal with |- context [truthy ?x] => destruct (truthy x) eqn:T1 end.
  - match type of T1 with truthy ?x = true =>
      destruct (premier_valide_cases bic_lib
                  (findall Utils.PAT_BIC_CODE
                     (filter Utils.upper_or_digit
                        (upper (join ["010"%char] (firstn 6 (l :: ls))))))) as [E|B]
    end; [rewrite E in T1; discriminate|now right].
  - match goal with |- context [truthy ?x] => destruct (truthy x) eqn:T2 end;
      [|exact IH].
    destruct (premier_valide_cases bic_lib
                (findall Utils.PAT_BIC_CODE
                   (upper (join ["010"%char] (firstn 6 (l :: ls)))))) as [E|B];
      [rewrite E in T2; discriminate|now right].
Qed.

(** The extractor of src/utils.py only returns French BICs. *)
Lemma utils_extraire_bic_valide_cases bic_lib texte :
  Utils.extraire_bic_valide bic_lib texte = []
  \/ bic_fr (Utils.extraire_bic_valide bic_lib texte).
Proof.
  unfold Utils.extraire_bic_valide.
  destruct (truthy (Utils.bic_par_label bic_lib (splitlines texte))) eqn:T.
  - destruct (utils_bic_par_label_cases bic_lib (splitlines texte)) as [E|B];
      [rewrite E in T; discriminate|now right].
  - apply premier_valide_cases.
Qed.

(** A text of the shape [[A-Z]{4}[A-Z]{2}[A-Z0-9]{2}(?:[A-Z0-9]{3})?]. *)
Lemma sem_PAT_BIC_CODE m cs cs' :
  sem Utils.PAT_BIC_CODE m cs cs' -> bic_forme m.
Proof.
  unfold Utils.PAT_BIC_CODE. cbn [Cat sem].
  intros (m0 & m1 & c0 & -> & [-> _] & S).
  destruct S as (a & m2 & c1 & -> & (Ha & La & _) & S).
  destruct S as (b & m3 & c2 & -> & (Hb & Lb & _) & S).
  destruct S as (c & m4 & c3 & -> & (Hc & Lc & _) & S).
  destruct S as (d & m5 & c4 & -> & Sd & [-> _]).
  assert (Ld : length d = 3 \/ length d = 0).
  { destruct Sd as [(_ & L & _)|[-> _]]; [left; lia|now right]. }
  do 4 (destruct a as [|? a]; [cbn in La; lia|]).
  destruct a; [|cbn in La; lia].
  do 2 (destruct b as [|? b]; [cbn in Lb; lia|]).
  destruct b; [|cbn in Lb; lia].
  split.
  - cbn [app length]. rewrite !length_app. cbn [length]. destruct Ld; lia.
  - cbn [app firstn forallb] in *.
    rewrite !andb_true_iff in *.
    repeat split; apply upper_is_alpha; tauto.
Qed.

Lemma bic_dans_candidats_in bic_lib cands b :
  RibExtractor.bic_dans_candidats bic_lib cands = Some b -> In b cands.
Proof.
  induction cands as [|c cs IH]; cbn [RibExtractor.bic_dans_candidats];
    [discriminate|].
  destruct (RibExtractor.structure_ok c); [|intros H; right; auto].
  destruct (RibExtractor.mot_adresse c); [intros H; right; auto|].
  destruct bic_lib as [v|]; [destruct (v c)|]; intros H; injection H as <-; now left.
Qed.

Lemma bic_dans_fenetre_forme bic_lib fenetre b :
  RibExtractor.bic_dans_fenetre bic_lib fenetre = Some b -> bic_forme b.
Proof.
  induction fenetre as [|l ls IH]; cbn [RibExtractor.bic_dans_fenetre];
    [discriminate|].
  destruct (RibExtractor.bic_dans_candidats bic_lib
              (findall RibExtractor.PAT_BIC_CODE (upper l))) as [c|] eqn:E; [|exact IH].
  intros H. injection H as <-.
  apply bic_dans_candidats_in, findall_sound in E as (pre & post & cs & _ & S).
  eapply sem_PAT_BIC_CODE; exact S.
Qed.

Lemma rib_bic_par_label_forme bic_lib lignes b :
  RibExtractor.bic_par_label bic_lib lignes = Some b -> bic_forme b.
Proof.
  induction lignes as [|l ls IH]; cbn [RibExtractor.bic_par_label];
    [discriminate|].
  destruct (search RibExtractor.PAT_BIC l); [|exact IH].
  destruct (RibExtractor.bic_dans_fenetre bic_lib (firstn 6 (l :: ls))) as [c|] eqn:E;
    [|exact IH].
  intros H. injection H as <-. eapply bic_dans_fenetre_forme; exact E.
Qed.

(** The extractor of src/rib_extractor.py only returns texts of the
    structural shape. *)
Lemma rib_extraire_bic_valide_cases bic_lib texte :
  RibExtractor.extraire_bic_valide bic_lib texte = []
  \/ bic_forme (RibExtractor.extraire_bic_valide bic_lib texte).
Proof.
  unfold RibExtractor.extraire_bic_valide.
  destruct (RibExtractor.bic_par_label bic_lib (split_nl texte)) as [b|] eqn:E.
  - right. eapply rib_bic_par_label_forme; exact E.
  - unfold RibExtractor.bic_brut.
    destruct (find _ _) as [b|] eqn:F; [|now left].
    right. apply find_some in F as [Hin _].
    apply findall_sound in Hin as (pre & post & cs & _ & S).
    eapply sem_PAT_BIC_CODE; exact S.
Qed.

(** C9, as the code has it. The two extractors are not equivalent. Both
    return the absent marker or a text of 8 or 11 characters whose first six
    are alphabetic; the one of src/utils.py moreover only returns codes whose
    characters 5-6 are FR. Each can find a code where the other finds none:
    on TOULOUSE only src/rib_extractor.py answers, on the spaced code
    "bous frpp" only src/utils.py does. *)
Theorem extraire_bic_valide_two_versions (bic_lib : option (str -> bool)) (texte : str) :
  (Utils.extraire_bic_valide bic_lib texte = []
   \/ (bic_forme (Utils.extraire_bic_valide bic_lib texte)
       /\ slice 4 6 (Utils.extraire_bic_valide bic_lib texte) = lit "FR"))
  /\ (RibExtractor.extraire_bic_valide bic_lib texte = []
      \/ bic_forme (RibExtractor.extraire_bic_valide bic_lib texte))
  /\ (Utils.extraire_bic_valide None (lit "TOULOUSE") = []
      /\ RibExtractor.extraire_bic_valide None (lit "TOULOUSE") = lit "TOULOUSE")
  /\ (Utils.extraire_bic_valide None (lit "bous frpp") = lit "BOUSFRPP"
      /\ RibExtractor.extraire_bic_valide None (lit "bous frpp") = []).
Proof.
  split; [|split; [|split; split; vm_compute; reflexivity]].
  - destruct (utils_extraire_bic_valide_cases bic_lib texte) as [E|B];
      [now left|right; now apply bic_fr_forme].
  - apply rib_extraire_bic_valide_cases.
Qed.

(** C9 as stated fails: on the text TOULOUSE the extractor of src/utils.py
    returns the absent marker and the one of src/rib_extractor.py returns
    TOULOUSE. *)
Lemma extraire_bic_valide_differ :
  Utils.extraire_bic_valide None (lit "TOULOUSE") = []
  /\ RibExtractor.extraire_bic_valide None (lit "TOULOUSE") = lit "TOULOUSE"
  /\ str_eqb (Utils.extraire_bic_valide None (lit "TOULOUSE"))
       (RibExtractor.extraire_bic_valide None (lit "TOULOUSE")) = false.
Proof. repeat split; vm_compute; reflexivity. Qed.

End BicFacts.

(** ** The rows of the three main loops *)

Module LoopFacts.

Import PyFacts IbanFacts UtilsFacts RibFacts IbanSearchFacts BicFacts Utils.

Lemma quadruple_eq (A : Type) (a b c d a' b' c' d' : A) :
  (a, b, c, d) = (a', b', c', d') -> a = a' /\ b = b' /\ c = c' /\ d = d'.
Proof. intros H. injection H. auto. Qed.

(** The values derived from the IBAN are made of capitals and digits. *)
Lemma issu_iban_caps h tclean a b c d :
  issu_iban h tclean = (a, b, c, d) ->
  forallb upper_or_digit a = true /\ forallb upper_or_digit b = true
  /\ forallb upper_or_digit c = true /\ forallb upper_or_digit d = true.
Proof.
  unfold issu_iban.
  destruct (extraire_iban_valide_cases h tclean) as [E|(x & B & E)]; rewrite E.
  - cbn [truthy]. unfold absent4. intros H. injection H as <- <- <- <-. auto.
  - destruct B as (_ & L & S & C & V).
    assert (N : x <> []) by (destruct x; [discriminate L|discriminate]).
    rewrite (proj2 (truthy_nonempty _)) by (now apply group4_nonempty).
    rewrite (decomposer_caps N C S V). cbv zeta.
    intros H. apply quadruple_eq in H as (<- & <- & <- & <-).
    assert (Cs : forallb upper_or_digit (skipn 4 x) = true)
      by (now apply forallb_skipn).
    repeat split;
      first [ apply forallb_slice; exact Cs | apply forallb_firstn; exact Cs ].
Qed.

Lemma nz_caps v :
  v <> [] -> forallb upper_or_digit v = true -> AppWithOcr.nz v = v.
Proof.
  intros N C. unfold AppWithOcr.nz.
  rewrite strip_no_space by (now apply alnum_no_space, caps_alnum).
  now rewrite (proj2 (truthy_nonempty _) N).
Qed.

Lemma ou_present a b : a <> [] -> ou a b = a.
Proof. intros N. unfold ou. now rewrite (proj2 (truthy_nonempty _) N). Qed.

Lemma ou_absent b : ou [] b = b.
Proof. reflexivity. Qed.

(** The merge is the same text in both loops. *)
Lemma reconcilier_same h tit dom tclean :
  AppWithOcr.reconcilier h tit dom tclean = RibExtractor.reconcilier h tit dom tclean.
Proof. reflexivity. Qed.

Lemma reconcilier_fields h tit dom tclean i_cb i_cg i_nc i_cle :
  issu_iban h tclean = (i_cb, i_cg, i_nc, i_cle) ->
  let lb := extraire_par_libelles tit dom tclean in
  let r := RibExtractor.reconcilier h tit dom tclean in
  r_cb r = ou i_cb (lb_cb lb) /\ r_cg r = ou i_cg (lb_cg lb)
  /\ r_nc r = ou i_nc (lb_nc lb)
  /\ (ou i_cle (lb_cle lb) <> [] -> r_cle r = ou i_cle (lb_cle lb)).
Proof.
  intros H lb r. subst r. unfold RibExtractor.reconcilier.
  unfold issu_iban in H. rewrite H. fold lb. cbn [r_cb r_cg r_nc r_cle].
  repeat split. intros N.
  now rewrite (proj2 (truthy_nonempty _) N).
Qed.

(** C7. In both OCR loops the reconciled bank code, branch code, account
    number and key follow the precedence field by field: a value derived
    from the IBAN, when present, is the reconciled value whatever the labels
    gave, and the emitted row holds it (after the quote that
    src/rib_extractor.py puts before every coded field); the value found by
    the labels is used only when the IBAN gave none. *)
Theorem reconciliation_precedence
    (h : str -> nat) (bic_lib : option (str -> bool)) (tit dom : str -> str)
    (fichier texte i_cb i_cg i_nc i_cle : str) :
  issu_iban h (nettoyer texte) = (i_cb, i_cg, i_nc, i_cle) ->
  let tclean := nettoyer texte in
  let lb := extraire_par_libelles tit dom tclean in
  let lo := AppWithOcr.traiter h bic_lib tit dom fichier texte in
  let lr := RibExtractor.traiter h bic_lib tit dom fichier texte in
  (forall r,
     r = AppWithOcr.reconcilier h tit dom tclean
     \/ r = RibExtractor.reconcilier h tit dom tclean ->
     (i_cb <> [] -> r_cb r = i_cb) /\ (i_cb = [] -> r_cb r = lb_cb lb)
     /\ (i_cg <> [] -> r_cg r = i_cg) /\ (i_cg = [] -> r_cg r = lb_cg lb)
     /\ (i_nc <> [] -> r_nc r = i_nc) /\ (i_nc = [] -> r_nc r = lb_nc lb)
     /\ (i_cle <> [] -> r_cle r = i_cle)
     /\ (i_cle = [] -> lb_cle lb <> [] -> r_cle r = lb_cle lb))
  /\ (truthy (strip tclean) = true ->
      (i_cb <> [] -> AppWithOcr.Code_Banque lo = i_cb)
      /\ (i_cg <> [] -> AppWithOcr.Code_Guichet lo = i_cg)
      /\ (i_nc <> [] -> AppWithOcr.No_de_compte lo = i_nc)
      /\ (i_cle <> [] -> AppWithOcr.Cle_RIB lo = i_cle))
  /\ (i_cb <> [] -> RibExtractor.Code_Banque lr = "'"%char :: i_cb)
  /\ (i_cg <> [] -> RibExtractor.Code_Guichet lr = "'"%char :: i_cg)
  /\ (i_nc <> [] -> RibExtractor.No_de_compte lr = "'"%char :: i_nc)
  /\ (i_cle <> [] -> RibExtractor.Cle_RIB lr = "'"%char :: i_cle).
Proof.
  intros H tclean lb lo lr.
  destruct (@issu_iban_caps h _ _ _ _ _ H) as (Ca & Cb & Cc & Cd).
  destruct (@reconcilier_fields h tit dom _ _ _ _ _ H) as (Ea & Eb & Ec & Ed).
  fold tclean lb in Ea, Eb, Ec, Ed.
  set (rr := RibExtractor.reconcilier h tit dom tclean) in *.
  assert (Pa : i_cb <> [] -> r_cb rr = i_cb) by (intros N; now rewrite Ea, ou_present).
  assert (Pb : i_cg <> [] -> r_cg rr = i_cg) by (intros N; now rewrite Eb, ou_present).
  assert (Pc : i_nc <> [] -> r_nc rr = i_nc) by (intros N; now rewrite Ec, ou_present).
  assert (Pd : i_cle <> [] -> r_cle rr = i_cle).
  { intros N. rewrite (ou_present _ N) in Ed. now apply Ed. }
  split; [|split].
  - intros r Hr.
    assert (r = rr) as -> by (destruct Hr as [->| ->]; reflexivity).
    repeat split; auto.
    + intros ->. now rewrite Ea.
    + intros ->. now rewrite Eb.
    + intros ->. now rewrite Ec.
    + intros -> N. rewrite ou_absent in Ed. now apply Ed.
  - intros T. subst lo. unfold AppWithOcr.traiter. fold tclean. rewrite T.
    cbn [negb AppWithOcr.Code_Banque AppWithOcr.Code_Guichet
         AppWithOcr.No_de_compte AppWithOcr.Cle_RIB].
    change (AppWithOcr.reconcilier h tit dom tclean) with rr.
    repeat split; intros N.
    + rewrite (Pa N). now apply nz_caps.
    + rewrite (Pb N). now apply nz_caps.
    + rewrite (Pc N). now apply nz_caps.
    + rewrite (Pd N). now apply nz_caps.
  - subst lr. unfold RibExtractor.traiter. fold tclean.
    cbn [RibExtractor.Code_Banque RibExtractor.Code_Guichet
         RibExtractor.No_de_compte RibExtractor.Cle_RIB].
    fold rr. unfold RibExtractor.nz.
    repeat split; intros N.
    + now rewrite (Pa N), (proj2 (truthy_nonempty _) N).
    + now rewrite (Pb N), (proj2 (truthy_nonempty _) N).
    + now rewrite (Pc N), (proj2 (truthy_nonempty _) N).
    + now rewrite (Pd N), (proj2 (truthy_nonempty _) N).
Qed.

(** A text whose IBAN and whose label disagree on the bank code: the IBAN
    wins, in the reconciled values and in both rows. *)
Lemma reconciliation_precedence_witness :
  let texte := lit "IBAN: FR76 3000 6000 0112 3456 7890 189 Code Banque 99999" in
  let vide := fun _ : str => @nil ascii in
  issu_iban (fun _ => 0) (nettoyer texte)
    = (lit "30006", lit "00001", lit "12345678901", lit "89")
  /\ lb_cb (extraire_par_libelles vide vide (nettoyer texte)) = lit "99999"
  /\ r_cb (AppWithOcr.reconcilier (fun _ => 0) vide vide (nettoyer texte)) = lit "30006"
  /\ AppWithOcr.Code_Banque
       (AppWithOcr.traiter (fun _ => 0) None vide vide (lit "rib.pdf") texte)
     = lit "30006"
  /\ RibExtractor.Code_Banque
       (RibExtractor.traiter (fun _ => 0) None vide vide (lit "rib.pdf") texte)
     = lit "'30006".
Proof.
  intros texte vide.
  assert (H : issu_iban (fun _ => 0) (nettoyer texte)
              = (lit "30006", lit "00001", lit "12345678901", lit "89"))
    by (vm_compute; reflexivity).
  assert (N : lit "30006" <> []) by discriminate.
  destruct (@reconciliation_precedence (fun _ => 0) None vide vide (lit "rib.pdf")
              texte _ _ _ _ H) as (A & B & C & _).
  split; [exact H|]. split; [vm_compute; reflexivity|].
  split; [exact (proj1 (A _ (or_introl eq_refl)) N)|].
  split; [|exact (C N)].
  assert (T : truthy (strip (nettoyer texte)) = true) by (vm_compute; reflexivity).
  exact (proj1 (B T) N).
Defined.

(** The BIC fields of the rows. *)
Lemma ocr_bic_field h bic_lib tit dom fichier texte :
  AppWithOcr.BIC_SWIFT (AppWithOcr.traiter h bic_lib tit dom fichier texte)
    <> AppWithOcr.MANQUANT ->
  AppWithOcr.BIC_SWIFT (AppWithOcr.traiter h bic_lib tit dom fichier texte)
    = Utils.extraire_bic_valide bic_lib (nettoyer texte)
  /\ Utils.extraire_bic_valide bic_lib (nettoyer texte) <> [].
Proof.
  unfold AppWithOcr.traiter.
  destruct (truthy (strip (nettoyer texte))); cbn [negb].
  - cbn [AppWithOcr.BIC_SWIFT]. unfold AppWithOcr.nz.
    destruct (truthy (strip (Utils.extraire_bic_valide bic_lib (nettoyer texte))))
      eqn:T; [|congruence].
    intros _. split; [reflexivity|]. intros E. rewrite E in T. discriminate.
  - cbn [AppWithOcr.ligne_erreur AppWithOcr.BIC_SWIFT]. congruence.
Qed.

Lemma rib_bic_field h bic_lib tit dom fichier texte :
  RibExtractor.BIC_SWIFT (RibExtractor.traiter h bic_lib tit dom fichier texte)
    <> RibExtractor.MANQUANT ->
  RibExtractor.BIC_SWIFT (RibExtractor.traiter h bic_lib tit dom fichier texte)
    = RibExtractor.extraire_bic_valide bic_lib (nettoyer texte)
  /\ RibExtractor.extraire_bic_valide bic_lib (nettoyer texte) <> [].
Proof.
  unfold RibExtractor.traiter. cbn [RibExtractor.BIC_SWIFT]. unfold RibExtractor.nz.
  destruct (truthy (RibExtractor.extraire_bic_valide bic_lib (nettoyer texte)))
    eqn:T; [|congruence].
  intros _. split; [reflexivity|]. now apply truthy_nonempty.
Qed.

Lemma some_eq (A : Type) (a b : A) : Some a = Some b -> a = b.
Proof. congruence. Qed.

Lemma nettoyer_bic_caps v b :
  App.nettoyer_bic v = Some b ->
  length b <= 11 /\ forallb upper_or_digit b = true.
Proof.
  unfold App.nettoyer_bic. destruct (App.falsy v).
  - intros H. injection H as <-. split; [cbn; lia|reflexivity].
  - destruct v as [| | |s| |]; try discriminate.
    intros H. apply some_eq in H. subst b.
    assert (C : forallb upper_or_digit (upper (filter is_alnum s)) = true).
    { apply upper_alnum_caps, forallb_forall. intros x Hx.
      now apply filter_In in Hx. }
    destruct (11 <=? length (upper (filter is_alnum s)));
      (split; [rewrite length_firstn; lia|now apply forallb_firstn]).
Qed.

Lemma vision_bic_field json_loads fichier raw l :
  App.traiter json_loads fichier raw = App.Ajoute l ->
  length (App.BIC_SWIFT l) <= 11
  /\ forallb upper_or_digit (App.BIC_SWIFT l) = true.
Proof.
  unfold App.traiter.
  destruct (startswith (lit "__ERROR__") raw).
  { intros H. injection H as <-. split; [cbn; lia|reflexivity]. }
  destruct (json_loads (App.nettoyer_reponse_json raw)) as [[| | | | |data]|];
    try discriminate.
  - destruct (App.nettoyer_iban _); [|discriminate].
    destruct (App.nettoyer_bic _) as [b|] eqn:B; [|discriminate].
    destruct (App.nettoyer_domiciliation _); [|discriminate].
    intros H. injection H as <-. cbn [App.BIC_SWIFT].
    eapply nettoyer_bic_caps; exact B.
  - intros H. injection H as <-. split; [cbn; lia|reflexivity].
Qed.

(** C4, as the code has it. In the rows of src/app_with_ocr.py a BIC that is
    not the missing marker has 8 or 11 characters, its first six alphabetic,
    and characters 5-6 equal to FR. In the rows of src/rib_extractor.py it
    has 8 or 11 characters and its first six are alphabetic, but the country
    is not checked. In the rows of src/app.py (vision path) the BIC is the
    answer of the model stripped of non-alphanumerics, in upper case and
    cut: capitals and digits, no more than 11, without any alphabetic or
    country test. *)
Theorem bic_of_emitted_rows :
  (forall h bic_lib tit dom fichier texte,
     let l := AppWithOcr.traiter h bic_lib tit dom fichier texte in
     AppWithOcr.BIC_SWIFT l <> AppWithOcr.MANQUANT ->
     bic_forme (AppWithOcr.BIC_SWIFT l)
     /\ slice 4 6 (AppWithOcr.BIC_SWIFT l) = lit "FR")
  /\ (forall h bic_lib tit dom fichier texte,
       let l := RibExtractor.traiter h bic_lib tit dom fichier texte in
       RibExtractor.BIC_SWIFT l <> RibExtractor.MANQUANT ->
       bic_forme (RibExtractor.BIC_SWIFT l))
  /\ (forall json_loads fichier raw l,
       App.traiter json_loads fichier raw = App.Ajoute l ->
       length (App.BIC_SWIFT l) <= 11
       /\ forallb upper_or_digit (App.BIC_SWIFT l) = true).
Proof.
  split; [|split].
  - intros h bic_lib tit dom fichier texte l N. subst l.
    destruct (ocr_bic_field _ _ _ _ _ _ N) as [-> Ne].
    destruct (utils_extraire_bic_valide_cases bic_lib (nettoyer texte)) as [E|B];
      [contradiction|now apply bic_fr_forme].
  - intros h bic_lib tit dom fichier texte l N. subst l.
    destruct (rib_bic_field _ _ _ _ _ _ N) as [-> Ne].
    destruct (rib_extraire_bic_valide_cases bic_lib (nettoyer texte)) as [E|B];
      [contradiction|exact B].
  - intros json_loads fichier raw l H. eapply vision_bic_field; exact H.
Qed.

(** A French BIC under its label on the OCR paths, a short answer of the
    model on the vision path. *)
Lemma bic_of_emitted_rows_witness :
  let vide := fun _ : str => @nil ascii in
  let texte := lit "BIC : BOUSFRPPXXX" in
  let reponse := fun _ : str => Some (App.JObj [(lit "bic", App.JStr (lit "bous frpp"))]) in
  AppWithOcr.BIC_SWIFT (AppWithOcr.traiter (fun _ => 0) None vide vide (lit "rib.pdf") texte)
    = lit "BOUSFRPPXXX"
  /\ bic_forme (lit "BOUSFRPPXXX") /\ slice 4 6 (lit "BOUSFRPPXXX") = lit "FR"
  /\ RibExtractor.BIC_SWIFT
       (RibExtractor.traiter (fun _ => 0) None vide vide (lit "rib.pdf") texte)
     = lit "BOUSFRPPXXX"
  /\ (exists l, App.traiter reponse (lit "rib.pdf") (lit "{}") = App.Ajoute l
                /\ App.BIC_SWIFT l = lit "BOUSFRPP"
                /\ length (App.BIC_SWIFT l) <= 11).
Proof.
  intros vide texte reponse.
  destruct bic_of_emitted_rows as (O & R & V).
  assert (E1 : AppWithOcr.BIC_SWIFT
                 (AppWithOcr.traiter (fun _ => 0) None vide vide (lit "rib.pdf") texte)
               = lit "BOUSFRPPXXX") by (vm_compute; reflexivity).
  assert (E2 : RibExtractor.BIC_SWIFT
                 (RibExtractor.traiter (fun _ => 0) None vide vide (lit "rib.pdf") texte)
               = lit "BOUSFRPPXXX") by (vm_compute; reflexivity).
  assert (N1 : AppWithOcr.BIC_SWIFT
                 (AppWithOcr.traiter (fun _ => 0) None vide vide (lit "rib.pdf") texte)
               <> AppWithOcr.MANQUANT) by (rewrite E1; discriminate).
  destruct (O _ _ _ _ _ _ N1) as [F C]. rewrite E1 in F, C.
  split; [exact E1|]. split; [exact F|]. split; [exact C|]. split; [exact E2|].
  destruct (App.traiter reponse (lit "rib.pdf") (lit "{}")) as [l|] eqn:T;
    [|vm_compute in T; discriminate].
  exists l. split; [reflexivity|].
  destruct (V _ _ _ _ T) as [L _]. split; [|exact L].
  vm_compute in T. injection T as <-. reflexivity.
Defined.

(** C4 as stated fails on two paths: on the vision path the answer
    12345678 of the model is emitted as it is, and its positions 1-6 are
    digits; in src/rib_extractor.py the German code DEUTDEFF under a BIC
    label is returned, and its characters 5-6 are DE. *)
Lemma bic_of_emitted_rows_counterexample :
  (exists l,
     App.traiter (fun _ => Some (App.JObj [(lit "bic", App.JStr (lit "12345678"))]))
       (lit "rib.pdf") (lit "{}") = App.Ajoute l
     /\ App.BIC_SWIFT l = lit "12345678"
     /\ forallb is_alpha (firstn 6 (App.BIC_SWIFT l)) = false)
  /\ RibExtractor.BIC_SWIFT
       (RibExtractor.traiter (fun _ => 0) None (fun _ => []) (fun _ => [])
          (lit "rib.pdf") (lit "BIC : DEUTDEFF"))
     = lit "DEUTDEFF"
  /\ slice 4 6 (lit "DEUTDEFF") = lit "DE".
Proof.
  split; [|split; vm_compute; reflexivity].
  eexists. split; [vm_compute; reflexivity|]. split; reflexivity.
Qed.

End LoopFacts.

(** ** src/app.py: isolating the JSON answer, and the error rows *)

Module AppFacts.

Import PyFacts ReFacts App.

Lemma sem_cloture ouverture m cs cs' :
  sem (cloture ouverture) m cs cs' <->
  exists w1 corps w2,
    m = ouverture ++ w1 ++ ("{"%char :: corps ++ ["}"%char]) ++ w2 ++ fence
    /\ forallb is_space w1 = true /\ forallb is_space w2 = true
    /\ cs' = (1, "{"%char :: corps ++ ["}"%char]) :: cs.
Proof.
  unfold cloture, corps_paresseux. cbn [Cat sem]. split.
  - intros (m1 & m2 & c1 & -> & S1 & S).
    apply sem_Lit in S1 as [-> ->].
    destruct S as (w1 & m3 & c2 & -> & [H1 ->] & S).
    destruct S as (g & m4 & c3 & -> & G & S).
    destruct S as (w2 & m5 & c4 & -> & [H2 ->] & S).
    apply sem_Lit in S as [-> ->].
    destruct G as (c5 & G & ->).
    destruct G as (a & m6 & c6 & -> & (x & -> & Hx & ->) & G).
    destruct G as (corps & m7 & c7 & -> & [_ ->] & (y & -> & Hy & ->)).
    unfold one in Hx, Hy. apply Ascii.eqb_eq in Hx, Hy. subst x y.
    exists w1, corps, w2. cbn [app]. auto.
  - intros (w1 & corps & w2 & -> & H1 & H2 & ->).
    exists ouverture, (w1 ++ ("{"%char :: corps ++ ["}"%char]) ++ w2 ++ fence), cs.
    split; [reflexivity|]. split; [now apply sem_Lit|].
    exists w1, (("{"%char :: corps ++ ["}"%char]) ++ w2 ++ fence), cs.
    split; [reflexivity|]. split; [auto|].
    exists ("{"%char :: corps ++ ["}"%char]), (w2 ++ fence),
      ((1, "{"%char :: corps ++ ["}"%char]) :: cs).
    split; [reflexivity|]. split.
    + exists cs. split; [|reflexivity].
      exists ["{"%char], (corps ++ ["}"%char]), cs.
      split; [reflexivity|]. split; [exists "{"%char; auto|].
      exists corps, ["}"%char], cs. split; [reflexivity|]. split.
      * split; [apply forallb_forall; intros; reflexivity|reflexivity].
      * exists "}"%char. auto.
    + exists w2, fence, ((1, "{"%char :: corps ++ ["}"%char]) :: cs).
      split; [reflexivity|]. split; [auto|]. now apply sem_Lit.
Qed.

Lemma sans_frontiere_cloture ouverture : sans_frontiere (cloture ouverture) = true.
Proof.
  unfold cloture. cbn [Cat sans_frontiere]. now rewrite !sans_frontiere_Lit.
Qed.

(** The search of a fenced block succeeds exactly when the text holds one,
    and then its group is such a block. *)
Lemma search_cloture_some ouverture texte m cs :
  search (cloture ouverture) texte = Some (m, cs) ->
  bloc_clos ouverture texte (group 1 cs).
Proof.
  intros H. apply search_sound in H as (pre & post & -> & S).
  apply sem_cloture in S as (w1 & corps & w2 & -> & H1 & H2 & ->).
  cbn [group Nat.eqb]. exists pre, w1, corps, w2, post.
  repeat split; auto. now rewrite <- !app_assoc.
Qed.

Lemma search_cloture_none ouverture texte :
  search (cloture ouverture) texte = None -> ~ contient_bloc ouverture texte.
Proof.
  intros H (bloc & avant & w1 & corps & w2 & apres & -> & -> & H1 & H2).
  revert H.
  replace (avant ++ ouverture ++ w1 ++ ("{"%char :: corps ++ ["}"%char]) ++ w2 ++ fence ++ apres)
    with (avant ++ (ouverture ++ w1 ++ ("{"%char :: corps ++ ["}"%char]) ++ w2 ++ fence) ++ apres)
    by (now rewrite <- !app_assoc).
  eapply search_complete; [apply sans_frontiere_cloture|].
  apply sem_cloture. exists w1, corps, w2. eauto.
Qed.

(** The open search: from the first opening brace to the last closing one. *)
Section Glouton.

Variable A : Type.
Variable k : option ascii -> str -> caps -> option A.
Variable cs : caps.

Lemma star_greedy_no_brace apres :
  ~ In "}"%char apres ->
  forall prev,
    star_greedy any_char prev apres
      (fun pv s2 => exec (Chr (one "}")) pv s2 cs k) = None.
Proof.
  induction apres as [|c a IH]; intros N prev; cbn [star_greedy exec any_char].
  - reflexivity.
  - rewrite IH by (intros H; apply N; now right).
    unfold one. destruct (Ascii.eqb_spec c "}"); [|reflexivity].
    exfalso. apply N. now left.
Qed.

Lemma star_greedy_last_brace apres x :
  ~ In "}"%char apres ->
  k (Some "}"%char) apres cs = Some x ->
  forall corps prev,
    star_greedy any_char prev (corps ++ "}"%char :: apres)
      (fun pv s2 => exec (Chr (one "}")) pv s2 cs k) = Some x.
Proof.
  intros N K. induction corps as [|c corps IH]; intros prev.
  - cbn [app star_greedy any_char]. rewrite star_greedy_no_brace by exact N.
    cbn [exec]. unfold one. now rewrite Ascii.eqb_refl.
  - cbn [app star_greedy any_char]. now rewrite IH.
Qed.

End Glouton.

Lemma search_corps_glouton avant corps apres :
  ~ In "{"%char avant -> ~ In "}"%char apres ->
  search corps_glouton (avant ++ "{"%char :: corps ++ "}"%char :: apres)
  = Some ("{"%char :: corps ++ ["}"%char],
          [(1, "{"%char :: corps ++ ["}"%char])]).
Proof.
  intros Na Np. unfold search. generalize (@None ascii) as prev.
  induction avant as [|c avant IH]; intros prev.
  - cbn [app]. unfold search_from.
    assert (E : match_here corps_glouton prev ("{"%char :: corps ++ "}"%char :: apres)
                = Some ("{"%char :: corps ++ ["}"%char],
                        [(1, "{"%char :: corps ++ ["}"%char])])).
    { set (s := "{"%char :: corps ++ "}"%char :: apres).
      transitivity
        (star_greedy any_char (Some "{"%char) (corps ++ "}"%char :: apres)
           (fun pv s2 =>
              exec (Chr (one "}")) pv s2 []
                (fun pv' s' cs' =>
                   accept s pv' s' ((1, firstn (length s - length s') s) :: cs'))));
        [reflexivity|].
      apply star_greedy_last_brace; [exact Np|].
      assert (F : firstn (length s - length apres) s = "{"%char :: corps ++ ["}"%char]).
      { unfold s. cbn [length]. rewrite length_app. cbn [length].
        replace (S (length corps + S (length apres)) - length apres)
          with (S (length corps + 1)) by lia.
        cbn [firstn]. f_equal.
        replace (corps ++ "}"%char :: apres) with ((corps ++ ["}"%char]) ++ apres)
          by (now rewrite <- app_assoc).
        rewrite firstn_app, firstn_all2 by (rewrite length_app; cbn; lia).
        rewrite length_app. cbn [length].
        replace (length corps + 1 - (length corps + 1)) with 0 by lia.
        cbn [firstn]. now rewrite app_nil_r. }
      unfold accept. now rewrite F. }
    now rewrite E.
  - cbn [app search_from].
    assert (E : match_here corps_glouton prev
                  (c :: avant ++ "{"%char :: corps ++ "}"%char :: apres) = None).
    { unfold match_here, corps_glouton. cbn [Cat exec]. unfold one at 1.
      destruct (Ascii.eqb_spec c "{"); [|reflexivity].
      exfalso. apply Na. now left. }
    rewrite E. apply IH. intros H. apply Na. now right.
Qed.

(** *** The fenced search finds the first block *)

Lemma espace_non_accolade c : is_space c = true -> Ascii.eqb c "{" = false.
Proof.
  assert (H : implb (is_space c) (negb (Ascii.eqb c "{")) = true)
    by (by_ascii_table c).
  intros E. rewrite E in H. now apply negb_true_iff in H.
Qed.

Lemma espace_non_fence c s : is_space c = true -> startswith fence (c :: s) = false.
Proof.
  assert (H : implb (is_space c) (negb (Ascii.eqb "`" c)) = true)
    by (by_ascii_table c).
  intros E. rewrite E in H. apply negb_true_iff in H.
  cbn [fence lit list_ascii_of_string startswith]. now rewrite H.
Qed.

Lemma accept_prev s0 pv1 pv2 s cs : accept s0 pv1 s cs = accept s0 pv2 s cs.
Proof. reflexivity. Qed.

(** What stands after the closing brace: blanks and the closing fence. *)
Lemma exec_fermeture s0 pv s3 cs3 :
  exec (Seq (Star is_space) (Lit fence)) pv s3 cs3 (accept s0) =
  if startswith fence (lstrip s3)
  then accept s0 None (skipn (length fence) (lstrip s3)) cs3
  else None.
Proof.
  cbn [exec].
  rewrite star_greedy_lstrip.
  - apply exec_Lit. apply accept_prev.
  - intros pv1 pv2 s. apply exec_prev; [apply sans_frontiere_Lit|apply accept_prev].
  - intros pv' c s E. rewrite exec_Lit by apply accept_prev.
    now rewrite (@espace_non_fence c s E).
Qed.

(** The lazy body stops at the first closing brace that the closing fence
    follows. *)
Section Paresseux.

Variable s0 : str.
Variable K3 : option ascii -> str -> caps -> option found.
Hypothesis HK : forall pv s3 cs3,
  K3 pv s3 cs3 =
  if startswith fence (lstrip s3)
  then accept s0 None (skipn (length fence) (lstrip s3)) cs3
  else None.

Lemma star_lazy_fin_de_bloc cs1 r0 :
  forall r done pv,
    r0 = done ++ r ->
    option_map groupe1
      (star_lazy any_char pv r
         (fun pv' s'' =>
            exec (Chr (one "}")) pv' s'' cs1
              (fun pv3 s3 cs3 =>
                 K3 pv3 s3
                   ((1, firstn (length ("{"%char :: r0) - length s3) ("{"%char :: r0))
                      :: cs3))))
    = option_map (fun b => "{"%char :: done ++ b) (fin_de_bloc r).
Proof.
  set (KK := fun pv' s'' =>
               exec (Chr (one "}")) pv' s'' cs1
                 (fun pv3 s3 cs3 =>
                    K3 pv3 s3
                      ((1, firstn (length ("{"%char :: r0) - length s3) ("{"%char :: r0))
                         :: cs3))).
  induction r as [|c r IH]; intros done pv E.
  - reflexivity.
  - cbn [star_lazy fin_de_bloc any_char].
    assert (Kc : KK pv (c :: r) =
                 if Ascii.eqb c "}" && startswith fence (lstrip r)
                 then Some (firstn (length s0 - length (skipn (length fence) (lstrip r))) s0,
                            [(1, "{"%char :: done ++ [c])] ++ cs1)
                 else None).
    { unfold KK. cbn [exec]. unfold one. rewrite HK.
      destruct (Ascii.eqb c "}"); [|reflexivity].
      destruct (startswith fence (lstrip r)); [|reflexivity].
      cbn [andb accept app]. do 3 f_equal.
      rewrite E.
      replace ("{"%char :: done ++ c :: r) with (("{"%char :: done ++ [c]) ++ r)
        by (cbn [app]; now rewrite <- app_assoc).
      rewrite length_app, Nat.add_sub, firstn_app, firstn_all, Nat.sub_diag.
      cbn [firstn]. now rewrite app_nil_r. }
    rewrite Kc.
    destruct (Ascii.eqb c "}" && startswith fence (lstrip r)).
    + reflexivity.
    + rewrite (IH (done ++ [c]) (Some c)) by (now rewrite <- app_assoc).
      destruct (fin_de_bloc r); cbn [option_map]; [|reflexivity].
      now rewrite <- app_assoc.
Qed.

(** The braces of a fenced block. *)
Lemma exec_corps_paresseux pv s2 cs1 :
  option_map groupe1 (exec corps_paresseux pv s2 cs1 K3)
  = match s2 with
    | c :: r => if Ascii.eqb c "{" then option_map (cons c) (fin_de_bloc r) else None
    | [] => None
    end.
Proof.
  destruct s2 as [|c r]; [reflexivity|].
  destruct (Ascii.eqb_spec c "{") as [->|N].
  - transitivity (option_map (fun b => "{"%char :: [] ++ b) (fin_de_bloc r)).
    + exact (@star_lazy_fin_de_bloc cs1 r r [] (Some "{"%char) eq_refl).
    + destruct (fin_de_bloc r); reflexivity.
  - unfold corps_paresseux. cbn [Cat exec]. unfold one at 1.
    destruct (Ascii.eqb_spec c "{"); [contradiction|reflexivity].
Qed.

End Paresseux.

(** A match of the fenced pattern at the head of a text is the block that a
    fence opens there. *)
Lemma match_here_cloture ouverture prev s :
  option_map groupe1 (match_here (cloture ouverture) prev s) = bloc_ici ouverture s.
Proof.
  unfold match_here, cloture, bloc_ici. cbn [Cat].
  cbn [exec]. rewrite exec_Lit.
  2:{ intros pv1 pv2 s' cs'. apply star_greedy_prev. intros p1 p2 s''.
      apply exec_prev; [reflexivity|].
      intros p3 p4 s3 cs3. apply star_greedy_prev. intros p5 p6 s4.
      apply exec_prev; [apply sans_frontiere_Lit|apply accept_prev]. }
  destruct (startswith ouverture s); [|reflexivity].
  rewrite star_greedy_lstrip.
  - apply (@exec_corps_paresseux s _ (@exec_fermeture s)).
  - intros p1 p2 s''. apply exec_prev; [reflexivity|].
    intros p3 p4 s3 cs3. apply star_greedy_prev. intros p5 p6 s4.
    apply exec_prev; [apply sans_frontiere_Lit|apply accept_prev].
  - intros pv c s' E. unfold corps_paresseux. cbn [Cat exec]. unfold one at 1.
    now rewrite (@espace_non_accolade c E).
Qed.

(** The search returns the block of the leftmost fence that opens one. *)
Lemma search_cloture_premier ouverture texte :
  option_map groupe1 (search (cloture ouverture) texte)
  = premier_bloc_clos ouverture texte.
Proof.
  unfold search. generalize (@None ascii) as prev.
  induction texte as [|c t IH]; intros prev; cbn [search_from premier_bloc_clos];
    rewrite <- (match_here_cloture ouverture prev);
    destruct (match_here (cloture ouverture) prev _); cbn [option_map];
    try reflexivity.
  apply IH.
Qed.

Lemma premier_bloc_clos_some ouverture texte b :
  premier_bloc_clos ouverture texte = Some b ->
  exists m, search (cloture ouverture) texte = Some m /\ group 1 (snd m) = b.
Proof.
  rewrite <- search_cloture_premier.
  destruct (search (cloture ouverture) texte) as [m|]; [|discriminate].
  cbn [option_map]. intros E. exists m. split; [reflexivity|]. now injection E.
Qed.

Lemma premier_bloc_clos_none ouverture texte :
  premier_bloc_clos ouverture texte = None ->
  search (cloture ouverture) texte = None.
Proof.
  rewrite <- search_cloture_premier.
  destruct (search (cloture ouverture) texte); [discriminate|reflexivity].
Qed.

(** A brace-balanced span ends with a closing brace. *)
Lemma equilibre_fin depth s x :
  equilibre depth s = Some x -> exists corps, x = corps ++ ["}"%char].
Proof.
  revert depth x; induction s as [|c s IH]; intros depth x; cbn [equilibre];
    [discriminate|].
  assert (Step : forall d, option_map (cons c) (equilibre d s) = Some x ->
                 exists corps, x = corps ++ ["}"%char]).
  { intros d H. destruct (equilibre d s) as [y|] eqn:E; [|discriminate].
    apply LoopFacts.some_eq in H. subst x.
    destruct (IH _ _ E) as [corps ->]. now exists (c :: corps). }
  destruct (Ascii.eqb c "{"); [apply Step|].
  destruct (Ascii.eqb_spec c "}") as [->|N]; [|apply Step].
  destruct depth; [|apply Step].
  intros H. apply LoopFacts.some_eq in H. subst x. now exists [].
Qed.

Lemma premier_bloc_equilibre_forme s b :
  premier_bloc_equilibre s = Some b ->
  exists corps, b = "{"%char :: corps ++ ["}"%char].
Proof.
  induction s as [|c s IH]; cbn [premier_bloc_equilibre]; [discriminate|].
  destruct (Ascii.eqb_spec c "{") as [->|N]; [|exact IH].
  destruct (equilibre 0 s) as [x|] eqn:E; [|exact IH].
  intros H. apply LoopFacts.some_eq in H. subst b.
  destruct (equilibre_fin _ _ E) as [corps ->]. now exists corps.
Qed.

(** C8, as the code has it. [nettoyer_reponse_json] extracts a brace-delimited
    block by priority: the first block fenced as json, that is the block
    after the leftmost json fence that opens one, from its opening brace to
    the first closing brace that blanks and a closing fence follow; else
    the first block inside a generic fence, read the same way; else the
    first brace-balanced span of the raw text, when no opening brace
    stands before that span and no closing brace after it.  The first
    fenced block exists exactly when the text holds a fenced block. *)
Theorem nettoyer_reponse_json_priority (texte : str) :
  (forall b, premier_bloc_clos fence_json texte = Some b ->
             nettoyer_reponse_json texte = b)
  /\ (premier_bloc_clos fence_json texte = None ->
      forall b, premier_bloc_clos fence texte = Some b ->
                nettoyer_reponse_json texte = b)
  /\ (premier_bloc_clos fence_json texte = None ->
      premier_bloc_clos fence texte = None ->
      forall b avant apres,
        premier_bloc_equilibre texte = Some b ->
        texte = avant ++ b ++ apres ->
        ~ In "{"%char avant -> ~ In "}"%char apres ->
        nettoyer_reponse_json texte = b)
  /\ (forall ouverture,
        (contient_bloc ouverture texte <-> premier_bloc_clos ouverture texte <> None)
        /\ (forall b, premier_bloc_clos ouverture texte = Some b ->
                      bloc_clos ouverture texte b)).
Proof.
  assert (Vide : forall o b, premier_bloc_clos o texte = Some b -> texte <> []).
  { intros o b H ->. apply premier_bloc_clos_some in H as ([m cs] & H & _).
    apply search_cloture_some in H.
    destruct H as (av & w1 & co & w2 & ap & E & Eb & _).
    apply (f_equal (@length ascii)) in E. rewrite Eb, !length_app in E.
    cbn [length] in E. lia. }
  unfold nettoyer_reponse_json.
  change PAT_FENCE_JSON with (cloture fence_json).
  change PAT_FENCE with (cloture fence).
  split; [|split; [|split]].
  - intros b H. rewrite (proj2 (truthy_nonempty _) (Vide _ _ H)). cbn [negb].
    apply premier_bloc_clos_some in H as (m & -> & E). exact E.
  - intros H1 b H2. rewrite (proj2 (truthy_nonempty _) (Vide _ _ H2)). cbn [negb].
    rewrite (premier_bloc_clos_none _ _ H1).
    apply premier_bloc_clos_some in H2 as (m & -> & E). exact E.
  - intros H1 H2 b avant apres B E Na Np.
    destruct (premier_bloc_equilibre_forme _ B) as [corps ->].
    assert (T : truthy texte = true).
    { apply truthy_nonempty. intros Z. rewrite Z in E. destruct avant; discriminate E. }
    rewrite T, (premier_bloc_clos_none _ _ H1), (premier_bloc_clos_none _ _ H2).
    cbn [negb]. rewrite E.
    replace (avant ++ ("{"%char :: corps ++ ["}"%char]) ++ apres)
      with (avant ++ "{"%char :: corps ++ "}"%char :: apres)
      by (cbn [app]; now rewrite <- app_assoc).
    now rewrite search_corps_glouton.
  - intros ouverture.
    assert (B : forall b, premier_bloc_clos ouverture texte = Some b ->
                bloc_clos ouverture texte b).
    { intros b H. apply premier_bloc_clos_some in H as ([m cs] & H & <-).
      cbn [snd]. eapply search_cloture_some; exact H. }
    split; [split|exact B].
    + intros C N. apply premier_bloc_clos_none, search_cloture_none in N.
      contradiction.
    + intros N. destruct (premier_bloc_clos ouverture texte) as [b|] eqn:P;
        [|contradiction].
      exists b. now apply B.
Qed.

(** An answer with two fenced blocks, and an answer with one object. *)
Lemma nettoyer_reponse_json_priority_witness :
  premier_bloc_clos fence_json (lit "Voici : ```json {a: 1} ``` puis ```json {b: 2} ```")
  = Some (lit "{a: 1}")
  /\ nettoyer_reponse_json (lit "Voici : ```json {a: 1} ``` puis ```json {b: 2} ```")
     = lit "{a: 1}"
  /\ premier_bloc_equilibre (lit "Voici : {a: {b: 2}} fin") = Some (lit "{a: {b: 2}}")
  /\ nettoyer_reponse_json (lit "Voici : {a: {b: 2}} fin") = lit "{a: {b: 2}}".
Proof.
  assert (P : premier_bloc_clos fence_json
                (lit "Voici : ```json {a: 1} ``` puis ```json {b: 2} ```")
              = Some (lit "{a: 1}")) by (vm_compute; reflexivity).
  assert (Q : premier_bloc_equilibre (lit "Voici : {a: {b: 2}} fin")
              = Some (lit "{a: {b: 2}}")) by (vm_compute; reflexivity).
  split; [exact P|].
  split; [exact (proj1 (nettoyer_reponse_json_priority _) _ P)|].
  split; [exact Q|].
  destruct (nettoyer_reponse_json_priority (lit "Voici : {a: {b: 2}} fin"))
    as (_ & _ & H & _).
  apply (H ltac:(vm_compute; reflexivity) ltac:(vm_compute; reflexivity)
           _ (lit "Voici : ") (lit " fin") Q eq_refl).
  - vm_compute. intros F. repeat (destruct F as [F|F]; [discriminate F|]). exact F.
  - vm_compute. intros F. repeat (destruct F as [F|F]; [discriminate F|]). exact F.
Defined.

(** C8 as stated fails. On an answer with two objects the first
    brace-balanced span is the first object, and the function returns
    everything from the first opening brace to the last closing one; and
    inside a fence the block is not checked: an unbalanced one is returned
    as it is. *)
Lemma nettoyer_reponse_json_not_balanced :
  premier_bloc_equilibre (lit "{a: 1} puis {b: 2}") = Some (lit "{a: 1}")
  /\ nettoyer_reponse_json (lit "{a: 1} puis {b: 2}") = lit "{a: 1} puis {b: 2}"
  /\ nettoyer_reponse_json (lit "{a: 1}}") = lit "{a: 1}}"
  /\ premier_bloc_equilibre (lit "```json {a: 1}} ```") = Some (lit "{a: 1}")
  /\ nettoyer_reponse_json (lit "```json {a: 1}} ```") = lit "{a: 1}}".
Proof. repeat split; vm_compute; reflexivity. Qed.

(** *** The error answers of [analyser_rib] *)

Lemma startswith_app p s : startswith p s = true -> exists r, s = p ++ r.
Proof.
  revert s; induction p as [|a p IH]; intros s; [now exists s|].
  destruct s as [|b s]; [discriminate|]. cbn [startswith].
  intros H. apply andb_true_iff in H as [Hab Hs]. apply Ascii.eqb_eq in Hab.
  subst b. destruct (IH _ Hs) as [r ->]. now exists r.
Qed.

Lemma reponse_erreur_not_tested raw :
  reponse_erreur raw -> startswith (lit "__ERROR__") raw = false.
Proof.
  intros [H|[H|H]]; apply startswith_app in H as [r ->]; reflexivity.
Qed.

(** C3 fails in the code: the loop tests the prefix [__ERROR__], which none
    of the three error prefixes of [analyser_rib] begins with. So an error
    answer is never put in the error field: it goes on to the JSON
    extraction, and the row, when there is one, has an error field that is
    empty or says that the answer was not JSON. *)
Theorem error_prefix_never_surfaced
    (json_loads : str -> option json) (fichier raw : str) :
  reponse_erreur raw ->
  startswith (lit "__ERROR__") raw = false
  /\ forall l, traiter json_loads fichier raw = Ajoute l ->
       (Erreur l = [] \/ Erreur l = NON_JSON) /\ Erreur l <> raw.
Proof.
  intros R. pose proof (reponse_erreur_not_tested R) as T.
  split; [exact T|]. intros l. unfold traiter. rewrite T.
  assert (Hraw : raw <> [] /\ raw <> NON_JSON).
  { destruct R as [H|[H|H]]; apply startswith_app in H as [r ->];
      split; discriminate. }
  destruct Hraw as [N1 N2].
  destruct (json_loads (nettoyer_reponse_json raw)) as [[| | | | |data]|];
    try discriminate.
  - destruct (nettoyer_iban _); [|discriminate].
    destruct (nettoyer_bic _); [|discriminate].
    destruct (nettoyer_domiciliation _); [|discriminate].
    intros H. apply (f_equal (fun i => match i with Ajoute x => Erreur x | _ => [] end)) in H.
    cbn [Erreur] in H. rewrite <- H. split; [now left|]. congruence.
  - intros H. apply (f_equal (fun i => match i with Ajoute x => Erreur x | _ => [] end)) in H.
    cbn [Erreur ligne_vide] in H. rewrite <- H. split; [now right|].
    congruence.
Qed.

(** On the API error [reponse_api], with [json.loads] reading the object on
    its three lines, the row is the row of a document without any field, and
    its error field is empty. *)
Lemma error_prefix_never_surfaced_witness :
  reponse_erreur reponse_api
  /\ startswith (lit "__ERROR__") reponse_api = false
  /\ traiter loads_api (lit "rib.pdf") reponse_api
     = Ajoute {| Fichier := lit "rib.pdf";
                 Titulaire_du_compte := JStr [];
                 Code_Banque := JStr [];
                 Code_Guichet := JStr [];
                 No_de_compte := JStr [];
                 Cle_RIB := JStr [];
                 IBAN := [];
                 BIC_SWIFT := [];
                 Domiciliation := [];
                 Erreur := [] |}.
Proof.
  assert (R : reponse_erreur reponse_api) by (left; reflexivity).
  split; [exact R|].
  split; [exact (proj1 (error_prefix_never_surfaced loads_api (lit "rib.pdf") R))|].
  vm_compute; reflexivity.
Defined.

End AppFacts.


(** ** Beyond the extraction core: cleaning the text *)

Module TexteFacts.

Import PyFacts IbanFacts Utils.

(** *** [strip] *)

Lemma lstrip_head s :
  lstrip s = [] \/ exists c r, lstrip s = c :: r /\ is_space c = false.
Proof.
  induction s as [|c s IH]; cbn [lstrip]; [now left|].
  destruct (is_space c) eqn:E; [exact IH|]. right. now exists c, s.
Qed.

Lemma lstrip_fix s :
  lstrip s = s <-> s = [] \/ exists c r, s = c :: r /\ is_space c = false.
Proof.
  split.
  - intros E. rewrite <- E. apply lstrip_head.
  - intros [->|(c & r & -> & E)]; [reflexivity|]. cbn [lstrip]. now rewrite E.
Qed.

Lemma lstrip_idem s : lstrip (lstrip s) = lstrip s.
Proof. apply lstrip_fix, lstrip_head. Qed.

Lemma lstrip_incl s x : In x (lstrip s) -> In x s.
Proof.
  induction s as [|c s IH]; cbn [lstrip]; [auto|].
  destruct (is_space c); [intros H; right; auto|auto].
Qed.

Lemma rstrip_incl s x : In x (rstrip s) -> In x s.
Proof.
  unfold rstrip. intros H. apply in_rev in H. apply lstrip_incl in H.
  now apply in_rev.
Qed.

Lemma strip_incl s x : In x (strip s) -> In x s.
Proof. unfold strip. intros H. now apply lstrip_incl, rstrip_incl. Qed.

Lemma rstrip_idem s : rstrip (rstrip s) = rstrip s.
Proof. unfold rstrip. now rewrite rev_involutive, lstrip_idem. Qed.

(** Stripping the end does not bring a blank to the front. *)
Lemma lstrip_rstrip u : lstrip u = u -> lstrip (rstrip u) = rstrip u.
Proof.
  unfold rstrip. rewrite <- (rev_involutive u) at 1 2.
  induction (rev u) as [|c v IH]; [reflexivity|].
  cbn [rev lstrip]. intros E. destruct (is_space c) eqn:Ec.
  - apply IH. apply lstrip_fix. apply lstrip_fix in E.
    destruct E as [E|(d & r & E & Ed)].
    + destruct (rev v); discriminate.
    + destruct (rev v) as [|d' r'] eqn:R.
      * cbn in E. injection E as <- <-. congruence.
      * cbn in E. injection E as <- <-. right. now exists d', r'.
  - cbn [rev]. exact E.
Qed.

Lemma strip_idem s : strip (strip s) = strip s.
Proof.
  unfold strip. rewrite lstrip_rstrip by apply lstrip_idem. apply rstrip_idem.
Qed.

Lemma lstrip_all_space s : forallb is_space s = true -> lstrip s = [].
Proof.
  induction s as [|c s IH]; cbn [lstrip forallb]; [reflexivity|].
  intros H. apply andb_true_iff in H as [-> Hs]. auto.
Qed.

Lemma strip_all_space s : forallb is_space s = true -> strip s = [].
Proof. intros H. unfold strip. now rewrite (lstrip_all_space _ H). Qed.

Lemma strip_nil_all_space s : strip s = [] -> forallb is_space s = true.
Proof.
  unfold strip, rstrip. intros E.
  assert (E' : lstrip (rev (lstrip s)) = []).
  { apply (f_equal (@rev ascii)) in E. now rewrite rev_involutive in E. }
  assert (L : lstrip s = []).
  { destruct (lstrip_head s) as [L|(c & r & L & Ec)]; [exact L|].
    exfalso. rewrite L in E'. cbn [rev] in E'.
    assert (In c (lstrip (rev r ++ [c]))).
    { clear E'. induction (rev r) as [|d w IH]; cbn [app lstrip].
      - rewrite Ec. now left.
      - destruct (is_space d); [exact IH|]. right. apply in_or_app. right. now left. }
    rewrite E' in H. contradiction. }
  clear E E'. induction s as [|c s IH]; [reflexivity|].
  cbn [lstrip] in L. cbn [forallb]. destruct (is_space c); [auto|discriminate].
Qed.

Lemma lstrip_upper s : lstrip (upper s) = upper (lstrip s).
Proof.
  induction s as [|c s IH]; cbn [upper map lstrip]; [reflexivity|].
  assert (E : Bool.eqb (is_space (to_upper c)) (is_space c) = true)
    by (by_ascii_table c).
  apply Bool.eqb_prop in E. rewrite E. destruct (is_space c); [exact IH|reflexivity].
Qed.

Lemma rev_upper s : rev (upper s) = upper (rev s).
Proof. unfold upper. symmetry. apply map_rev. Qed.

Lemma strip_upper s : strip (upper s) = upper (strip s).
Proof.
  unfold strip, rstrip.
  now rewrite lstrip_upper, rev_upper, lstrip_upper, rev_upper.
Qed.

(** *** [nettoyer] and [compacter] *)

Lemma collapse_blanks_In b s x :
  In x (collapse_blanks b s) -> x = " "%char \/ (In x s /\ blanc x = false).
Proof.
  revert b; induction s as [|c s IH]; intros b; cbn [collapse_blanks]; [intros []|].
  fold blanc. destruct (blanc c) eqn:Ec.
  - destruct b.
    + intros H. destruct (IH _ H) as [->|[H1 H2]]; [now left|right; split; auto].
      now right.
    + intros [<-|H]; [now left|].
      destruct (IH _ H) as [->|[H1 H2]]; [now left|right; split; auto]. now right.
  - intros [<-|H]; [right; split; auto; now left|].
    destruct (IH _ H) as [->|[H1 H2]]; [now left|right; split; auto]. now right.
Qed.

Lemma collapse_blanks_shape s :
  forall b,
    pas_deux_espaces (collapse_blanks b s) = true
    /\ (b = true -> forall r, collapse_blanks b s <> " "%char :: r).
Proof.
  induction s as [|c s IH]; intros b; cbn [collapse_blanks].
  - split; [reflexivity|discriminate].
  - fold blanc. destruct (blanc c) eqn:Ec.
    + destruct b.
      * apply IH.
      * destruct (IH true) as [P N]. split; [|discriminate].
        cbn [pas_deux_espaces]. rewrite P, andb_true_r.
        destruct (collapse_blanks true s) as [|d r] eqn:E; [reflexivity|].
        destruct (Ascii.eqb_spec d " "); [|reflexivity].
        subst d. exfalso. now apply (N eq_refl r).
    + destruct (IH false) as [P _]. split.
      * cbn [pas_deux_espaces]. rewrite P, andb_true_r.
        assert (Ascii.eqb c " " = false) as ->; [|now destruct (collapse_blanks false s)].
        unfold blanc, either, one in Ec. now apply orb_false_iff in Ec as [-> _].
      * intros _ r E. injection E as -> _. discriminate.
Qed.

Lemma remove_char_In c s x : In x (remove_char c s) -> In x s /\ x <> c.
Proof.
  unfold remove_char. intros H. apply filter_In in H as [H1 H2]. split; [exact H1|].
  intros ->. now rewrite Ascii.eqb_refl in H2.
Qed.

Lemma nettoyer_net texte : texte_net (nettoyer texte) = true.
Proof.
  unfold texte_net, nettoyer. apply andb_true_iff. split.
  - apply forallb_forall. intros x Hx.
    apply collapse_blanks_In in Hx as [->|[H B]]; [reflexivity|].
    apply remove_char_In in H as [_ N].
    unfold non, any_of. cbn [existsb].
    destruct (Ascii.eqb_spec x "013"); [contradiction|].
    unfold blanc, either, one in B. apply orb_false_iff in B as [_ ->]. reflexivity.
  - apply collapse_blanks_shape.
Qed.

(** X1. What [nettoyer] returns has no carriage return, no tabulation and
    no two spaces side by side, whatever the text. *)
Theorem nettoyer_texte_net (texte : str) :
  forallb (non (any_of ["013"%char; "009"%char])) (nettoyer texte) = true
  /\ pas_deux_espaces (nettoyer texte) = true.
Proof.
  pose proof (nettoyer_net texte) as H. unfold texte_net in H.
  now apply andb_true_iff in H.
Qed.

Lemma collapse_blanks_fix s :
  forall b,
    forallb (non (one "009")) s = true -> pas_deux_espaces s = true ->
    (b = true -> forall r, s <> " "%char :: r) ->
    collapse_blanks b s = s.
Proof.
  induction s as [|c s IH]; intros b T P N; [reflexivity|].
  cbn [forallb] in T. apply andb_true_iff in T as [Tc Ts].
  cbn [pas_deux_espaces] in P. apply andb_true_iff in P as [Pc Ps].
  cbn [collapse_blanks]. fold blanc.
  unfold non, one in Tc. apply negb_true_iff in Tc.
  destruct (Ascii.eqb_spec c " ") as [->|Nc].
  - cbn. destruct b; [exfalso; now apply (N eq_refl s)|].
    f_equal. apply IH; auto. intros _ r ->. discriminate.
  - assert (blanc c = false) as ->.
    { unfold blanc, either, one. rewrite Tc.
      destruct (Ascii.eqb_spec c " "); [contradiction|reflexivity]. }
    f_equal. apply IH; auto. discriminate.
Qed.

(** X2. [nettoyer] is idempotent. *)
Theorem nettoyer_idempotent (texte : str) :
  nettoyer (nettoyer texte) = nettoyer texte.
Proof.
  pose proof (nettoyer_net texte) as H. unfold texte_net in H.
  apply andb_true_iff in H as [H1 H2].
  set (r := nettoyer texte) in *. unfold nettoyer.
  assert (E : remove_char "013" r = r).
  { unfold remove_char. apply filter_all. rewrite forallb_forall in *.
    intros x Hx. specialize (H1 x Hx). unfold non, any_of in H1. cbn [existsb] in H1.
    apply negb_true_iff in H1. apply orb_false_iff in H1 as [-> _]. reflexivity. }
  rewrite E. apply collapse_blanks_fix; auto; [|discriminate].
  rewrite forallb_forall in *. intros x Hx. specialize (H1 x Hx).
  unfold non, any_of, one in *. cbn [existsb] in H1.
  apply negb_true_iff in H1. apply orb_false_iff in H1 as [_ H1].
  apply orb_false_iff in H1 as [-> _]. reflexivity.
Qed.

Lemma compacter_collapse_blanks b s :
  compacter (collapse_blanks b s) = compacter s.
Proof.
  revert b; induction s as [|c s IH]; intros b; cbn [collapse_blanks]; [reflexivity|].
  fold blanc.
  assert (A : implb (blanc c) (negb (is_alnum c)) = true) by (by_ascii_table c).
  destruct (blanc c) eqn:Ec.
  - cbn in A. apply negb_true_iff in A.
    unfold compacter in *. destruct b; cbn [filter]; rewrite ?A, IH; reflexivity.
  - unfold compacter in *. cbn [filter]. now rewrite IH.
Qed.

Lemma compacter_remove_cr s : compacter (remove_char "013" s) = compacter s.
Proof.
  unfold compacter, remove_char.
  induction s as [|c s IH]; cbn [filter]; [reflexivity|].
  destruct (Ascii.eqb_spec c "013") as [->|N]; cbn [negb].
  - exact IH.
  - cbn [filter]. now rewrite IH.
Qed.

(** X3. [compacter] keeps the alphanumeric characters only, is idempotent,
    and sees the same text before and after [nettoyer]: cleaning a text
    never changes what the IBAN and BIC searches read in compact form. *)
Theorem compacter_nettoyer (texte : str) :
  forallb is_alnum (compacter texte) = true
  /\ compacter (compacter texte) = compacter texte
  /\ compacter (nettoyer texte) = compacter texte.
Proof.
  split; [|split].
  - apply forallb_forall. intros x Hx. unfold compacter in Hx.
    now apply filter_In in Hx.
  - unfold compacter. apply filter_all, forallb_forall. intros x Hx.
    now apply filter_In in Hx.
  - unfold nettoyer. now rewrite compacter_collapse_blanks, compacter_remove_cr.
Qed.

End TexteFacts.


(** ** Beyond the extraction core: the key and the IBAN of a RIB *)

Module CleFacts.

Import PyFacts IbanFacts UtilsFacts RibFacts TexteFacts Utils iban_lib.

Lemma format_02d_nonempty n : (0 <= n <= 99)%Z -> format_02d n <> [].
Proof.
  intros H. destruct (format_02d_two_digits H) as (L & _ & _).
  destruct (format_02d n); [discriminate L|discriminate].
Qed.

Lemma calculer_cle_rib_some cb cg nc :
  cb <> [] -> cg <> [] -> nc <> [] ->
  forallb is_digit cb = true -> forallb is_digit cg = true ->
  calculer_cle_rib cb cg nc <> [].
Proof.
  intros Nb Ng Nn Db Dg. unfold calculer_cle_rib.
  apply truthy_nonempty in Nb, Ng, Nn. rewrite Nb, Ng, Nn. cbn [andb negb].
  assert (D : isdigit (cb ++ cg ++ lettres_vers_nombres nc) = true).
  { unfold isdigit. rewrite !forallb_app, Db, Dg, lettres_vers_nombres_digits.
    destruct cb; [discriminate|reflexivity]. }
  rewrite D. cbn [negb]. apply format_02d_nonempty.
  pose proof (Z.mod_pos_bound (int_of (cb ++ cg ++ lettres_vers_nombres nc)) 97
                ltac:(lia)). lia.
Qed.

Lemma calculer_cle_rib_deux_chiffres cb cg nc :
  cb <> [] -> cg <> [] -> nc <> [] ->
  forallb is_digit cb = true -> forallb is_digit cg = true ->
  length (calculer_cle_rib cb cg nc) = 2
  /\ forallb is_digit (calculer_cle_rib cb cg nc) = true.
Proof.
  intros Nb Ng Nn Db Dg. unfold calculer_cle_rib.
  apply truthy_nonempty in Nb, Ng, Nn. rewrite Nb, Ng, Nn. cbn [andb negb].
  set (base := cb ++ cg ++ lettres_vers_nombres nc).
  assert (D : isdigit base = true).
  { unfold isdigit, base. rewrite !forallb_app, Db, Dg, lettres_vers_nombres_digits.
    destruct cb; [discriminate|reflexivity]. }
  rewrite D. cbn [negb].
  pose proof (Z.mod_pos_bound (int_of base) 97 ltac:(lia)) as Hm.
  assert (Hr : (0 <= 97 - int_of base mod 97 <= 99)%Z) by lia.
  destruct (format_02d_two_digits Hr) as (L & _ & Dg2). auto.
Qed.

(** X4. [calculer_cle_rib] returns a key only when the three components
    are not empty and the bank code and the branch code are made of digits
    only; and it does return one then, as long as the numeral to convert
    (bank code, branch code and the account number with its letters
    written as numbers) has at most 4300 digits, the length up to which
    [int] converts a numeral in every interpreter.  Whatever the account
    number holds besides letters and digits is passed over. *)
Theorem calculer_cle_rib_defined (cb cg nc : str) :
  (calculer_cle_rib cb cg nc <> [] ->
   cb <> [] /\ cg <> [] /\ nc <> []
   /\ forallb is_digit cb = true /\ forallb is_digit cg = true)
  /\ (length (cb ++ cg ++ lettres_vers_nombres nc) <= 4300 ->
      cb <> [] -> cg <> [] -> nc <> [] ->
      forallb is_digit cb = true -> forallb is_digit cg = true ->
      calculer_cle_rib cb cg nc <> []).
Proof.
  split.
  - unfold calculer_cle_rib.
    destruct (truthy cb) eqn:Tb, (truthy cg) eqn:Tg, (truthy nc) eqn:Tn;
      cbn [andb negb]; try congruence.
    destruct (isdigit (cb ++ cg ++ lettres_vers_nombres nc)) eqn:D; cbn [negb];
      [|congruence].
    intros _. unfold isdigit in D. apply andb_true_iff in D as [_ D].
    rewrite !forallb_app in D. apply andb_true_iff in D as [D1 D].
    apply andb_true_iff in D as [D2 _].
    repeat split; auto; now apply truthy_nonempty.
  - intros _ Nb Ng Nn Db Dg. now apply calculer_cle_rib_some.
Qed.

(** A bank code that is not a number gives no key; a RIB with a letter in
    its account number gives one. *)
Lemma calculer_cle_rib_defined_witness :
  calculer_cle_rib (lit "3000A") (lit "00001") (lit "12345678901") = []
  /\ calculer_cle_rib (lit "30006") (lit "00001") (lit "1234567890b") <> [].
Proof.
  split.
  - destruct (calculer_cle_rib (lit "3000A") (lit "00001") (lit "12345678901"))
      eqn:E; [reflexivity|].
    assert (N : calculer_cle_rib (lit "3000A") (lit "00001") (lit "12345678901") <> [])
      by (rewrite E; discriminate).
    apply (proj1 (calculer_cle_rib_defined _ _ _)) in N.
    destruct N as (_ & _ & _ & D & _). vm_compute in D. discriminate.
  - apply (proj2 (calculer_cle_rib_defined (lit "30006") (lit "00001")
                    (lit "1234567890b")));
      first [ vm_compute; lia | discriminate | reflexivity ].
Defined.

Lemma lettres_vers_nombres_of_digits s :
  forallb is_digit s = true -> lettres_vers_nombres s = s.
Proof.
  unfold lettres_vers_nombres.
  match goal with |- context [flat_map ?f _] => set (g := f) end.
  induction s as [|c s IH]; [reflexivity|].
  cbn [forallb upper map flat_map]. intros H. apply andb_true_iff in H as [Hc Hs].
  fold (upper s). rewrite (IH Hs).
  assert (E : implb (is_digit c) (str_eqb (g (to_upper c)) [c]) = true)
    by (subst g; by_ascii_table c).
  rewrite Hc in E. cbn [implb] in E. apply str_eqb_eq in E. now rewrite E.
Qed.

(** X5. The key returned by [calculer_cle_rib] closes the RIB checksum: the
    number read on bank code, branch code and account number (letters
    written A=10 .. Z=35), plus the key, is a multiple of 97. When the
    account number is made of digits, that number is the plain
    concatenation of the three components. *)
Theorem calculer_cle_rib_checksum (cb cg nc : str) :
  calculer_cle_rib cb cg nc <> [] ->
  ((int_of (cb ++ cg ++ lettres_vers_nombres nc)
    + int_of (calculer_cle_rib cb cg nc)) mod 97 = 0)%Z
  /\ (forallb is_digit nc = true ->
      ((int_of (cb ++ cg ++ nc) + int_of (calculer_cle_rib cb cg nc)) mod 97 = 0)%Z).
Proof.
  intros N.
  assert (M : ((int_of (cb ++ cg ++ lettres_vers_nombres nc)
                + int_of (calculer_cle_rib cb cg nc)) mod 97 = 0)%Z).
  { revert N. unfold calculer_cle_rib.
    destruct (truthy cb && truthy cg && truthy nc); cbn [negb]; [|congruence].
    set (base := cb ++ cg ++ lettres_vers_nombres nc).
    destruct (isdigit base); cbn [negb]; [|congruence].
    intros _.
    pose proof (Z.mod_pos_bound (int_of base) 97 ltac:(lia)) as Hm.
    assert (Hr : (0 <= 97 - int_of base mod 97 <= 99)%Z) by lia.
    destruct (format_02d_two_digits Hr) as (_ & -> & _).
    pose proof (Z.div_mod (int_of base) 97 ltac:(lia)) as E.
    replace (int_of base + (97 - int_of base mod 97))%Z
      with (0 + (int_of base / 97 + 1) * 97)%Z by lia.
    now rewrite Z.mod_add by lia. }
  split; [exact M|].
  intros D. now rewrite (lettres_vers_nombres_of_digits _ D) in M.
Qed.

Lemma calculer_cle_rib_checksum_witness :
  calculer_cle_rib (lit "30006") (lit "00001") (lit "12345678901") <> []
  /\ ((int_of (lit "30006" ++ lit "00001" ++ lit "12345678901")
       + int_of (calculer_cle_rib (lit "30006") (lit "00001") (lit "12345678901")))
      mod 97 = 0)%Z.
Proof.
  assert (N : calculer_cle_rib (lit "30006") (lit "00001") (lit "12345678901") <> [])
    by (vm_compute; discriminate).
  split; [exact N|].
  exact (proj2 (calculer_cle_rib_checksum _ _ _ N) eq_refl).
Defined.

Lemma lettres_vers_nombres_compact s :
  lettres_vers_nombres (upper (compacter s)) = lettres_vers_nombres s.
Proof.
  unfold lettres_vers_nombres. rewrite upper_idem. unfold compacter.
  match goal with |- context [flat_map ?f _] => set (g := f) end.
  induction s as [|c s IH]; [reflexivity|].
  cbn [filter]. destruct (is_alnum c) eqn:A.
  - cbn [upper map flat_map]. fold (upper (filter is_alnum s)). fold (upper s).
    now rewrite IH.
  - cbn [upper map flat_map]. fold (upper s). rewrite IH.
    assert (E : implb (negb (is_alnum c)) (str_eqb (g (to_upper c)) []) = true)
      by (subst g; by_ascii_table c).
    rewrite A in E. cbn [negb implb] in E. apply str_eqb_eq in E. now rewrite E.
Qed.

(** X6. The key does not depend on how the account number is written: lower
    case, spaces and punctuation give the same key as the compact upper-case
    account number, as long as the account number has a letter or a digit. *)
Theorem calculer_cle_rib_presentation (cb cg nc : str) :
  compacter nc <> [] ->
  calculer_cle_rib cb cg nc = calculer_cle_rib cb cg (upper (compacter nc)).
Proof.
  intros N. unfold calculer_cle_rib. rewrite lettres_vers_nombres_compact.
  assert (T1 : truthy nc = true).
  { apply truthy_nonempty. intros ->. now apply N. }
  assert (T2 : truthy (upper (compacter nc)) = true).
  { apply truthy_nonempty. intros E. apply N.
    destruct (compacter nc); [reflexivity|discriminate]. }
  now rewrite T1, T2.
Qed.

Lemma calculer_cle_rib_presentation_witness :
  compacter (lit "ab-123 456.z") <> []
  /\ calculer_cle_rib (lit "12345") (lit "67890") (lit "ab-123 456.z")
     = calculer_cle_rib (lit "12345") (lit "67890") (lit "AB123456Z").
Proof.
  assert (N : compacter (lit "ab-123 456.z") <> []) by (vm_compute; discriminate).
  split; [exact N|].
  exact (@calculer_cle_rib_presentation (lit "12345") (lit "67890") _ N).
Defined.

(** *** The components of a built IBAN *)

Lemma to_base10_some_alnum s d : to_base10 s = Some d -> forallb is_alnum s = true.
Proof.
  revert d; induction s as [|c s IH]; cbn [to_base10 forallb]; [reflexivity|].
  intros d. destruct (base36 c) eqn:Eb; [|discriminate].
  destruct (to_base10 s) eqn:Es; [|discriminate]. intros _.
  rewrite (IH _ eq_refl), andb_true_r.
  assert (H : implb (match base36 c with Some _ => true | None => false end)
                (is_alnum c) = true) by (by_ascii_table c).
  now rewrite Eb in H.
Qed.

Lemma construire_iban_fr_some cb cg nc cle :
  construire_iban_fr cb cg nc cle <> [] ->
  cb <> [] /\ cg <> [] /\ nc <> [] /\ cle <> []
  /\ forallb is_alnum (cb ++ cg ++ nc ++ cle) = true.
Proof.
  unfold construire_iban_fr. cbn [forallb].
  destruct (truthy cb) eqn:T1, (truthy cg) eqn:T2, (truthy nc) eqn:T3,
    (truthy cle) eqn:T4; cbn [andb negb]; try congruence.
  unfold from_bban.
  destruct (to_base10 ((cb ++ cg ++ nc ++ cle) ++ lit "FR" ++ lit "00")) as [d|] eqn:B;
    [|congruence].
  intros _. apply to_base10_some_alnum in B. rewrite forallb_app in B.
  apply andb_true_iff in B as [B _].
  repeat split; auto; now apply truthy_nonempty.
Qed.

Lemma calculer_cle_rib_chiffres cb cg nc :
  forallb is_digit (calculer_cle_rib cb cg nc) = true.
Proof.
  unfold calculer_cle_rib.
  destruct (truthy cb && truthy cg && truthy nc); cbn [negb]; [|reflexivity].
  set (base := cb ++ cg ++ lettres_vers_nombres nc).
  destruct (isdigit base); cbn [negb]; [|reflexivity].
  pose proof (Z.mod_pos_bound (int_of base) 97 ltac:(lia)) as Hm.
  assert (Hr : (0 <= 97 - int_of base mod 97 <= 99)%Z) by lia.
  now destruct (format_02d_two_digits Hr) as (_ & _ & D).
Qed.

Lemma skipn4_iban_de bban :
  forallb is_alnum bban = true -> skipn 4 (iban_de bban) = upper bban.
Proof.
  intros Ha. unfold iban_de. destruct (cle_iban_digits _ Ha) as [Lk _].
  destruct (cle_iban bban) as [|k1 [|k2 [|? ?]]]; try discriminate. reflexivity.
Qed.

End CleFacts.


(** ** Beyond the extraction core: what the IBAN search finds *)

Module IbanTrouveFacts.

Import PyFacts IbanFacts RibFacts ReFacts IbanSearchFacts TexteFacts Utils iban_lib.

Lemma non_sep_to_upper c :
  non (any_of (lit " -.")) (to_upper c) = non (any_of (lit " -.")) c.
Proof.
  assert (H : Bool.eqb (non (any_of (lit " -.")) (to_upper c))
                (non (any_of (lit " -.")) c) = true) by (by_ascii_table c).
  now apply Bool.eqb_prop in H.
Qed.

Lemma filter_upper (p : ascii -> bool) s :
  (forall c, p (to_upper c) = p c) -> filter p (upper s) = upper (filter p s).
Proof.
  intros H. induction s as [|c s IH]; [reflexivity|].
  cbn [upper map filter]. fold (upper s). rewrite H, IH.
  now destruct (p c).
Qed.

Lemma filter_incl_fix (p : ascii -> bool) (z l : str) :
  (forall x, In x z -> In x (filter p l)) -> filter p z = z.
Proof.
  intros H. apply filter_all, forallb_forall. intros x Hx.
  now apply H, filter_In in Hx.
Qed.

(** [compact] is idempotent, and undoes the blocks of [format]. *)
Lemma compact_idem i : compact (compact i) = compact i.
Proof.
  unfold compact.
  set (z := strip (filter (non (any_of (lit " -."))) i)).
  rewrite (filter_upper _ _ non_sep_to_upper).
  rewrite (@filter_incl_fix _ z i) by (intros x Hx; now apply strip_incl in Hx).
  rewrite strip_upper. unfold z. now rewrite strip_idem, upper_idem.
Qed.

Lemma filter_group4_gen (p : ascii -> bool) k s :
  p " "%char = false -> filter p (group4 k s) = filter p s.
Proof.
  intros Hsp. revert k; induction s as [|c s IH]; intros k; [reflexivity|].
  destruct k; cbn [group4 filter]; rewrite ?Hsp, IH; reflexivity.
Qed.

Lemma compact_format i : compact (format i) = compact i.
Proof.
  unfold format. transitivity (compact (compact i)); [|apply compact_idem].
  unfold compact at 1 3. now rewrite filter_group4_gen by reflexivity.
Qed.

Lemma compact_nil_decomposer i : compact i = [] -> decomposer_iban_fr i = absent4.
Proof.
  intros E. unfold decomposer_iban_fr. rewrite E.
  destruct (truthy i); reflexivity.
Qed.

Lemma decomposer_compact_eq a b :
  compact a = compact b -> decomposer_iban_fr a = decomposer_iban_fr b.
Proof.
  intros E. destruct (compact b) as [|x r] eqn:Eb.
  - rewrite (compact_nil_decomposer _ E), (compact_nil_decomposer _ Eb). reflexivity.
  - unfold decomposer_iban_fr. rewrite E, Eb.
    assert (Ta : truthy a = true) by (destruct a; [discriminate E|reflexivity]).
    assert (Tb : truthy b = true) by (destruct b; [discriminate Eb|reflexivity]).
    now rewrite Ta, Tb.
Qed.

(** X9. [decomposer_iban_fr] does not depend on how the IBAN is written:
    the text in one block given by [iban_lib.compact] and the text in blocks
    of four given by [iban_lib.format] decompose like the IBAN itself. *)
Theorem decomposer_iban_fr_presentation (i : str) :
  decomposer_iban_fr (compact i) = decomposer_iban_fr i
  /\ decomposer_iban_fr (format i) = decomposer_iban_fr i.
Proof.
  split; apply decomposer_compact_eq; [apply compact_idem|apply compact_format].
Qed.

(** *** The search in the compact text *)

Lemma forme_iban_fr_sem c cs :
  forme_iban_fr c = true -> sem PAT_IBAN_FR_COMPACT c cs cs.
Proof.
  intros F. unfold forme_iban_fr in F.
  apply andb_true_iff in F as [F Hb]. apply andb_true_iff in F as [F Hd].
  apply andb_true_iff in F as [Hl Hs]. apply Nat.eqb_eq in Hl.
  destruct c as [|f [|r [|d1 [|d2 bban]]]]; try discriminate.
  cbn [startswith lit list_ascii_of_string] in Hs.
  apply andb_true_iff in Hs as [Hf Hs']. apply andb_true_iff in Hs' as [Hr _].
  apply Ascii.eqb_eq in Hf, Hr. subst f r.
  cbn [skipn] in Hb. cbn [slice skipn firstn Nat.sub] in Hd.
  cbn [length] in Hl.
  unfold PAT_IBAN_FR_COMPACT. cbn [Cat sem].
  exists (lit "FR"), (d1 :: d2 :: bban), cs. split; [reflexivity|].
  split; [now apply sem_Lit|].
  exists [d1; d2], bban, cs. split; [reflexivity|].
  split; [split; [exact Hd|split; [cbn; lia|reflexivity]]|].
  split; [exact Hb|split; [lia|reflexivity]].
Qed.

Lemma sem_forme_iban_fr m cs cs' :
  sem PAT_IBAN_FR_COMPACT m cs cs' -> forme_iban_fr m = true.
Proof.
  unfold PAT_IBAN_FR_COMPACT. cbn [Cat sem].
  intros (m1 & m2 & c1 & -> & S1 & m3 & m4 & c2 & -> & (Hd & Ld & _) & (Hb & Lb & _)).
  apply sem_Lit in S1 as [-> _].
  destruct m3 as [|d1 [|d2 [|? ?]]]; cbn [length] in Ld; try lia.
  unfold forme_iban_fr.
  cbn [lit list_ascii_of_string app length skipn slice firstn Nat.sub startswith].
  rewrite Hb, Hd. assert (length m4 = 23) as -> by lia. reflexivity.
Qed.

Lemma prefix_firstn (A : Type) (m s' : list A) : firstn (length m) (m ++ s') = m.
Proof.
  rewrite firstn_app, firstn_all, Nat.sub_diag. cbn [firstn]. apply app_nil_r.
Qed.

Lemma premiere_forme_fr_some u c :
  premiere_forme_fr u = Some c -> forme_iban_fr c = true.
Proof.
  induction u as [|x u IH]; cbn [premiere_forme_fr].
  - destruct (forme_iban_fr (firstn 27 [])) eqn:F; [|discriminate].
    intros E. apply LoopFacts.some_eq in E. subst c. exact F.
  - destruct (forme_iban_fr (firstn 27 (x :: u))) eqn:F; [|exact IH].
    intros E. apply LoopFacts.some_eq in E. subst c. exact F.
Qed.

(** The scan reaches the leftmost block of the French shape. *)
Lemma finditer_premiere_forme u :
  forall prev c,
    premiere_forme_fr u = Some c ->
    In c (map fst (finditer_from PAT_IBAN_FR_COMPACT prev u 0)).
Proof.
  induction u as [|x u IH]; intros prev c.
  - cbn. discriminate.
  - cbn [premiere_forme_fr finditer_from].
    destruct (forme_iban_fr (firstn 27 (x :: u))) eqn:F.
    + intros E. apply LoopFacts.some_eq in E. subst c.
      assert (M : match_here PAT_IBAN_FR_COMPACT prev (x :: u) <> None).
      { pose proof (firstn_skipn 27 (x :: u)) as Ew.
        set (w := x :: u) in *. rewrite <- Ew. unfold match_here.
        apply exec_complete with (cs' := []); [reflexivity| |discriminate].
        now apply forme_iban_fr_sem. }
      destruct (match_here PAT_IBAN_FR_COMPACT prev (x :: u)) as [[m cs]|] eqn:E;
        [|contradiction].
      destruct (match_here_sound _ _ _ E) as (s' & Es & S).
      apply sem_PAT_IBAN_FR_COMPACT in S as (L & _).
      left. cbn [fst]. rewrite Es, <- L. symmetry. apply prefix_firstn.
    + intros P.
      destruct (match_here PAT_IBAN_FR_COMPACT prev (x :: u)) as [[m cs]|] eqn:E.
      * exfalso. destruct (match_here_sound _ _ _ E) as (s' & Es & S).
        pose proof (sem_forme_iban_fr S) as Fm.
        apply sem_PAT_IBAN_FR_COMPACT in S as (L & _).
        rewrite Es, <- L, prefix_firstn, Fm in F. discriminate.
      * now apply IH.
Qed.

Lemma insert_by_complete h x y l : x = y \/ In x l -> In x (insert_by h y l).
Proof.
  induction l as [|z l IH]; cbn [insert_by].
  - intros [->|[]]. now left.
  - destruct (h y <=? h z).
    + intros [->|H]; [now left|now right].
    + intros [->|[->|H]]; [right; apply IH; now left|now left|right; apply IH; now right].
Qed.

(** Whatever the hash, the iteration over a set yields all its elements. *)
Lemma set_iter_complete h l x : In x l -> In x (set_iter h l).
Proof.
  unfold set_iter. rewrite <- (nodup_In (list_eq_dec ascii_dec) l x).
  induction (nodup (list_eq_dec ascii_dec) l) as [|y n IH]; cbn [fold_right].
  - intros [].
  - intros [->|H]; apply insert_by_complete; [now left|right; auto].
Qed.

(** X10. The search does find: when the leftmost block of the shape
    FR + 2 digits + 23 capitals or digits in the compact upper-case text
    passes the checksum, [extraire_iban_valide] returns an IBAN, not the
    absent marker, whatever the order in which the set of candidates is
    visited; and when that block is the whole compact text, it returns this
    very block in groups of four. *)
Theorem extraire_iban_valide_trouve (h : str -> nat) (t c : str) :
  premiere_forme_fr (upper (compacter t)) = Some c ->
  is_valid c = true ->
  extraire_iban_valide h t <> []
  /\ is_valid (extraire_iban_valide h t) = true
  /\ (upper (compacter t) = c -> extraire_iban_valide h t = group4 4 c).
Proof.
  intros P V.
  assert (N : extraire_iban_valide h t <> []).
  { unfold extraire_iban_valide.
    destruct (find is_valid
                (set_iter h (findall PAT_IBAN_FR_COMPACT (upper (compacter t)))))
      as [cand|] eqn:F.
    - apply find_some in F as [Hin _].
      apply set_iter_in, findall_sound in Hin as (pre & post & cs & E & S).
      apply sem_PAT_IBAN_FR_COMPACT in S as (L & St & C).
      rewrite (format_caps _ C). apply group4_nonempty.
      intros ->. discriminate L.
    - exfalso.
      assert (Hin : In c (set_iter h (findall PAT_IBAN_FR_COMPACT (upper (compacter t)))))
        by (apply set_iter_complete, finditer_premiere_forme, P).
      pose proof (find_none _ _ F _ Hin) as Vc. congruence. }
  split; [exact N|].
  destruct (extraire_iban_valide_cases h t) as [E|(x & B & E)]; [contradiction|].
  destruct B as ((pre & post & Hx) & L & S & C & Vx). split.
  - rewrite E, (@is_valid_compact _ x); [exact Vx|].
    now rewrite (compact_group4 _ C), (compact_caps _ C).
  - intros U. rewrite E. f_equal.
    pose proof (premiere_forme_fr_some _ P) as Fc.
    unfold forme_iban_fr in Fc. apply andb_true_iff in Fc as [Fc _].
    apply andb_true_iff in Fc as [Fc _]. apply andb_true_iff in Fc as [Lc _].
    apply Nat.eqb_eq in Lc.
    rewrite U in Hx. pose proof (f_equal (@length ascii) Hx) as El.
    rewrite !length_app, L, Lc in El.
    destruct pre; [|cbn [length] in El; lia].
    destruct post; [|cbn [length] in El; lia].
    cbn [app] in Hx. now rewrite app_nil_r in Hx.
Qed.

(** A labelled IBAN in lower case, with a hyphen. *)
Lemma extraire_iban_valide_trouve_witness :
  premiere_forme_fr
    (upper (compacter (lit "Iban : fr76-3000 6000 0112 3456 7890 189")))
  = Some (lit "FR7630006000011234567890189")
  /\ is_valid (lit "FR7630006000011234567890189") = true
  /\ extraire_iban_valide (fun _ => 0)
       (lit "Iban : fr76-3000 6000 0112 3456 7890 189") <> []
  /\ is_valid
       (extraire_iban_valide (fun _ => 0)
          (lit "Iban : fr76-3000 6000 0112 3456 7890 189")) = true.
Proof.
  assert (P : premiere_forme_fr
                (upper (compacter (lit "Iban : fr76-3000 6000 0112 3456 7890 189")))
              = Some (lit "FR7630006000011234567890189"))
    by (vm_compute; reflexivity).
  assert (V : is_valid (lit "FR7630006000011234567890189") = true)
    by (vm_compute; reflexivity).
  split; [exact P|]. split; [exact V|].
  destruct (@extraire_iban_valide_trouve (fun _ => 0) _ _ P V) as (N & W & _).
  split; [exact N|exact W].
Defined.

(** X24. The order in which Python visits the set of candidates matters
    only when the text holds two different valid French IBANs: for any two
    orders, [extraire_iban_valide] returns the same IBAN, or the compact
    text contains two distinct blocks of the French shape that both pass
    the checksum.  On such a text the answer does change with the order. *)
Theorem extraire_iban_valide_ordre (h1 h2 : str -> nat) (t : str) :
  (extraire_iban_valide h1 t = extraire_iban_valide h2 t
   \/ exists x y,
        x <> y /\ forme_iban_fr x = true /\ forme_iban_fr y = true
        /\ bloc_fr27 t x /\ bloc_fr27 t y)
  /\ extraire_iban_valide (fun _ => 0) deux_ibans
     = lit "FR76 3000 6000 0112 3456 7890 189"
  /\ extraire_iban_valide hash_troisieme deux_ibans
     = lit "FR58 1234 5678 9000 0000 0000 100".
Proof.
  split; [|split; vm_compute; reflexivity].
  unfold extraire_iban_valide.
  set (L := findall PAT_IBAN_FR_COMPACT (upper (compacter t))).
  assert (Bloc : forall h c, find is_valid (set_iter h L) = Some c ->
                 In c L /\ is_valid c = true /\ forme_iban_fr c = true
                 /\ bloc_fr27 t c).
  { intros h c F. apply find_some in F as [Hin V].
    apply set_iter_in in Hin. split; [exact Hin|]. split; [exact V|].
    apply findall_sound in Hin as (pre & post & cs & E & S).
    pose proof (sem_forme_iban_fr S) as Fc.
    apply sem_PAT_IBAN_FR_COMPACT in S as (Lc & St & C).
    split; [exact Fc|]. split; [now exists pre, post|auto]. }
  destruct (find is_valid (set_iter h1 L)) as [c1|] eqn:F1,
           (find is_valid (set_iter h2 L)) as [c2|] eqn:F2.
  - destruct (Bloc _ _ F1) as (_ & _ & G1 & B1).
    destruct (Bloc _ _ F2) as (_ & _ & G2 & B2).
    destruct (list_eq_dec ascii_dec c1 c2) as [->|N]; [now left|].
    right. now exists c1, c2.
  - exfalso. destruct (Bloc _ _ F1) as (Hin & V & _).
    pose proof (find_none _ _ F2 _ (set_iter_complete h2 _ _ Hin)). congruence.
  - exfalso. destruct (Bloc _ _ F2) as (Hin & V & _).
    pose proof (find_none _ _ F1 _ (set_iter_complete h1 _ _ Hin)). congruence.
  - now left.
Qed.

End IbanTrouveFacts.


(** ** Beyond the extraction core: the BIC validator and its callers *)

Module BicValideFacts.

Import PyFacts IbanFacts UtilsFacts BicFacts TexteFacts.

Lemma truthy_false (s : str) : truthy s = false -> s = [].
Proof. destruct s; [reflexivity|discriminate]. Qed.

Lemma candidat_bic_alnum raw : forallb is_alnum (candidat_bic raw) = true.
Proof.
  unfold candidat_bic. apply caps_alnum, upper_alnum_caps.
  apply forallb_forall. intros x Hx. now apply filter_In in Hx.
Qed.

Lemma candidat_bic_idem raw : candidat_bic (candidat_bic raw) = candidat_bic raw.
Proof.
  unfold candidat_bic at 1. rewrite (filter_all _ _ (candidat_bic_alnum raw)).
  unfold candidat_bic. apply upper_idem.
Qed.

Lemma candidat_bic_upper raw : candidat_bic (upper raw) = candidat_bic raw.
Proof.
  unfold candidat_bic. now rewrite filter_upper_alnum, upper_idem.
Qed.

Lemma bic_fr_tests b :
  bic_fr b <->
  ((length b =? 8) || (length b =? 11)) = true
  /\ (isalpha (firstn 4 b) && isalpha (slice 4 6 b)) = true
  /\ str_eqb (slice 4 6 b) (lit "FR") = true.
Proof.
  unfold bic_fr. split.
  - intros (L & A4 & A2 & F). split; [|split].
    + apply orb_true_iff. destruct L as [L|L]; [left|right]; now apply Nat.eqb_eq.
    + unfold isalpha. rewrite A4, A2, F, !andb_true_r.
      assert (4 <= length b) by (destruct L; lia).
      do 4 (destruct b as [|? b]; [cbn in *; lia|]). reflexivity.
    + rewrite F. now apply str_eqb_eq.
  - intros (L & A & F). apply andb_true_iff in A as [A4 A2].
    unfold isalpha in A4, A2.
    apply andb_true_iff in A4 as [_ A4]. apply andb_true_iff in A2 as [_ A2].
    apply str_eqb_eq in F. repeat split; auto.
    apply orb_true_iff in L as [L|L]; apply Nat.eqb_eq in L; auto.
Qed.

Lemma valider_normaliser_bic_eq bic_lib raw :
  Utils.valider_normaliser_bic bic_lib raw =
  if negb (truthy raw) then []
  else
    let bic := candidat_bic raw in
    if negb ((length bic =? 8) || (length bic =? 11)) then []
    else if negb (isalpha (firstn 4 bic) && isalpha (slice 4 6 bic)) then []
    else if negb (str_eqb (slice 4 6 bic) (lit "FR")) then []
    else match bic_lib with
         | Some lib_is_valid => if lib_is_valid bic then bic else []
         | None => bic
         end.
Proof.
  unfold Utils.valider_normaliser_bic, candidat_bic.
  now rewrite filter_upper_alnum.
Qed.

Lemma bic_fr_nonempty b : bic_fr b -> b <> [].
Proof. intros ([L|L] & _) ->; discriminate L. Qed.

(** X11. [valider_normaliser_bic] accepts exactly the French codes the
    optional validator does not refuse: it returns a value if and only if
    the candidate (alphanumerics of the input, in upper case) has 8 or 11
    characters, six leading letters, FR in positions 5-6, and is accepted by
    the validator when there is one. *)
Theorem valider_normaliser_bic_accepte (bic_lib : option (str -> bool)) (raw : str) :
  Utils.valider_normaliser_bic bic_lib raw <> [] <->
  bic_fr (candidat_bic raw)
  /\ (forall v, bic_lib = Some v -> v (candidat_bic raw) = true).
Proof.
  rewrite valider_normaliser_bic_eq. cbv zeta. split.
  - destruct (truthy raw); cbn [negb]; [|congruence].
    destruct ((length (candidat_bic raw) =? 8) || (length (candidat_bic raw) =? 11))
      eqn:L; cbn [negb]; [|congruence].
    destruct (isalpha (firstn 4 (candidat_bic raw))
              && isalpha (slice 4 6 (candidat_bic raw))) eqn:A; cbn [negb];
      [|congruence].
    destruct (str_eqb (slice 4 6 (candidat_bic raw)) (lit "FR")) eqn:F; cbn [negb];
      [|congruence].
    intros N. split; [now apply bic_fr_tests|].
    intros v ->. destruct (v (candidat_bic raw)); congruence.
  - intros [B V]. pose proof (bic_fr_nonempty B) as N.
    apply bic_fr_tests in B as (L & A & F).
    assert (T : truthy raw = true).
    { destruct raw; [now elim N|reflexivity]. }
    rewrite T, L, A, F. cbn [negb].
    destruct bic_lib as [v|]; [now rewrite (V v eq_refl)|exact N].
Qed.

(** X12. The validator works on a normal form: it gives the same answer on
    an input, on its upper case and on its candidate, and what it returns
    it accepts again unchanged. *)
Theorem valider_normaliser_bic_forme_normale (bic_lib : option (str -> bool)) (raw : str) :
  Utils.valider_normaliser_bic bic_lib (candidat_bic raw)
  = Utils.valider_normaliser_bic bic_lib raw
  /\ Utils.valider_normaliser_bic bic_lib (upper raw)
     = Utils.valider_normaliser_bic bic_lib raw
  /\ Utils.valider_normaliser_bic bic_lib (Utils.valider_normaliser_bic bic_lib raw)
     = Utils.valider_normaliser_bic bic_lib raw.
Proof.
  assert (E : forall a b, candidat_bic a = candidat_bic b ->
              Utils.valider_normaliser_bic bic_lib a
              = Utils.valider_normaliser_bic bic_lib b).
  { intros a b H. rewrite !valider_normaliser_bic_eq, H. cbv zeta.
    destruct (candidat_bic b) as [|x r] eqn:Eb.
    - destruct (truthy a), (truthy b); reflexivity.
    - assert (Ta : truthy a = true) by (destruct a; [discriminate H|reflexivity]).
      assert (Tb : truthy b = true) by (destruct b; [discriminate Eb|reflexivity]).
      now rewrite Ta, Tb. }
  assert (C : Utils.valider_normaliser_bic bic_lib (candidat_bic raw)
              = Utils.valider_normaliser_bic bic_lib raw)
    by (apply E, candidat_bic_idem).
  split; [exact C|]. split; [apply E, candidat_bic_upper|].
  destruct (valider_normaliser_bic_cases bic_lib raw) as [H|[H _]].
  - rewrite H. reflexivity.
  - rewrite H at 1. rewrite C. reflexivity.
Qed.

(** *** The extractor of src/utils.py and the optional validator *)

Lemma premier_valide_pick bic_lib cands :
  Utils.premier_valide bic_lib cands = []
  \/ exists cand, In cand cands
       /\ Utils.premier_valide bic_lib cands = Utils.valider_normaliser_bic bic_lib cand
       /\ Utils.valider_normaliser_bic bic_lib cand <> [].
Proof.
  induction cands as [|c cs IH]; cbn [Utils.premier_valide]; [now left|].
  destruct (truthy (Utils.valider_normaliser_bic bic_lib c)) eqn:T.
  - right. exists c. split; [now left|]. split; [reflexivity|].
    now apply truthy_nonempty.
  - destruct IH as [E|(cand & Hin & E & N)]; [now left|].
    right. exists cand. split; [now right|auto].
Qed.

Lemma valider_normaliser_bic_verdict v raw :
  Utils.valider_normaliser_bic (Some v) raw = []
  \/ v (Utils.valider_normaliser_bic (Some v) raw) = true.
Proof.
  rewrite valider_normaliser_bic_eq. cbv zeta.
  destruct (negb (truthy raw)); [now left|].
  destruct (negb _); [now left|].
  destruct (negb _); [now left|].
  destruct (negb _); [now left|].
  destruct (v (candidat_bic raw)) eqn:V; [now right|now left].
Qed.

Lemma premier_valide_approuve v cands :
  Utils.premier_valide (Some v) cands = []
  \/ v (Utils.premier_valide (Some v) cands) = true.
Proof.
  destruct (premier_valide_pick (Some v) cands) as [E|(cand & _ & E & N)];
    [now left|right].
  rewrite E. destruct (valider_normaliser_bic_verdict v cand) as [H|H];
    [contradiction|exact H].
Qed.

Lemma valider_normaliser_bic_sans_lib bic_lib raw :
  Utils.valider_normaliser_bic None raw = [] ->
  Utils.valider_normaliser_bic bic_lib raw = [].
Proof.
  rewrite !valider_normaliser_bic_eq. cbv zeta.
  destruct (negb (truthy raw)); [reflexivity|].
  destruct (negb _); [reflexivity|].
  destruct (negb _); [reflexivity|].
  destruct (negb _); [reflexivity|].
  intros ->. destruct bic_lib as [v|]; [destruct (v [])|]; reflexivity.
Qed.

Lemma premier_valide_sans_lib bic_lib cands :
  Utils.premier_valide None cands = [] -> Utils.premier_valide bic_lib cands = [].
Proof.
  induction cands as [|c cs IH]; cbn [Utils.premier_valide]; [reflexivity|].
  destruct (truthy (Utils.valider_normaliser_bic None c)) eqn:T.
  - intros H. rewrite H in T. discriminate.
  - intros H. apply truthy_false in T.
    rewrite (valider_normaliser_bic_sans_lib bic_lib _ T). cbn [truthy]. auto.
Qed.

Lemma bic_par_label_approuve v lignes :
  Utils.bic_par_label (Some v) lignes = []
  \/ v (Utils.bic_par_label (Some v) lignes) = true.
Proof.
  induction lignes as [|l ls IH]; cbn [Utils.bic_par_label]; [now left|].
  destruct (search Utils.PAT_BIC l); [|exact IH].
  match goal with |- context [truthy ?x] => destruct (truthy x) eqn:T1 end.
  - match type of T1 with truthy (Utils.premier_valide _ ?c) = true =>
      destruct (premier_valide_approuve v c) as [E|B]
    end; [rewrite E in T1; discriminate|now right].
  - match goal with |- context [truthy ?x] => destruct (truthy x) eqn:T2 end;
      [|exact IH].
    match type of T2 with truthy (Utils.premier_valide _ ?c) = true =>
      destruct (premier_valide_approuve v c) as [E|B]
    end; [rewrite E in T2; discriminate|now right].
Qed.

Lemma bic_par_label_sans_lib bic_lib lignes :
  Utils.bic_par_label None lignes = [] -> Utils.bic_par_label bic_lib lignes = [].
Proof.
  induction lignes as [|l ls IH]; cbn [Utils.bic_par_label]; [reflexivity|].
  destruct (search Utils.PAT_BIC l); [|exact IH].
  match goal with |- context [truthy (Utils.premier_valide None ?c)] =>
    destruct (truthy (Utils.premier_valide None c)) eqn:T1;
      [intros H; rewrite H in T1; discriminate|];
    apply truthy_false in T1;
    rewrite (premier_valide_sans_lib bic_lib _ T1)
  end.
  cbn [truthy].
  match goal with |- context [truthy (Utils.premier_valide None ?c)] =>
    destruct (truthy (Utils.premier_valide None c)) eqn:T2;
      [intros H; rewrite H in T2; discriminate|];
    apply truthy_false in T2;
    rewrite (premier_valide_sans_lib bic_lib _ T2)
  end.
  cbn [truthy]. exact IH.
Qed.

(** X13. In src/utils.py the optional validator has the last word and can
    only remove answers: a code returned by [extraire_bic_valide] when a
    validator is loaded is one the validator accepts, and a text in which
    the extractor finds nothing without validator gives nothing with any
    validator. *)
Theorem extraire_bic_valide_validateur (v : str -> bool) (texte : str) :
  (Utils.extraire_bic_valide (Some v) texte = []
   \/ v (Utils.extraire_bic_valide (Some v) texte) = true)
  /\ (Utils.extraire_bic_valide None texte = [] ->
      Utils.extraire_bic_valide (Some v) texte = []).
Proof.
  split.
  - unfold Utils.extraire_bic_valide.
    destruct (truthy (Utils.bic_par_label (Some v) (splitlines texte))) eqn:T.
    + destruct (bic_par_label_approuve v (splitlines texte)) as [E|B];
        [rewrite E in T; discriminate|now right].
    + apply premier_valide_approuve.
  - unfold Utils.extraire_bic_valide.
    destruct (truthy (Utils.bic_par_label None (splitlines texte))) eqn:T.
    + intros H. rewrite H in T. discriminate.
    + intros H. apply truthy_false in T.
      rewrite (bic_par_label_sans_lib (Some v) _ T). cbn [truthy].
      now apply premier_valide_sans_lib.
Qed.

(** *** The extractor of src/rib_extractor.py ignores the validator *)

Lemma bic_dans_candidats_lib bic_lib cands :
  RibExtractor.bic_dans_candidats bic_lib cands
  = RibExtractor.bic_dans_candidats None cands.
Proof.
  induction cands as [|c cs IH]; cbn [RibExtractor.bic_dans_candidats]; [reflexivity|].
  rewrite IH. destruct (RibExtractor.structure_ok c); [|reflexivity].
  destruct (RibExtractor.mot_adresse c); [reflexivity|].
  destruct bic_lib as [v|]; [destruct (v c)|]; reflexivity.
Qed.

Lemma bic_dans_fenetre_lib bic_lib fenetre :
  RibExtractor.bic_dans_fenetre bic_lib fenetre
  = RibExtractor.bic_dans_fenetre None fenetre.
Proof.
  induction fenetre as [|l ls IH]; cbn [RibExtractor.bic_dans_fenetre]; [reflexivity|].
  now rewrite IH, bic_dans_candidats_lib.
Qed.

Lemma rib_bic_par_label_lib bic_lib lignes :
  RibExtractor.bic_par_label bic_lib lignes = RibExtractor.bic_par_label None lignes.
Proof.
  induction lignes as [|l ls IH]; cbn [RibExtractor.bic_par_label]; [reflexivity|].
  now rewrite IH, bic_dans_fenetre_lib.
Qed.

(** X14. In src/rib_extractor.py the optional validator changes nothing:
    [extraire_bic_valide] returns the same code whether a validator is
    loaded or not, and whatever the validator answers. *)
Theorem rib_extraire_bic_valide_sans_validateur
    (bic_lib : option (str -> bool)) (texte : str) :
  RibExtractor.extraire_bic_valide bic_lib texte
  = RibExtractor.extraire_bic_valide None texte.
Proof.
  unfold RibExtractor.extraire_bic_valide. now rewrite rib_bic_par_label_lib.
Qed.

(** *** The three truncations of a BIC *)

Lemma candidat_bic_caps raw : forallb Utils.upper_or_digit (candidat_bic raw) = true.
Proof.
  unfold candidat_bic. apply upper_alnum_caps.
  apply forallb_forall. intros x Hx. now apply filter_In in Hx.
Qed.

Lemma candidat_bic_of_caps r :
  forallb Utils.upper_or_digit r = true -> candidat_bic r = r.
Proof.
  intros C. unfold candidat_bic.
  rewrite (filter_all _ _ (caps_alnum _ C)). now apply upper_caps.
Qed.

Lemma utils_nettoyer_bic_ocr_eq chunk :
  Utils.nettoyer_bic_ocr chunk =
  let bic := candidat_bic chunk in
  if 11 <=? length bic then firstn 11 bic
  else if 8 <=? length bic then firstn 8 bic else bic.
Proof.
  unfold Utils.nettoyer_bic_ocr. destruct chunk; reflexivity.
Qed.

Lemma rib_nettoyer_bic_ocr_eq chunk :
  RibExtractor.nettoyer_bic_ocr chunk =
  let bic := candidat_bic chunk in
  if 11 <=? length bic then firstn 11 bic
  else if 8 <=? length bic then firstn 8 bic else [].
Proof.
  unfold RibExtractor.nettoyer_bic_ocr. destruct chunk; reflexivity.
Qed.

(** X15. [nettoyer_bic] of src/app.py is [nettoyer_bic_ocr] of src/utils.py
    on every string, and [nettoyer_bic_ocr] of src/rib_extractor.py differs
    from them only below 8 characters, where it returns the empty string;
    what they return has at most 11 characters, never 9 or 10, no
    lower-case letter, and is returned unchanged when cleaned again. *)
Theorem nettoyer_bic_trois_versions (chunk : str) :
  App.nettoyer_bic (App.JStr chunk) = Some (Utils.nettoyer_bic_ocr chunk)
  /\ RibExtractor.nettoyer_bic_ocr chunk
     = (if 8 <=? length (candidat_bic chunk) then Utils.nettoyer_bic_ocr chunk else [])
  /\ forallb Utils.upper_or_digit (Utils.nettoyer_bic_ocr chunk) = true
  /\ (length (Utils.nettoyer_bic_ocr chunk) < 8
      \/ length (Utils.nettoyer_bic_ocr chunk) = 8
      \/ length (Utils.nettoyer_bic_ocr chunk) = 11)
  /\ Utils.nettoyer_bic_ocr (Utils.nettoyer_bic_ocr chunk) = Utils.nettoyer_bic_ocr chunk
  /\ RibExtractor.nettoyer_bic_ocr (RibExtractor.nettoyer_bic_ocr chunk)
     = RibExtractor.nettoyer_bic_ocr chunk.
Proof.
  pose proof (candidat_bic_caps chunk) as C.
  assert (Idem : forall r, forallb Utils.upper_or_digit r = true ->
                 length r < 8 \/ length r = 8 \/ length r = 11 ->
                 Utils.nettoyer_bic_ocr r = r
                 /\ ((8 <= length r) \/ r = [] -> RibExtractor.nettoyer_bic_ocr r = r)).
  { intros r Cr Lr.
    rewrite utils_nettoyer_bic_ocr_eq, rib_nettoyer_bic_ocr_eq,
      (candidat_bic_of_caps _ Cr). cbv zeta.
    destruct (Nat.leb_spec 11 (length r)) as [H11|H11].
    - split; intros; apply firstn_all2; lia.
    - destruct (Nat.leb_spec 8 (length r)) as [H8|H8].
      + split; intros; apply firstn_all2; lia.
      + split; [reflexivity|]. intros [H|H]; [lia|now rewrite H]. }
  rewrite utils_nettoyer_bic_ocr_eq, rib_nettoyer_bic_ocr_eq. cbv zeta.
  set (b := candidat_bic chunk) in *.
  assert (Shape : forall n, forallb Utils.upper_or_digit (firstn n b) = true)
    by (intros n; now apply forallb_firstn).
  split; [|split; [|split; [|split]]].
  - unfold App.nettoyer_bic. destruct chunk as [|x chunk]; [reflexivity|].
    cbn [App.falsy truthy negb]. fold (candidat_bic (x :: chunk)). fold b.
    destruct (Nat.leb_spec 11 (length b)) as [H11|H11]; [reflexivity|].
    destruct (Nat.leb_spec 8 (length b)) as [H8|H8]; [reflexivity|].
    f_equal. apply firstn_all2. lia.
  - destruct (Nat.leb_spec 11 (length b)) as [H11|H11].
    + assert ((8 <=? length b) = true) as -> by (apply Nat.leb_le; lia). reflexivity.
    + destruct (8 <=? length b); reflexivity.
  - destruct (11 <=? length b); [apply Shape|].
    destruct (8 <=? length b); [apply Shape|exact C].
  - destruct (Nat.leb_spec 11 (length b)) as [H11|H11].
    + right; right. rewrite length_firstn. lia.
    + destruct (Nat.leb_spec 8 (length b)) as [H8|H8].
      * right; left. rewrite length_firstn. lia.
      * now left.
  - split.
    + destruct (Nat.leb_spec 11 (length b)) as [H11|H11].
      * apply Idem; [apply Shape|]. right; right. rewrite length_firstn. lia.
      * destruct (Nat.leb_spec 8 (length b)) as [H8|H8].
        -- apply Idem; [apply Shape|]. right; left. rewrite length_firstn. lia.
        -- apply Idem; [exact C|now left].
    + destruct (Nat.leb_spec 11 (length b)) as [H11|H11].
      * apply Idem; [apply Shape| |left]; rewrite length_firstn; lia.
      * destruct (Nat.leb_spec 8 (length b)) as [H8|H8].
        -- apply Idem; [apply Shape| |left]; rewrite length_firstn; lia.
        -- reflexivity.
Qed.

End BicValideFacts.


(** ** Beyond the extraction core: the labelled fields and the merged row *)

Module LibellesFacts.

Import PyFacts IbanFacts UtilsFacts RibFacts ReFacts IbanSearchFacts CleFacts Utils
  iban_lib.

(** The four coded fields share one shape of pattern: a label in group 1
    between word boundaries, non-digits, and a bounded run in group 2. *)
Lemma sem_champ r p q lo hi m cs cs' :
  sem (Cat [WordB; Group 1 r; WordB; Star p; Group 2 (Rep q lo hi)]) m cs cs' ->
  forallb q (group 2 cs') = true /\ lo <= length (group 2 cs') <= hi.
Proof.
  cbn [Cat sem].
  intros (m0 & m1 & c0 & _ & _ & S).
  destruct S as (ma & mb & c1 & _ & (c1' & _ & _) & S).
  destruct S as (mc & md & c2 & _ & _ & S).
  destruct S as (me & mf & c3 & _ & _ & S).
  destruct S as (c4 & (Hq & Hl & _) & ->).
  cbn [group Nat.eqb]. auto.
Qed.

Lemma champ_forme r p q lo hi t :
  let pat := Cat [WordB; Group 1 r; WordB; Star p; Group 2 (Rep q lo hi)] in
  champ pat t = []
  \/ (forallb q (champ pat t) = true /\ lo <= length (champ pat t) <= hi).
Proof.
  intros pat. unfold champ.
  destruct (search pat t) as [[m cs]|] eqn:E; [|now left].
  right. apply search_sound in E as (pre & post & _ & S).
  cbn [snd]. exact (sem_champ S).
Qed.

Lemma icase_caps_alnum c : icase upper_or_digit c = true -> is_alnum c = true.
Proof.
  assert (H : implb (icase upper_or_digit c) (is_alnum c) = true)
    by (by_ascii_table c).
  intros E. now rewrite E in H.
Qed.

Lemma remove_space_alnum s :
  forallb is_alnum s = true -> remove_char " " s = s.
Proof.
  intros H. unfold remove_char. apply filter_all.
  rewrite forallb_forall in *. intros x Hx. specialize (H x Hx).
  assert (E : implb (is_alnum x) (negb (Ascii.eqb x " ")) = true)
    by (by_ascii_table x).
  now rewrite H in E.
Qed.

Lemma digits_caps s : forallb is_digit s = true -> forallb upper_or_digit s = true.
Proof.
  rewrite !forallb_forall. intros H x Hx. unfold upper_or_digit, either.
  now rewrite (H x Hx), orb_true_r.
Qed.

Section Champs.

Variables extraire_titulaire extraire_domiciliation : str -> str.

Lemma lb_cb_forme t :
  let lb := extraire_par_libelles extraire_titulaire extraire_domiciliation t in
  lb_cb lb = [] \/ cinq_chiffres (lb_cb lb).
Proof.
  cbn [extraire_par_libelles lb_cb].
  destruct (champ_forme (Alt (Cat [LitI (lit "code"); Star is_space; LitI (lit "banque")])
                          (Alt (LitI (lit "banque"))
                             (Cat [LitI (lit "code"); Star is_space; LitI (lit "bq")])))
              (non is_digit) is_digit 5 5 t) as [E|[D L]].
  - left. exact E.
  - right. split; [|exact D]. change (length (champ PAT_CODE_BANQUE t) = 5). 
    change (5 <= length (champ PAT_CODE_BANQUE t) <= 5) in L. lia.
Qed.

Lemma lb_cg_forme t :
  let lb := extraire_par_libelles extraire_titulaire extraire_domiciliation t in
  lb_cg lb = [] \/ cinq_chiffres (lb_cg lb).
Proof.
  cbn [extraire_par_libelles lb_cg].
  destruct (champ_forme (Alt (Cat [LitI (lit "code"); Star is_space; LitI (lit "guichet")])
                          (LitI (lit "guichet")))
              (non is_digit) is_digit 5 5 t) as [E|[D L]].
  - left. exact E.
  - right. split; [|exact D]. change (length (champ PAT_CODE_GUICHET t) = 5).
    change (5 <= length (champ PAT_CODE_GUICHET t) <= 5) in L. lia.
Qed.

Lemma lb_cle_forme t :
  let lb := extraire_par_libelles extraire_titulaire extraire_domiciliation t in
  lb_cle lb = []
  \/ (length (lb_cle lb) = 2 /\ forallb is_digit (lb_cle lb) = true).
Proof.
  cbn [extraire_par_libelles lb_cle].
  destruct (champ_forme (Alt (Cat [LitI (lit "cl"); Chr (icase (one "e")); Star is_space;
                                   LitI (lit "rib")])
                          (Cat [LitI (lit "cl"); Chr (icase (one "e"))]))
              (non is_digit) is_digit 2 2 t) as [E|[D L]].
  - left. exact E.
  - right. split; [|exact D]. change (length (champ PAT_CLE_RIB t) = 2).
    change (2 <= length (champ PAT_CLE_RIB t) <= 2) in L. lia.
Qed.

Lemma lb_nc_forme t :
  let lb := extraire_par_libelles extraire_titulaire extraire_domiciliation t in
  lb_nc lb = upper (champ PAT_NUM_COMPTE t)
  /\ (lb_nc lb = []
      \/ (5 <= length (lb_nc lb) <= 34 /\ forallb upper_or_digit (lb_nc lb) = true)).
Proof.
  cbn [extraire_par_libelles lb_nc].
  assert (A : forallb is_alnum (champ PAT_NUM_COMPTE t) = true
              /\ (champ PAT_NUM_COMPTE t = [] \/ 5 <= length (champ PAT_NUM_COMPTE t) <= 34)).
  { destruct (champ_forme
                (Alt (Cat [LitI (lit "num");
                           Opt (Cat [Chr (icase (one "e")); LitI (lit "ro")]);
                           Star is_space; LitI (lit "de"); Star is_space;
                           LitI (lit "compte")])
                   (Alt (Cat [LitI (lit "n"); Star is_space; LitI (lit "compte")])
                      (LitI (lit "compte"))))
                (non is_digit) (icase upper_or_digit) 5 34 t) as [E|[D L]].
    - change (champ PAT_NUM_COMPTE t = []) in E. rewrite E. split; [reflexivity|now left].
    - change (forallb (icase upper_or_digit) (champ PAT_NUM_COMPTE t) = true) in D.
      change (5 <= length (champ PAT_NUM_COMPTE t) <= 34) in L.
      split; [|now right].
      rewrite forallb_forall in *. intros x Hx. now apply icase_caps_alnum, D. }
  destruct A as [A L].
  rewrite (remove_space_alnum _ A).
  rewrite (filter_all _ _ (upper_alnum_caps _ A)).
  split; [reflexivity|].
  destruct L as [E|L]; [left; now rewrite E|right].
  rewrite upper_length. split; [exact L|now apply upper_alnum_caps].
Qed.

(** X16. The coded fields [extraire_par_libelles] reads after the labels
    have fixed shapes: the bank code and the branch code are absent or 5
    digits, the key is absent or 2 digits, and the account number is absent
    or 5 to 34 capitals or digits (the upper case of what the pattern
    matched). *)
Theorem extraire_par_libelles_formes (t : str) :
  let lb := extraire_par_libelles extraire_titulaire extraire_domiciliation t in
  (lb_cb lb = [] \/ cinq_chiffres (lb_cb lb))
  /\ (lb_cg lb = [] \/ cinq_chiffres (lb_cg lb))
  /\ (lb_nc lb = []
      \/ (5 <= length (lb_nc lb) <= 34 /\ forallb upper_or_digit (lb_nc lb) = true))
  /\ (lb_cle lb = []
      \/ (length (lb_cle lb) = 2 /\ forallb is_digit (lb_cle lb) = true)).
Proof.
  intros lb. split; [apply lb_cb_forme|]. split; [apply lb_cg_forme|].
  split; [apply lb_nc_forme|apply lb_cle_forme].
Qed.

End Champs.

End LibellesFacts.


(** ** Beyond the extraction core: the merge of the OCR loops *)

Module MergeFacts.

Import PyFacts IbanFacts UtilsFacts RibFacts IbanSearchFacts CleFacts LibellesFacts
  LoopFacts Utils iban_lib.

Section Merge.

Variable h : str -> nat.
Variables tit dom : str -> str.

Lemma reconcilier_coherent_rib tclean :
  coherent (RibExtractor.reconcilier h tit dom tclean).
Proof.
  unfold coherent, RibExtractor.reconcilier.
  pose proof (lb_cb_forme tit dom tclean) as Fb.
  pose proof (lb_cg_forme tit dom tclean) as Fg.
  pose proof (lb_nc_forme tit dom tclean) as [_ Fn].
  pose proof (lb_cle_forme tit dom tclean) as Fk.
  cbv zeta in Fb, Fg, Fn, Fk.
  set (lb := extraire_par_libelles tit dom tclean) in *.
  destruct (extraire_iban_valide_cases h tclean) as [E|(x & B & E)]; rewrite E.
  - cbn [truthy negb andb]. unfold absent4. cbv beta iota. rewrite !ou_absent.
    cbn [r_cb r_cg r_nc r_cle r_iban].
    set (cle := if negb (truthy (lb_cle lb))
                   && forallb truthy [lb_cb lb; lb_cg lb; lb_nc lb]
                then calculer_cle_rib (lb_cb lb) (lb_cg lb) (lb_nc lb)
                else lb_cle lb).
    assert (Dk : forallb is_digit cle = true).
    { subst cle. destruct (negb _ && _); [apply calculer_cle_rib_chiffres|].
      destruct Fk as [->|[_ D]]; [reflexivity|exact D]. }
    destruct (forallb truthy [lb_cb lb; lb_cg lb; lb_nc lb; cle]); [|now left].
    destruct (construire_iban_fr (lb_cb lb) (lb_cg lb) (lb_nc lb) cle) as [|c0 i0] eqn:C;
      [now left|right].
    assert (N : construire_iban_fr (lb_cb lb) (lb_cg lb) (lb_nc lb) cle <> [])
      by (rewrite C; discriminate).
    rewrite <- C.
    destruct (construire_iban_fr_some _ _ _ _ N) as (N1 & N2 & N3 & N4 & A).
    rewrite (construire_iban_fr_alnum N1 N2 N3 N4 A).
    split; [now apply is_valid_group4_iban_de|].
    repeat (split; [assumption|]).
    rewrite (compacter_group4 _ (iban_de_caps _ A)), (skipn4_iban_de _ A).
    apply upper_caps. rewrite !forallb_app.
    assert (Cb : forallb upper_or_digit (lb_cb lb) = true)
      by (destruct Fb as [->|[_ D]]; [reflexivity|now apply digits_caps]).
    assert (Cg : forallb upper_or_digit (lb_cg lb) = true)
      by (destruct Fg as [->|[_ D]]; [reflexivity|now apply digits_caps]).
    assert (Cn : forallb upper_or_digit (lb_nc lb) = true)
      by (destruct Fn as [->|[_ D]]; [reflexivity|exact D]).
    now rewrite Cb, Cg, Cn, (digits_caps _ Dk).
  - destruct B as (_ & L & S & C & V).
    assert (N : x <> []) by (intros ->; discriminate L).
    assert (T : truthy (group4 4 x) = true)
      by (now apply truthy_nonempty, group4_nonempty).
    rewrite T, (decomposer_caps N C S V). cbv zeta.
    assert (Lb : length (skipn 4 x) = 23) by (rewrite length_skipn; lia).
    destruct (slices_bban _ Lb) as (Eb & N1 & N2 & N3 & N4).
    set (bban := skipn 4 x) in *.
    cbv beta iota.
    rewrite (ou_present _ N1), (ou_present _ N2), (ou_present _ N3), (ou_present _ N4).
    rewrite (proj2 (truthy_nonempty _) N4). cbn [negb andb].
    cbn [r_cb r_cg r_nc r_cle r_iban]. right.
    split.
    { rewrite (@is_valid_compact _ x); [exact V|].
      now rewrite (compact_group4 _ C), (compact_caps _ C). }
    repeat (split; [assumption|]).
    rewrite (compacter_group4 _ C). fold bban. now rewrite Eb.
Qed.

(** X17. In both OCR loops the merged values are coherent: either no IBAN
    is kept, or the IBAN passes the checksum, the bank code, the branch
    code, the account number and the key are all present, and put end to
    end they are exactly what follows the country code and the check digits
    in the compact IBAN. *)
Theorem reconcilier_coherent (tclean : str) :
  coherent (RibExtractor.reconcilier h tit dom tclean)
  /\ coherent (AppWithOcr.reconcilier h tit dom tclean).
Proof.
  split; [|rewrite reconcilier_same]; apply reconcilier_coherent_rib.
Qed.

(** X18. Filling the key: when the text holds no IBAN and the labels give
    a bank code, a branch code and an account number, both loops take
    these three values as they are, keep the key read after its label when
    there is one (it is not compared with the computed key) and compute it
    otherwise; the key is then always two digits, and the IBAN is what
    [construire_iban_fr] returns on the four values. *)
Theorem reconcilier_comble (tclean : str) :
  extraire_iban_valide h tclean = [] ->
  let lb := extraire_par_libelles tit dom tclean in
  lb_cb lb <> [] -> lb_cg lb <> [] -> lb_nc lb <> [] ->
  forall r,
    r = RibExtractor.reconcilier h tit dom tclean
    \/ r = AppWithOcr.reconcilier h tit dom tclean ->
    r_cb r = lb_cb lb /\ r_cg r = lb_cg lb /\ r_nc r = lb_nc lb
    /\ r_cle r = (if truthy (lb_cle lb) then lb_cle lb
                  else calculer_cle_rib (lb_cb lb) (lb_cg lb) (lb_nc lb))
    /\ length (r_cle r) = 2 /\ forallb is_digit (r_cle r) = true
    /\ r_iban r = construire_iban_fr (lb_cb lb) (lb_cg lb) (lb_nc lb) (r_cle r).
Proof.
  intros E lb Nb Ng Nn r Hr.
  assert (r = RibExtractor.reconcilier h tit dom tclean) as ->
    by (destruct Hr as [->| ->]; reflexivity).
  clear Hr.
  pose proof (lb_cb_forme tit dom tclean) as Fb.
  pose proof (lb_cg_forme tit dom tclean) as Fg.
  pose proof (lb_cle_forme tit dom tclean) as Fk.
  cbv zeta in Fb, Fg, Fk. fold lb in Fb, Fg, Fk.
  destruct Fb as [Fb|[_ Db]]; [contradiction|].
  destruct Fg as [Fg|[_ Dg]]; [contradiction|].
  unfold RibExtractor.reconcilier. fold lb. rewrite E.
  cbn [truthy negb andb]. unfold absent4. cbv beta iota. rewrite !ou_absent.
  cbn [r_cb r_cg r_nc r_cle r_iban forallb].
  rewrite (proj2 (truthy_nonempty _) Nb), (proj2 (truthy_nonempty _) Ng),
    (proj2 (truthy_nonempty _) Nn).
  cbn [andb]. rewrite !andb_true_r.
  set (cle := if negb (truthy (lb_cle lb))
              then calculer_cle_rib (lb_cb lb) (lb_cg lb) (lb_nc lb)
              else lb_cle lb).
  assert (Ek : cle = if truthy (lb_cle lb) then lb_cle lb
                     else calculer_cle_rib (lb_cb lb) (lb_cg lb) (lb_nc lb))
    by (subst cle; destruct (truthy (lb_cle lb)); reflexivity).
  assert (Nk : cle <> []).
  { rewrite Ek. destruct (truthy (lb_cle lb)) eqn:T; [now apply truthy_nonempty|].
    now apply calculer_cle_rib_some. }
  assert (Dk : length cle = 2 /\ forallb is_digit cle = true).
  { rewrite Ek in *. destruct (truthy (lb_cle lb)) eqn:T.
    - destruct Fk as [Z|Fk]; [rewrite Z in T; discriminate T|exact Fk].
    - now apply calculer_cle_rib_deux_chiffres. }
  rewrite (proj2 (truthy_nonempty _) Nk).
  repeat (split; [reflexivity|]). split; [exact Ek|].
  split; [apply Dk|]. split; [apply Dk|reflexivity].
Qed.

End Merge.

(** Three labelled fields, no key and no IBAN. *)
Lemma reconcilier_comble_witness :
  extraire_iban_valide (fun _ => 0)
    (lit "Code banque 30006 Code guichet 00001 compte 12345678901") = []
  /\ r_cle (AppWithOcr.reconcilier (fun _ => 0) (fun _ => []) (fun _ => [])
              (lit "Code banque 30006 Code guichet 00001 compte 12345678901"))
     = lit "62"
  /\ r_nc (RibExtractor.reconcilier (fun _ => 0) (fun _ => []) (fun _ => [])
             (lit "Code banque 30006 Code guichet 00001 compte 12345678901"))
     = lit "12345678901".
Proof.
  assert (E : extraire_iban_valide (fun _ => 0)
                (lit "Code banque 30006 Code guichet 00001 compte 12345678901") = [])
    by (vm_compute; reflexivity).
  split; [exact E|]. split.
  - destruct (@reconcilier_comble (fun _ => 0) (fun _ => []) (fun _ => []) _ E
                ltac:(vm_compute; discriminate) ltac:(vm_compute; discriminate)
                ltac:(vm_compute; discriminate) _ (or_intror eq_refl))
      as (_ & _ & _ & K & _).
    rewrite K. vm_compute. reflexivity.
  - destruct (@reconcilier_comble (fun _ => 0) (fun _ => []) (fun _ => []) _ E
                ltac:(vm_compute; discriminate) ltac:(vm_compute; discriminate)
                ltac:(vm_compute; discriminate) _ (or_introl eq_refl))
      as (_ & _ & N & _).
    rewrite N. vm_compute. reflexivity.
Defined.

End MergeFacts.


(** ** Beyond the extraction core: the cleaning functions of src/app.py *)

Module NettoyageFacts.

Import PyFacts IbanFacts TexteFacts App iban_lib.

Lemma to_upper_not_space_char c :
  negb (Ascii.eqb (to_upper c) " ") = negb (Ascii.eqb c " ").
Proof.
  assert (H : Bool.eqb (negb (Ascii.eqb (to_upper c) " ")) (negb (Ascii.eqb c " "))
              = true) by (by_ascii_table c).
  now apply Bool.eqb_prop in H.
Qed.

Lemma upper_remove_space s :
  forallb (fun x => negb (Ascii.eqb x " ")) (upper (remove_char " " s)) = true.
Proof.
  apply forallb_forall. intros x Hx. unfold upper in Hx.
  apply in_map_iff in Hx as (c & <- & Hc).
  apply filter_In in Hc as [_ Hc]. now rewrite to_upper_not_space_char.
Qed.

Lemma group4_nil k s : group4 k s = [] -> s = [].
Proof. destruct s, k; cbn [group4]; congruence. Qed.

(** X19. [nettoyer_iban] never fails on a string and only changes the
    presentation: removing the spaces of what it returns (the column
    "IBAN (compact)" of src/src/app/app.py) gives the input without spaces
    in upper case, and cleaning its result again changes nothing.  No
    checksum is involved. *)
Theorem nettoyer_iban_presentation (s : str) :
  exists r,
    nettoyer_iban (JStr s) = Some r
    /\ iban_compact r = upper (remove_char " " s)
    /\ nettoyer_iban (JStr r) = Some r.
Proof.
  set (u := upper (remove_char " " s)).
  assert (Hu : remove_char " " (group4 4 u) = u).
  { unfold remove_char. apply filter_group4; [reflexivity|apply upper_remove_space]. }
  exists (group4 4 u). split; [|split].
  - unfold nettoyer_iban. destruct s; reflexivity.
  - unfold iban_compact. destruct (group4 4 u) eqn:G.
    + apply group4_nil in G. now rewrite G.
    + cbn [truthy]. exact Hu.
  - unfold nettoyer_iban. destruct (group4 4 u) eqn:G; [reflexivity|].
    cbn [falsy truthy negb]. rewrite Hu, <- G. unfold u. now rewrite upper_idem.
Qed.

(** *** Lines *)

Lemma split_nl_aux_line acc l :
  sans_saut l = true -> split_nl_aux acc l = [rev acc ++ l].
Proof.
  revert acc; induction l as [|c l IH]; intros acc H; cbn [split_nl_aux].
  - now rewrite app_nil_r.
  - cbn [sans_saut forallb] in H. apply andb_true_iff in H as [Hc Hl].
    unfold non, one in Hc. apply negb_true_iff in Hc. rewrite Hc.
    rewrite (IH _ Hl). cbn [rev]. now rewrite <- app_assoc.
Qed.

Lemma split_nl_aux_cut acc l rest :
  sans_saut l = true ->
  split_nl_aux acc (l ++ "010"%char :: rest) = (rev acc ++ l) :: split_nl_aux [] rest.
Proof.
  revert acc; induction l as [|c l IH]; intros acc H; cbn [app split_nl_aux].
  - now rewrite app_nil_r.
  - cbn [sans_saut forallb] in H. apply andb_true_iff in H as [Hc Hl].
    unfold non, one in Hc. apply negb_true_iff in Hc. rewrite Hc.
    rewrite (IH _ Hl). cbn [rev]. now rewrite <- app_assoc.
Qed.

(** Splitting what [join] put together gives the lines back. *)
Lemma split_nl_join l ls :
  Forall (fun x => sans_saut x = true) (l :: ls) ->
  split_nl (join ["010"%char] (l :: ls)) = l :: ls.
Proof.
  revert l; induction ls as [|l' ls IH]; intros l H.
  - cbn [join]. unfold split_nl. apply split_nl_aux_line. now inversion H.
  - inversion H as [|? ? Hl Hr]; subst.
    change (join ["010"%char] (l :: l' :: ls))
      with (l ++ "010"%char :: join ["010"%char] (l' :: ls)).
    unfold split_nl. rewrite (@split_nl_aux_cut [] _ _ Hl). cbn [rev app].
    f_equal. apply IH. exact Hr.
Qed.

Lemma split_nl_aux_sans_saut s :
  forall acc, sans_saut acc = true ->
  Forall (fun x => sans_saut x = true) (split_nl_aux acc s).
Proof.
  induction s as [|c s IH]; intros acc H; cbn [split_nl_aux].
  - constructor; [|constructor]. unfold sans_saut in *.
    rewrite forallb_forall in *. intros x Hx. apply H. now apply in_rev.
  - destruct (Ascii.eqb c "010") eqn:Ec.
    + constructor; [|now apply IH].
      unfold sans_saut in *. rewrite forallb_forall in *. intros x Hx.
      apply H. now apply in_rev.
    + apply IH. cbn [sans_saut forallb]. unfold non at 1, one. now rewrite Ec.
Qed.

Lemma split_nl_sans_saut s : Forall (fun x => sans_saut x = true) (split_nl s).
Proof. now apply split_nl_aux_sans_saut. Qed.

Lemma strip_sans_saut l : sans_saut l = true -> sans_saut (strip l) = true.
Proof.
  unfold sans_saut. rewrite !forallb_forall. intros H x Hx.
  now apply H, strip_incl.
Qed.

(** The lines [[l.strip() for l in s.split("\n") if l.strip()]]. *)
Lemma lignes_utiles s :
  let ls := map strip (filter (fun l => truthy (strip l)) (split_nl s)) in
  Forall (fun x => sans_saut x = true /\ strip x = x /\ x <> []) ls.
Proof.
  cbv zeta. pose proof (split_nl_sans_saut s) as H.
  induction (split_nl s) as [|l ls IH]; cbn [filter map]; [constructor|].
  inversion H as [|? ? Hl Hr]; subst.
  destruct (truthy (strip l)) eqn:T; [|now apply IH].
  cbn [map]. constructor; [|now apply IH].
  split; [now apply strip_sans_saut|]. split; [apply strip_idem|].
  now apply truthy_nonempty.
Qed.

Lemma lignes_utiles_fix ls :
  Forall (fun x => sans_saut x = true /\ strip x = x /\ x <> []) ls ->
  map strip (filter (fun l => truthy (strip l)) ls) = ls.
Proof.
  induction 1 as [|l ls (_ & S & N) _ IH]; [reflexivity|].
  cbn [filter]. rewrite S, (proj2 (truthy_nonempty _) N).
  cbn [map]. now rewrite S, IH.
Qed.

(** X20. What [nettoyer_domiciliation] returns for a string has no empty
    line and no line with a blank at either end, and cleaning it again
    changes nothing. *)
Theorem nettoyer_domiciliation_lignes (s : str) :
  exists r,
    nettoyer_domiciliation (JStr s) = Some r
    /\ (r <> [] ->
        Forall (fun l => l <> [] /\ strip l = l) (split_nl r))
    /\ nettoyer_domiciliation (JStr r) = Some r.
Proof.
  pose proof (lignes_utiles s) as H. cbv zeta in H.
  set (ls := map strip (filter (fun l => truthy (strip l)) (split_nl s))) in *.
  assert (Sp : ls <> [] -> split_nl (join ["010"%char] ls) = ls).
  { destruct ls as [|l ls']; [congruence|]. intros _. apply split_nl_join.
    eapply Forall_impl; [|exact H]. cbv beta. tauto. }
  assert (E : nettoyer_domiciliation (JStr s) = Some (join ["010"%char] ls)).
  { unfold nettoyer_domiciliation. destruct s; reflexivity. }
  exists (join ["010"%char] ls). split; [exact E|]. split.
  - intros N. assert (Nl : ls <> []) by (intros Z; rewrite Z in N; now apply N).
    rewrite (Sp Nl). eapply Forall_impl; [|exact H]. cbv beta. tauto.
  - unfold nettoyer_domiciliation.
    destruct (join ["010"%char] ls) as [|c r] eqn:J; [reflexivity|].
    cbn [falsy truthy negb].
    assert (Nl : ls <> []) by (intros Z; rewrite Z in J; discriminate J).
    now rewrite (Sp Nl), (lignes_utiles_fix H), J.
Qed.

(** *** What makes the vision loop stop *)

Lemma nettoyer_iban_some v :
  (exists r, nettoyer_iban v = Some r) <-> chaine_ou_vide v = true.
Proof.
  unfold nettoyer_iban, chaine_ou_vide.
  destruct (falsy v); [split; eauto|].
  destruct v; cbn [orb]; split; intros H; eauto; try discriminate;
    destruct H as [r H]; discriminate.
Qed.

Lemma nettoyer_bic_some v :
  (exists r, nettoyer_bic v = Some r) <-> chaine_ou_vide v = true.
Proof.
  unfold nettoyer_bic, chaine_ou_vide.
  destruct (falsy v); [split; eauto|].
  destruct v; cbn [orb]; split; intros H; eauto; try discriminate;
    destruct H as [r H]; discriminate.
Qed.

Lemma nettoyer_domiciliation_some v :
  (exists r, nettoyer_domiciliation v = Some r) <-> chaine_ou_vide v = true.
Proof.
  unfold nettoyer_domiciliation, chaine_ou_vide.
  destruct (falsy v); [split; eauto|].
  destruct v; cbn [orb]; split; intros H; eauto; try discriminate;
    destruct H as [r H]; discriminate.
Qed.

Section Arret.

Variable json_loads : str -> option json.

(** X21. When the answer parses to a JSON object, the vision loop appends
    a row exactly when the values under "iban", "bic" and "domiciliation"
    are strings or count as false (absent keys included); any other value
    there (a non-zero number, [true], a non-empty list or object) raises an
    exception that nothing catches.  The five other columns are copied
    from the object as they are. *)
Theorem traiter_arret (fichier raw : str) (data : list (str * json)) :
  startswith (lit "__ERROR__") raw = false ->
  json_loads (nettoyer_reponse_json raw) = Some (JObj data) ->
  (traiter json_loads fichier raw = Exception_ <->
   (chaine_ou_vide (get data (lit "iban"))
    && chaine_ou_vide (get data (lit "bic"))
    && chaine_ou_vide (get data (lit "domiciliation"))) = false)
  /\ (forall l, traiter json_loads fichier raw = Ajoute l ->
      Titulaire_du_compte l = get data (lit "titulaire")
      /\ Code_Banque l = get data (lit "code_banque")
      /\ Code_Guichet l = get data (lit "code_guichet")
      /\ No_de_compte l = get data (lit "numero_compte")
      /\ Cle_RIB l = get data (lit "cle_rib")
      /\ Erreur l = []).
Proof.
  intros S J. unfold traiter. rewrite S, J.
  pose proof (nettoyer_iban_some (get data (lit "iban"))) as Hi.
  pose proof (nettoyer_bic_some (get data (lit "bic"))) as Hb.
  pose proof (nettoyer_domiciliation_some (get data (lit "domiciliation"))) as Hd.
  destruct (nettoyer_iban (get data (lit "iban"))) as [i|].
  - rewrite (proj1 Hi) by eauto.
    destruct (nettoyer_bic (get data (lit "bic"))) as [b|].
    + rewrite (proj1 Hb) by eauto.
      destruct (nettoyer_domiciliation (get data (lit "domiciliation"))) as [d|].
      * rewrite (proj1 Hd) by eauto. split; [split; discriminate|].
        intros l E. injection E as <-. repeat split.
      * split; [|discriminate]. split; [intros _|reflexivity].
        destruct (chaine_ou_vide (get data (lit "domiciliation"))); [|reflexivity].
        destruct (proj2 Hd eq_refl) as [r Hr]. discriminate Hr.
    + split; [|discriminate]. split; [intros _|reflexivity].
      destruct (chaine_ou_vide (get data (lit "bic"))); [|reflexivity].
      destruct (proj2 Hb eq_refl) as [r Hr]. discriminate Hr.
  - split; [|discriminate]. split; [intros _|reflexivity].
    destruct (chaine_ou_vide (get data (lit "iban"))); [|reflexivity].
    destruct (proj2 Hi eq_refl) as [r Hr]. discriminate Hr.
Qed.

End Arret.

(** An IBAN given as a number stops the loop. *)
Lemma traiter_arret_witness :
  startswith (lit "__ERROR__") (lit "{}") = false
  /\ loads_iban_nombre (nettoyer_reponse_json (lit "{}"))
     = Some (JObj [(lit "iban", JInt 123)])
  /\ traiter loads_iban_nombre (lit "rib.pdf") (lit "{}") = Exception_.
Proof.
  assert (S : startswith (lit "__ERROR__") (lit "{}") = false) by reflexivity.
  assert (J : loads_iban_nombre (nettoyer_reponse_json (lit "{}"))
              = Some (JObj [(lit "iban", JInt 123)])) by reflexivity.
  split; [exact S|]. split; [exact J|].
  apply (proj1 (@traiter_arret loads_iban_nombre (lit "rib.pdf") _ _ S J)).
  vm_compute. reflexivity.
Defined.

End NettoyageFacts.


(** ** Beyond the extraction core: the rows of src/app_with_ocr.py *)

Module StatutFacts.

Import PyFacts TexteFacts Utils.

Lemma espace_remove_cr s :
  forallb is_space (remove_char "013" s) = forallb is_space s.
Proof.
  unfold remove_char. induction s as [|c s IH]; [reflexivity|].
  cbn [filter forallb]. destruct (Ascii.eqb c "013") eqn:E; cbn [negb].
  - apply Ascii.eqb_eq in E. subst c. exact IH.
  - cbn [forallb]. now rewrite IH.
Qed.

Lemma blanc_espace c : blanc c = true -> is_space c = true.
Proof.
  assert (H : implb (blanc c) (is_space c) = true) by (by_ascii_table c).
  intros E. now rewrite E in H.
Qed.

Lemma espace_collapse_blanks b s :
  forallb is_space (collapse_blanks b s) = forallb is_space s.
Proof.
  revert b; induction s as [|c s IH]; intros b; [reflexivity|].
  cbn [collapse_blanks forallb]. fold blanc. destruct (blanc c) eqn:E.
  - rewrite (blanc_espace _ E). destruct b; [apply IH|].
    cbn [forallb]. now rewrite IH.
  - cbn [forallb]. now rewrite IH.
Qed.

Lemma espace_nettoyer texte :
  forallb is_space (nettoyer texte) = forallb is_space texte.
Proof. unfold nettoyer. now rewrite espace_collapse_blanks, espace_remove_cr. Qed.

Lemma truthy_strip s : truthy (strip s) = negb (forallb is_space s).
Proof.
  destruct (forallb is_space s) eqn:E.
  - now rewrite (strip_all_space _ E).
  - destruct (strip s) eqn:S; [|reflexivity].
    apply strip_nil_all_space in S. congruence.
Qed.

Lemma nz_non_blanc v : strip (AppWithOcr.nz v) <> [].
Proof.
  unfold AppWithOcr.nz. destruct (truthy (strip v)) eqn:T.
  - now apply truthy_nonempty.
  - vm_compute. discriminate.
Qed.

Section Statut.

Variable h : str -> nat.
Variable bic_lib : option (str -> bool).
Variables tit dom : str -> str.

(** X22. A row of src/app_with_ocr.py has the status OK exactly when the
    text read by the OCR holds a character that is not a blank; otherwise
    it is the error row "OCR vide", all fields MANQUANT.  In both cases no
    field of the row is empty or blank. *)
Theorem traiter_statut (fichier texte : str) :
  let l := AppWithOcr.traiter h bic_lib tit dom fichier texte in
  (forallb is_space texte = true ->
   l = AppWithOcr.ligne_erreur fichier (lit "OCR vide (aucun texte exploitable)"))
  /\ (forallb is_space texte = false -> AppWithOcr.Statut l = lit "OK")
  /\ Forall (fun v => strip v <> [])
       [ AppWithOcr.Titulaire_du_compte l; AppWithOcr.Code_Banque l;
         AppWithOcr.Code_Guichet l; AppWithOcr.No_de_compte l;
         AppWithOcr.Cle_RIB l; AppWithOcr.BIC_SWIFT l; AppWithOcr.IBAN l;
         AppWithOcr.Domiciliation l ].
Proof.
  cbv zeta. unfold AppWithOcr.traiter.
  rewrite truthy_strip, espace_nettoyer, negb_involutive.
  destruct (forallb is_space texte).
  - split; [reflexivity|]. split; [discriminate|].
    repeat constructor; vm_compute; discriminate.
  - split; [discriminate|]. split; [reflexivity|].
    repeat constructor; apply nz_non_blanc.
Qed.

End Statut.

End StatutFacts.


(** ** Beyond the extraction core: the holder and the domiciliation *)

Module LigneFacts.

Import PyFacts ReFacts TexteFacts NettoyageFacts Utils.

Lemma titulaire_par_civilite_ligne ls :
  Forall (fun x => sans_saut x = true) ls ->
  strip (titulaire_par_civilite ls) = titulaire_par_civilite ls
  /\ sans_saut (titulaire_par_civilite ls) = true.
Proof.
  induction 1 as [|l ls Hl _ IH]; cbn [titulaire_par_civilite]; [now split|].
  destruct (search PAT_CIVILITE l); [|exact IH].
  split; [apply strip_idem|now apply strip_sans_saut].
Qed.

Lemma hd_sans_saut ls :
  Forall (fun x => sans_saut x = true) ls -> sans_saut (hd [] ls) = true.
Proof. destruct 1; [reflexivity|assumption]. Qed.

Lemma join_espace_sans_saut ls :
  Forall (fun x => sans_saut x = true) ls -> sans_saut (join [" "%char] ls) = true.
Proof.
  induction 1 as [|l ls Hl Hr IH]; [reflexivity|].
  destruct ls as [|l' ls']; [exact Hl|].
  change (join [" "%char] (l :: l' :: ls'))
    with (l ++ " "%char :: join [" "%char] (l' :: ls')).
  unfold sans_saut in *. rewrite forallb_app, Hl. cbn [forallb andb].
  rewrite IH. reflexivity.
Qed.

Lemma suite_domiciliation_sans_saut ls :
  Forall (fun x => sans_saut x = true) ls ->
  Forall (fun x => sans_saut x = true) (suite_domiciliation ls).
Proof.
  induction 1 as [|l ls Hl _ IH]; cbn [suite_domiciliation]; [constructor|].
  destruct (search PAT_RUBRIQUE l); [constructor|].
  destruct (length l <? 3); [constructor|now constructor].
Qed.

(** What follows the word on its line: the group stops at the line feed. *)
Lemma suite_du_mot_sans_saut l m :
  search PAT_DOMICILIATION_SUITE l = Some m -> sans_saut (group 2 (snd m)) = true.
Proof.
  destruct m as [m cs]. intros E.
  apply search_sound in E as (pre & post & _ & S).
  unfold PAT_DOMICILIATION_SUITE, mot_domiciliation in S. cbn [Cat sem] in S.
  destruct S as (m0 & m1 & c0 & _ & _ & S).
  destruct S as (ma & mb & c1 & _ & _ & S).
  destruct S as (mc & md & c2 & _ & _ & S).
  destruct S as (me & mf & c3 & _ & _ & S).
  destruct S as (c4 & (Hq & _) & ->).
  cbn [snd group Nat.eqb]. exact Hq.
Qed.

Lemma domiciliation_depuis_ligne ls :
  Forall (fun x => sans_saut x = true) ls ->
  strip (domiciliation_depuis ls) = domiciliation_depuis ls
  /\ sans_saut (domiciliation_depuis ls) = true.
Proof.
  induction 1 as [|l ls Hl Hr IH]; cbn [domiciliation_depuis]; [now split|].
  destruct (search PAT_DOMICILIATION_MOT l); [|exact IH].
  split; [apply strip_idem|].
  apply strip_sans_saut, join_espace_sans_saut, Forall_app. split.
  - destruct (search PAT_DOMICILIATION_SUITE l) as [m|] eqn:E.
    + destruct (truthy (strip (group 2 (snd m)))); constructor; [|constructor].
      apply strip_sans_saut. eapply suite_du_mot_sans_saut; exact E.
    + cbn [truthy]. constructor.
  - now apply suite_domiciliation_sans_saut.
Qed.

(** X23. The holder and the domiciliation found by src/utils.py are
    always one trimmed line: what [extraire_titulaire] and
    [extraire_domiciliation] return holds no line feed and has no blank at
    either end; and a holder read after its label has more than 3
    characters or is not returned. *)
Theorem champs_libres_une_ligne (t : str) :
  strip (extraire_titulaire t) = extraire_titulaire t
  /\ sans_saut (extraire_titulaire t) = true
  /\ strip (extraire_domiciliation t) = extraire_domiciliation t
  /\ sans_saut (extraire_domiciliation t) = true
  /\ (extraire_titulaire t = titulaire_par_civilite (split_nl t)
      \/ 3 < length (extraire_titulaire t)).
Proof.
  pose proof (titulaire_par_civilite_ligne (split_nl_sans_saut t)) as [R1 R2].
  assert (D : strip (extraire_domiciliation t) = extraire_domiciliation t
              /\ sans_saut (extraire_domiciliation t) = true).
  { unfold extraire_domiciliation. apply domiciliation_depuis_ligne.
    eapply Forall_impl; [|exact (lignes_utiles t)]. cbv beta. tauto. }
  destruct D as [D1 D2].
  unfold extraire_titulaire. cbv zeta.
  destruct (search PAT_TITULAIRE t) as [m|]; [|now auto 6].
  set (val := strip (hd [] (split_nl (strip (group 2 (snd m)))))).
  destruct ((3 <? length val) && negb _) eqn:C; [|now auto 6].
  apply andb_true_iff in C as [C _]. apply Nat.ltb_lt in C.
  split; [apply strip_idem|]. split; [|auto].
  apply strip_sans_saut, hd_sans_saut, split_nl_sans_saut.
Qed.

End LigneFacts.
